(** * The JHipster entity generator: validation and in-memory derivation

    A shallow embedding of [generators/entity/index.js]: the [configuring]
    phase ([validateFile], [loadInMemoryData]) and the table-name check
    ([_validateTableName]), together with the properties the specification
    states about them.

    JavaScript objects are finite maps from property names to JSON values,
    a property that reads [undefined] is a missing key; the generator's
    [this.warning] appends to a log and [this.error] throws.  Everything the
    file imports (lodash, pluralize, the generator base class, the reserved
    keyword tables) is a member of the class [Lib]. *)

From Stdlib Require Import ZArith.
From stdpp Require Import gmap strings list fin_maps pretty.

Set Warnings "-register-all".


(** ** JSON values and JavaScript objects *)

Inductive val :=
| VNull
| VBool (b : bool)
| VNum (n : Z)
| VStr (s : string)
| VArr (l : list val)
| VObj (m : gmap string val).

(** An object; [o !! k = None] is [o.k === undefined]. *)
Abbreviation obj := (gmap string val).

(** A JavaScript value as an expression yields it; [None] is [undefined]. *)
Abbreviation jsval := (option val).

Definition str (s : string) : jsval := Some (VStr s).
Definition boolean (b : bool) : jsval := Some (VBool b).

(** [_.isUndefined(v)] *)
Definition isUndefined (v : jsval) : bool :=
  match v with None => true | Some _ => false end.

(** [_.isArray(v)] *)
Definition isArray (v : jsval) : bool :=
  match v with Some (VArr _) => true | _ => false end.

(** JavaScript's [ToBoolean]. *)
Definition truthy (v : jsval) : bool :=
  match v with
  | None | Some VNull => false
  | Some (VBool b) => b
  | Some (VNum n) => negb (n =? 0)%Z
  | Some (VStr s) => negb (String.eqb s "")
  | Some (VArr _) | Some (VObj _) => true
  end.

(** [a || b] *)
Definition orElse (a b : jsval) : jsval := if truthy a then a else b.

(** [a === b].  Arrays and objects compare by identity in JavaScript; the
    operands compared by this program come from different parsed documents,
    so two structured values are never identical. *)
Definition strictEq (a b : jsval) : bool :=
  match a, b with
  | None, None => true
  | Some VNull, Some VNull => true
  | Some (VBool x), Some (VBool y) => Bool.eqb x y
  | Some (VNum x), Some (VNum y) => (x =? y)%Z
  | Some (VStr x), Some (VStr y) => String.eqb x y
  | _, _ => false
  end.

(** [v === 'lit'] *)
Definition isStr (v : jsval) (lit : string) : bool := strictEq v (str lit).

(** [[l1, l2, ...].includes(v)] for a list of string literals. *)
Definition oneOf (lits : list string) (v : jsval) : bool :=
  existsb (isStr v) lits.

(** [arr.includes(v)] on an array of values. *)
Definition includes (arr : list jsval) (v : jsval) : bool :=
  existsb (strictEq v) arr.

(** [o.k = v].  When [v] is [undefined] the property reads [undefined]
    afterwards, exactly as a missing one does for every observer this
    program has ([_.isUndefined], [||], [JSON.stringify]). *)
Definition assign (k : string) (v : jsval) (o : obj) : obj :=
  match v with
  | Some x => <[k := x]> o
  | None => delete k o
  end.

Arguments assign : simpl never.

(** [o.k || {}] and then a property read: a property of a sub-object. *)
Definition sub (o : obj) (k field : string) : jsval :=
  match o !! k with
  | Some (VObj m) => m !! field
  | _ => None
  end.

(** ** Warnings, errors and in-place mutation

    A computation runs on a mutable state, appends warnings and either
    returns or throws.  The state at the moment of a throw is kept: that is
    what the caller's objects look like afterwards. *)

Inductive error :=
| SchemaError (msg : string)   (* thrown by [this.error] *)
| TypeError.                   (* thrown by the runtime *)

Record Out (S A : Type) := mkOut {
  st : S;
  log : list string;
  res : error + A
}.
Arguments mkOut {S A} _ _ _.
Arguments st {S A} _.
Arguments log {S A} _.
Arguments res {S A} _.

Definition M (S A : Type) : Type := S → Out S A.

Definition run {S A} (m : M S A) (s : S) : Out S A := m s.

#[global] Instance M_ret {S} : MRet (M S) :=
  λ A a s, mkOut s [] (inr a).

#[global] Instance M_bind {S} : MBind (M S) :=
  λ A B k m s,
    let o := m s in
    match res o with
    | inl e => mkOut (st o) (log o) (inl e)
    | inr a => let o' := k a (st o) in
               mkOut (st o') (log o ++ log o') (res o')
    end.

Definition get {S} : M S S := λ s, mkOut s [] (inr s).
Definition gets {S A} (f : S → A) : M S A := λ s, mkOut s [] (inr (f s)).
Definition modify {S} (f : S → S) : M S unit := λ s, mkOut (f s) [] (inr ()).

(** [this.warning(msg)] *)
Definition warning {S} (msg : string) : M S unit := λ s, mkOut s [msg] (inr ()).

(** [this.error(msg)]: throws, the rest of the phase does not run. *)
Definition raise {S A} (e : error) : M S A := λ s, mkOut s [] (inl e).

Definition when {S} (b : bool) (m : M S unit) : M S unit :=
  if b then m else mret ().

Definition succeeded {S A} (o : Out S A) : Prop :=
  match res o with inr _ => True | inl _ => False end.

(** [xs.forEach(body)] where [body] mutates the element it is given and the
    enclosing state.  The elements visited before a throw keep their
    mutations, the throwing one keeps what was done to it so far, the rest
    are untouched. *)
Fixpoint forEach {C X} (body : M (C * X) unit) (xs : list X) (c : C)
  : Out (C * list X) unit :=
  match xs with
  | [] => mkOut (c, []) [] (inr ())
  | x :: rest =>
    let o := body (c, x) in
    match res o with
    | inl e => mkOut (fst (st o), snd (st o) :: rest) (log o) (inl e)
    | inr _ =>
      let o' := forEach body rest (fst (st o)) in
      mkOut (fst (st o'), snd (st o) :: snd (st o'))
            (log o ++ log o') (res o')
    end
  end.

(** Run a computation on one component of the state. *)
Definition onSnd {C X A} (m : M X A) : M (C * X) A :=
  λ s, let o := m (snd s) in mkOut (fst s, st o) (log o) (res o).

Definition onFst {C X A} (m : M C A) : M (C * X) A :=
  λ s, let o := m (fst s) in mkOut (st o, snd s) (log o) (res o).

(** State-dependent conditionals, messages and assignments, so that a
    callback reads like its source. *)
Definition ifS {S} (c : S → bool) (m : M S unit) : M S unit :=
  s ← get; when (c s) m.

Definition ifElseS {S} (c : S → bool) (m1 m2 : M S unit) : M S unit :=
  s ← get; if c s then m1 else m2.

Definition warn {S} (msg : S → string) : M S unit :=
  s ← get; warning (msg s).

Definition throw {S A} (msg : S → string) : M S A :=
  s ← get; raise (SchemaError (msg s)).

Fixpoint forM_ {S A} (xs : list A) (body : A → M S unit) : M S unit :=
  match xs with
  | [] => mret ()
  | x :: rest => body x;; forM_ rest body
  end.

(** ** What the file imports *)

Class Lib := {
  (* lodash; each converts its argument to a string first *)
  upperFirst : jsval → string;
  lowerFirst : jsval → string;
  snakeCase : jsval → string;
  kebabCase : jsval → string;
  camelCase : jsval → string;
  startCase : jsval → string;
  (* the pluralize package, on strings *)
  pluralize : string → string;
  (* the language: JSON.stringify(data, null, 4), String(v) of a number,
     array or object, String.prototype.toLowerCase / toUpperCase *)
  stringify : val → string;
  jsString : val → string;
  jsGt : jsval → Z → bool;       (* [v > n] on a value that is not a length *)
  jsPlus : jsval → jsval → string;  (* [`${a + b}`], neither operand a string *)
  toLowerCase : string → string;
  toUpperCase : string → string;
  (* path.join, this.fs.readJSON ([None] when it throws) *)
  pathJoin : string → string → string;
  readJSON : string → option jsval;
  (* generator-constants *)
  SUPPORTED_VALIDATION_RULES : list string;
  JHIPSTER_CONFIG_DIR : string;
  (* jdl/jhipster/reserved-keywords: the database type is upper-cased
     first, which throws on [undefined] ([None] when it throws) *)
  isReservedTableName : jsval → jsval → option bool;
  (* generator-base *)
  getTableName : jsval → jsval;
  getColumnName : jsval → jsval;
  getPkType : jsval → jsval;
  getPkTypeBasedOnDBAndAssociation : jsval → jsval → list obj → jsval;
  upperFirstCamelCase : jsval → string;
  getEntityFolderName : jsval → jsval → jsval;
  getEntityParentPathAddition : jsval → jsval;
  dateFormatForLiquibase : string
}.

(** A template literal's [${v}]. *)
Definition tpl `{Lib} (v : jsval) : string :=
  match v with
  | None => "undefined"
  | Some VNull => "null"
  | Some (VBool true) => "true"
  | Some (VBool false) => "false"
  | Some (VStr s) => s
  | Some v => jsString v
  end.

(** [`${a + b}`]: with a string operand, [+] concatenates. *)
Definition plus `{Lib} (a b : jsval) : string :=
  match a, b with
  | Some (VStr _), _ | _, Some (VStr _) => tpl a +:+ tpl b
  | _, _ => jsPlus a b
  end.

Definition newline : string := String (Ascii.ascii_of_nat 10) "".
Definition dquote : Ascii.ascii := Ascii.ascii_of_nat 34.
Definition squote : Ascii.ascii := Ascii.ascii_of_nat 39.
Definition backslash : Ascii.ascii := Ascii.ascii_of_nat 92.
Definition chr (c : Ascii.ascii) : string := String c "".

(** [isReservedTableName(keyword, databaseType)], a call that may throw. *)
Definition reservedTableName `{Lib} {S} (keyword databaseType : jsval) : M S bool :=
  match isReservedTableName keyword databaseType with
  | Some reserved => mret reserved
  | None => raise TypeError
  end.

(** ** The generator's context

    [this.context]: the entity name, the arrays the phase iterates over and
    the aggregates it builds are components of their own; every other
    property lives in [cfg]. *)

Record Context := mkContext {
  name : string;                                   (* context.name *)
  cfg : obj;                                       (* scalar properties *)
  fields : list obj;                               (* context.fields *)
  relationships : list obj;                        (* context.relationships *)
  differentTypes : list jsval;
  differentRelationships : gmap string (list obj);
  blobFields : list obj;
  i18nToLoad : list jsval
}.

Definition set_cfg (f : obj → obj) (c : Context) : Context :=
  mkContext (name c) (f (cfg c)) (fields c) (relationships c)
    (differentTypes c) (differentRelationships c) (blobFields c) (i18nToLoad c).

Definition set_fields (l : list obj) (c : Context) : Context :=
  mkContext (name c) (cfg c) l (relationships c)
    (differentTypes c) (differentRelationships c) (blobFields c) (i18nToLoad c).

Definition set_relationships (l : list obj) (c : Context) : Context :=
  mkContext (name c) (cfg c) (fields c) l
    (differentTypes c) (differentRelationships c) (blobFields c) (i18nToLoad c).

Definition set_differentTypes (l : list jsval) (c : Context) : Context :=
  mkContext (name c) (cfg c) (fields c) (relationships c)
    l (differentRelationships c) (blobFields c) (i18nToLoad c).

Definition set_differentRelationships (m : gmap string (list obj)) (c : Context)
  : Context :=
  mkContext (name c) (cfg c) (fields c) (relationships c)
    (differentTypes c) m (blobFields c) (i18nToLoad c).

Definition set_blobFields (l : list obj) (c : Context) : Context :=
  mkContext (name c) (cfg c) (fields c) (relationships c)
    (differentTypes c) (differentRelationships c) l (i18nToLoad c).

Definition set_i18nToLoad (l : list jsval) (c : Context) : Context :=
  mkContext (name c) (cfg c) (fields c) (relationships c)
    (differentTypes c) (differentRelationships c) (blobFields c) l.

(** [context.fields.forEach(...)], [context.relationships.forEach(...)]:
    the visited objects are the array's own elements. *)
Definition forEachOf {C X} (getl : C → list X) (setl : list X → C → C)
    (body : M (C * X) unit) : M C unit :=
  λ c, let o := forEach body (getl c) c in
       mkOut (setl (snd (st o)) (fst (st o))) (log o) (res o).

(** [o.k = e] on the object a callback was given, [e] read off that object. *)
Definition set (k : string) (e : obj → jsval) : M obj unit :=
  modify (λ o, assign k (e o) o).

(** [context.k = e] *)
Definition cset (k : string) (e : Context → jsval) : M Context unit :=
  modify (λ c, set_cfg (assign k (e c)) c).

(** State of the callback of [context.fields.forEach]. *)
Abbreviation FieldState := (Context * obj)%type.

(** State of the callback of [context.relationships.forEach]: the context,
    the local [hasUserField], and the relationship. *)
Abbreviation RelState := ((Context * bool) * obj)%type.

Section Generator.
Context `{Lib}.

(** ** [validateFile] (lines 312-469) *)

(** The tail every message of [validateFile] about an element has. *)
Definition inJson (entityName kind : string) (o : obj) : string :=
  " in .jhipster/" +:+ entityName +:+ ".json for " +:+ kind +:+ " " +:+ stringify (VObj o).

(** [_.includes(field.fieldValidateRules, rule) &&
     _.isUndefined(field[companion])] then [this.error] (lines 338-368). *)
Definition requireCompanion (entityName : string) (rules : list val)
    (rule companion : string) : M obj unit :=
  ifS (λ field, includes (Some <$> rules) (str rule)
                && isUndefined (field !! companion))
    (throw (λ field, companion +:+ " is missing" +:+ inJson entityName "field" field)).

(** The callback of [context.fields.forEach] (lines 316-379). *)
Definition validateField (entityName : string) : M obj unit :=
  ifS (λ field, isUndefined (field !! "fieldName"))
    (throw (λ field, "fieldName is missing" +:+ inJson entityName "field" field));;
  ifS (λ field, isUndefined (field !! "fieldType"))
    (throw (λ field, "fieldType is missing" +:+ inJson entityName "field" field));;
  field ← get;
  match field !! "fieldValidateRules" with
  | None => mret ()
  | Some (VArr rules) =>
    forM_ rules (λ fieldValidateRule,
      when (negb (oneOf SUPPORTED_VALIDATION_RULES (Some fieldValidateRule)))
        (throw (λ field,
           "fieldValidateRules contains unknown validation rule "
           +:+ tpl (Some fieldValidateRule) +:+ inJson entityName "field" field
           +:+ " [supported validation rules "
           +:+ String.concat "," SUPPORTED_VALIDATION_RULES +:+ "]")));;
    requireCompanion entityName rules "max" "fieldValidateRulesMax";;
    requireCompanion entityName rules "min" "fieldValidateRulesMin";;
    requireCompanion entityName rules "maxlength" "fieldValidateRulesMaxlength";;
    requireCompanion entityName rules "minlength" "fieldValidateRulesMinlength";;
    requireCompanion entityName rules "maxbytes" "fieldValidateRulesMaxbytes";;
    requireCompanion entityName rules "minbytes" "fieldValidateRulesMinbytes";;
    requireCompanion entityName rules "pattern" "fieldValidateRulesPattern";;
    ifS (λ field, isStr (field !! "fieldType") "ByteBuffer")
      (warn (λ field,
         "Cannot use validation" +:+ inJson entityName "field" field
         +:+ " " +:+ newline
         +:+ "Hibernate JPA 2 Metamodel does not work with Bean Validation 2 for LOB fields, so LOB validation is disabled");;
       set "validation" (λ _, boolean false);;
       set "fieldValidateRules" (λ _, Some (VArr [])))
  | Some _ =>
    throw (λ field,
      "fieldValidateRules is not an array" +:+ inJson entityName "field" field)
  end.

(** The callback of [context.relationships.forEach] (lines 382-439). *)
Definition validateRelationship (entityName : string) : M obj unit :=
  ifS (λ relationship, isUndefined (relationship !! "relationshipName"))
    (set "relationshipName" (λ relationship, relationship !! "otherEntityName");;
     warn (λ relationship,
       "relationshipName is missing" +:+ inJson entityName "relationship" relationship
       +:+ ", using " +:+ tpl (relationship !! "otherEntityName") +:+ " as fallback"));;
  ifS (λ relationship, isUndefined (relationship !! "otherEntityName"))
    (throw (λ relationship,
       "otherEntityName is missing" +:+ inJson entityName "relationship" relationship));;
  ifS (λ relationship,
         isUndefined (relationship !! "otherEntityRelationshipName")
         && negb (isUndefined (relationship !! "relationshipType"))
         && negb (isStr (relationship !! "relationshipType") ""))
    (set "otherEntityRelationshipName" (λ _, str (lowerFirst (str entityName)));;
     ifS (λ relationship, negb (isStr (relationship !! "otherEntityName") "user"))
       (warn (λ relationship,
          "otherEntityRelationshipName is missing"
          +:+ inJson entityName "relationship" relationship
          +:+ ", using " +:+ lowerFirst (str entityName) +:+ " as fallback")));;
  ifS (λ relationship,
         isUndefined (relationship !! "otherEntityField")
         && (isStr (relationship !! "relationshipType") "many-to-one"
             || (isStr (relationship !! "relationshipType") "many-to-many"
                 && strictEq (relationship !! "ownerSide") (boolean true))
             || (isStr (relationship !! "relationshipType") "one-to-one"
                 && strictEq (relationship !! "ownerSide") (boolean true))))
    (warn (λ relationship,
       "otherEntityField is missing" +:+ inJson entityName "relationship" relationship
       +:+ ", using id as fallback");;
     set "otherEntityField" (λ _, str "id"));;
  ifS (λ relationship, isUndefined (relationship !! "relationshipType"))
    (throw (λ relationship,
       "relationshipType is missing" +:+ inJson entityName "relationship" relationship));;
  ifS (λ relationship,
         isUndefined (relationship !! "ownerSide")
         && (isStr (relationship !! "relationshipType") "one-to-one"
             || isStr (relationship !! "relationshipType") "many-to-many"))
    (throw (λ relationship,
       "ownerSide is missing" +:+ inJson entityName "relationship" relationship)).

(** The root properties (lines 441-468). *)
Definition rootFallback (key shown : string) (fallback : jsval) : M Context unit :=
  ifS (λ context, isUndefined (cfg context !! key))
    (warn (λ context,
       key +:+ " is missing in .jhipster/" +:+ name context +:+ ".json, using "
       +:+ shown +:+ " as fallback");;
     cset key (λ _, fallback)).

Definition validateRoot : M Context unit :=
  ifS (λ context, isUndefined (cfg context !! "changelogDate")
                  && oneOf ["sql"; "cassandra"] (cfg context !! "databaseType"))
    (warn (λ context,
       "changelogDate is missing in .jhipster/" +:+ name context +:+ ".json, using "
       +:+ dateFormatForLiquibase +:+ " as fallback");;
     cset "changelogDate" (λ _, str dateFormatForLiquibase));;
  rootFallback "dto" "no" (str "no");;
  rootFallback "service" "no" (str "no");;
  rootFallback "jpaMetamodelFiltering" "'no'" (boolean false);;
  rootFallback "pagination" "no" (str "no");;
  ifS (λ context, negb (truthy (cfg context !! "clientRootFolder"))
                  && negb (truthy (cfg context !! "skipUiGrouping")))
    (ifS (λ context, truthy (cfg context !! "useMicroserviceJson")
                     || isStr (cfg context !! "applicationType") "microservice")
       (cset "clientRootFolder" (λ context, cfg context !! "microserviceName"))).

Definition validateFile : M Context unit :=
  context ← get;
  let entityName := name context in
  forEachOf fields set_fields (onSnd (validateField entityName));;
  forEachOf relationships set_relationships (onSnd (validateRelationship entityName));;
  validateRoot.

(** ** [loadInMemoryData] (lines 523-973) *)

(** [pluralize(v)]: the package lower-cases its argument, which throws on
    anything but a string. *)
Definition pluralizeV {S} (v : jsval) : M S jsval :=
  match v with
  | Some (VStr s) => mret (str (pluralize s))
  | _ => raise TypeError
  end.

(** [s.replace(/c/g, by)] *)
Fixpoint replaceAll (c : Ascii.ascii) (by_ : string) (s : string) : string :=
  match s with
  | EmptyString => EmptyString
  | String a rest =>
    (if Ascii.eqb a c then by_ else String a EmptyString) +:+ replaceAll c by_ rest
  end.

(** [v ? v.replace(...) : v] (lines 669-683) *)
Definition escaped {S} (f : string → string) (v : jsval) : M S jsval :=
  if truthy v then
    match v with
    | Some (VStr s) => mret (str (f s))
    | _ => raise TypeError
    end
  else mret v.


(** [field.k = e] / [relationship.k = e] on the callback's element. *)
Definition fset {C} (k : string) (e : C * obj → jsval) : M (C * obj) unit :=
  modify (λ s, (fst s, assign k (e s) (snd s))).

Definition fcset (k : string) (e : FieldState → jsval) : M FieldState unit :=
  modify (λ s, (set_cfg (assign k (e s)) (fst s), snd s)).

(** [if (_.isUndefined(field.k)) { ... }] *)
Definition unlessDefined {C} (k : string) (m : M (C * obj) unit) : M (C * obj) unit :=
  ifS (λ s, isUndefined (snd s !! k)) m.

Definition primitiveTypes : list string :=
  ["String"; "Integer"; "Long"; "Float"; "Double"; "BigDecimal"; "LocalDate";
   "Instant"; "ZonedDateTime"; "Duration"; "UUID"; "Boolean"; "byte[]";
   "ByteBuffer"].

(** Lines 652-666. *)
Definition fieldInJavaBeanMethod : M FieldState unit :=
  s ← get;
  let fieldName := snd s !! "fieldName" in
  match fieldName with
  | Some (VStr n) =>
    if (1 <? String.length n)%nat then
      let firstLetter := String.substring 0 1 n in
      let secondLetter := String.substring 1 1 n in
      if String.eqb firstLetter (toLowerCase firstLetter)
         && String.eqb secondLetter (toUpperCase secondLetter)
      then fset "fieldInJavaBeanMethod"
             (λ _, str (toLowerCase firstLetter +:+ String.substring 1 (String.length n - 1) n))
      else fset "fieldInJavaBeanMethod" (λ _, str (upperFirst fieldName))
    else fset "fieldInJavaBeanMethod" (λ _, str (upperFirst fieldName))
  | Some (VNum _) | Some (VBool _) =>
    (* [length] is undefined, [undefined > 1] is false *)
    fset "fieldInJavaBeanMethod" (λ _, str (upperFirst fieldName))
  | Some (VArr l) =>
    if (1 <? length l)%nat then raise TypeError   (* no [charAt] *)
    else fset "fieldInJavaBeanMethod" (λ _, str (upperFirst fieldName))
  | Some (VObj m) =>
    if jsGt (m !! "length") 1 then raise TypeError   (* no [charAt] *)
    else fset "fieldInJavaBeanMethod" (λ _, str (upperFirst fieldName))
  | Some VNull | None => raise TypeError
  end.

(** Lines 631-646. *)
Definition fieldNameAsDatabaseColumn : M FieldState unit :=
  s ← get;
  let fieldNameUnderscored := snakeCase (snd s !! "fieldName") in
  let jhiFieldNamePrefix := getColumnName (cfg (fst s) !! "jhiPrefix") in
  reserved ← reservedTableName (str fieldNameUnderscored)
               (cfg (fst s) !! "prodDatabaseType");
  if reserved : bool then
    if negb (truthy jhiFieldNamePrefix) then
      warning ("The field name '" +:+ fieldNameUnderscored
               +:+ "' is regarded as a reserved keyword, but you have defined an empty jhiPrefix. This might lead to a non-working application.");;
      fset "fieldNameAsDatabaseColumn" (λ _, str fieldNameUnderscored)
    else
      fset "fieldNameAsDatabaseColumn"
        (λ _, str (tpl jhiFieldNamePrefix +:+ "_" +:+ fieldNameUnderscored))
  else fset "fieldNameAsDatabaseColumn" (λ _, str fieldNameUnderscored).

(** Lines 688-714. *)
Definition fieldTypeFlags (fieldType : jsval) : M FieldState unit :=
  if isStr fieldType "ZonedDateTime" then
    fcset "fieldsContainZonedDateTime" (λ _, boolean true);;
    fcset "fieldsContainDate" (λ _, boolean true)
  else if isStr fieldType "Instant" then
    fcset "fieldsContainInstant" (λ _, boolean true);;
    fcset "fieldsContainDate" (λ _, boolean true)
  else if isStr fieldType "Duration" then
    fcset "fieldsContainDuration" (λ _, boolean true)
  else if isStr fieldType "LocalDate" then
    fcset "fieldsContainLocalDate" (λ _, boolean true);;
    fcset "fieldsContainDate" (λ _, boolean true)
  else if isStr fieldType "BigDecimal" then
    fcset "fieldsContainBigDecimal" (λ _, boolean true)
  else if isStr fieldType "UUID" then
    fcset "fieldsContainUUID" (λ _, boolean true)
  else if isStr fieldType "byte[]" || isStr fieldType "ByteBuffer" then
    modify (λ s : FieldState, (set_blobFields (blobFields (fst s) ++ [snd s]) (fst s), snd s));;
    fcset "fieldsContainBlob" (λ _, boolean true);;
    ifS (λ s, isStr (snd s !! "fieldTypeBlobContent") "image")
      (fcset "fieldsContainImageBlob" (λ _, boolean true));;
    ifElseS (λ s, negb (isStr (snd s !! "fieldTypeBlobContent") "text"))
      (fcset "fieldsContainBlobOrImage" (λ _, boolean true))
      (fcset "fieldsContainTextBlob" (λ _, boolean true))
  else mret ().

(** Lines 592-621: the migrated type is the callback's [fieldType]. *)
Definition classifyField : M FieldState jsval :=
  (* Migration from JodaTime to Java Time *)
  ifS (λ s, isStr (snd s !! "fieldType") "DateTime" || isStr (snd s !! "fieldType") "Date")
    (fset "fieldType" (λ _, str "Instant"));;
  fieldType ← gets (λ s, snd s !! "fieldType");
  when (negb (oneOf ["Instant"; "ZonedDateTime"; "Boolean"] fieldType))
    (fcset "fieldsIsReactAvField" (λ _, boolean true));;
  fset "fieldIsEnum" (λ _, boolean (negb (oneOf primitiveTypes fieldType)));;
  ifS (λ s, strictEq (snd s !! "fieldIsEnum") (boolean true))
    (modify (λ s : FieldState,
       (set_i18nToLoad (i18nToLoad (fst s) ++ [snd s !! "enumInstance"]) (fst s), snd s)));;
  mret fieldType.

(** Lines 623-684. *)
Definition deriveFieldNames (fieldOptions : string → jsval) : M FieldState unit :=
  unlessDefined "fieldNameCapitalized"
    (fset "fieldNameCapitalized" (λ s, str (upperFirst (snd s !! "fieldName"))));;
  unlessDefined "fieldNameUnderscored"
    (fset "fieldNameUnderscored" (λ s, str (snakeCase (snd s !! "fieldName"))));;
  unlessDefined "fieldNameAsDatabaseColumn" fieldNameAsDatabaseColumn;;
  unlessDefined "fieldNameHumanized"
    (fset "fieldNameHumanized"
       (λ s, orElse (fieldOptions "fieldNameHumanized")
                    (str (startCase (snd s !! "fieldName")))));;
  unlessDefined "fieldInJavaBeanMethod" fieldInJavaBeanMethod;;
  unlessDefined "fieldValidateRulesPatternJava"
    (s ← get;
     v ← escaped (λ p, replaceAll dquote (chr backslash +:+ chr dquote)
                         (replaceAll backslash (chr backslash +:+ chr backslash) p))
           (snd s !! "fieldValidateRulesPattern");
     fset "fieldValidateRulesPatternJava" (λ _, v));;
  unlessDefined "fieldValidateRulesPatternAngular"
    (s ← get;
     v ← escaped (replaceAll dquote "&#34;") (snd s !! "fieldValidateRulesPattern");
     fset "fieldValidateRulesPatternAngular" (λ _, v));;
  unlessDefined "fieldValidateRulesPatternReact"
    (s ← get;
     v ← escaped (replaceAll squote (chr backslash +:+ chr squote))
           (snd s !! "fieldValidateRulesPattern");
     fset "fieldValidateRulesPatternReact" (λ _, v)).

(** Line 686. *)
Definition hasRules (rules : jsval) : bool :=
  match rules with
  | Some (VArr rules) => (1 <=? length rules)%nat
  | _ => false
  end.

(** The callback of [context.fields.forEach] (lines 590-719). *)
Definition loadField : M FieldState unit :=
  field0 ← gets snd;
  let fieldOptions := sub field0 "options" in
  fieldType ← classifyField;
  deriveFieldNames fieldOptions;;
  fset "fieldValidate" (λ s, boolean (hasRules (snd s !! "fieldValidateRules")));;
  fieldTypeFlags fieldType;;
  ifS (λ s, truthy (snd s !! "fieldValidate"))
    (fcset "validation" (λ _, boolean true)).

(** [v.k] for a value that is not [null] or [undefined]: a JSON value other
    than an object has none of the properties this program reads. *)
Definition prop (v : jsval) (k : string) : jsval :=
  match v with
  | Some (VObj m) => m !! k
  | _ => None
  end.

(** [_getEntityJson] (lines 1164-1180): [null] when reading throws. *)
Definition _getEntityJson (context : Context) (file : jsval) : jsval :=
  let filename := pathJoin JHIPSTER_CONFIG_DIR (upperFirst file +:+ ".json") in
  let microservicePath := cfg context !! "microservicePath" in
  if truthy microservicePath then
    match microservicePath with
    | Some (VStr dir) =>
      match readJSON (pathJoin dir filename) with
      | Some v => v
      | None => Some VNull
      end
    | _ => Some VNull                 (* path.join throws, caught *)
    end
  else
    match readJSON filename with
    | Some v => v
    | None => Some VNull
    end.


Definition rctx (s : RelState) : Context := fst (fst s).
Definition rel (s : RelState) : obj := snd s.

Definition rcset (k : string) (e : RelState → jsval) : M RelState unit :=
  modify (λ s, ((set_cfg (assign k (e s)) (rctx s), snd (fst s)), snd s)).

(** [a || b] where evaluating [b] may throw. *)
Definition orElseM {S} (a : jsval) (b : M S jsval) : M S jsval :=
  if truthy a then mret a else b.

(** The callback of [otherEntityData.relationships.forEach] (lines 744-777). *)
Definition reciprocal (entityName : string) (otherEntityName : jsval)
    (otherRelationship : val) : M RelState unit :=
  match otherRelationship with
  | VNull => raise TypeError
  | _ =>
    let other := prop (Some otherRelationship) in
    if negb (String.eqb (upperFirst (other "otherEntityName")) entityName) then mret ()
    else if negb (truthy (other "otherEntityRelationshipName")) then
      (* otherEntityRelationshipName can be missing *)
      warning ("Cannot compare relationship reference: otherEntityRelationshipName is missing in .jhipster/"
               +:+ tpl otherEntityName +:+ ".json for relationship "
               +:+ stringify otherRelationship)
    else
      ifS (λ s, strictEq (other "otherEntityRelationshipName") (rel s !! "relationshipName"))
        (ifS (λ s, (isStr (rel s !! "relationshipType") "many-to-one"
                    && isStr (other "relationshipType") "one-to-many")
                   || (isStr (rel s !! "relationshipType") "many-to-many"
                       && isStr (other "relationshipType") "many-to-many"))
           (fset "otherEntityRelationshipName"
              (λ s, orElse (rel s !! "otherEntityRelationshipName") (other "relationshipName"));;
            s ← get;
            plural ← orElseM (rel s !! "otherEntityRelationshipNamePlural")
                       (pluralizeV (other "relationshipName"));
            fset "otherEntityRelationshipNamePlural" (λ _, plural);;
            fset "otherEntityRelationshipNameCapitalized"
              (λ s, orElse (rel s !! "otherEntityRelationshipNameCapitalized")
                           (str (upperFirst (other "relationshipName"))));;
            s ← get;
            capitalizedPlural ← pluralizeV (rel s !! "otherEntityRelationshipNameCapitalized");
            (* x = x = pluralize(...): the value is assigned twice *)
            fset "otherEntityRelationshipNameCapitalizedPlural" (λ _, capitalizedPlural);;
            fset "otherEntityRelationshipNameCapitalizedPlural" (λ _, capitalizedPlural)))
  end.

(** Look for fields at the other side of the relationship (lines 741-779). *)
Definition reciprocalNames (entityName : string) (otherEntityName otherEntityData : jsval)
  : M RelState unit :=
  when (truthy otherEntityData && truthy (prop otherEntityData "relationships"))
    (ifS (λ s, isStr (rel s !! "relationshipType") "many-to-one"
               || isStr (rel s !! "relationshipType") "many-to-many")
       match prop otherEntityData "relationships" with
       | Some (VArr others) => forM_ others (reciprocal entityName otherEntityName)
       | _ => raise TypeError            (* no [forEach] *)
       end).

(** Lines 781-795. *)
Definition otherEntityRelationshipNames : M RelState unit :=
  ifS (λ s, negb (isUndefined (rel s !! "otherEntityRelationshipName")))
    (unlessDefined "otherEntityRelationshipNamePlural"
       (s ← get;
        v ← pluralizeV (rel s !! "otherEntityRelationshipName");
        fset "otherEntityRelationshipNamePlural" (λ _, v));;
     unlessDefined "otherEntityRelationshipNameCapitalized"
       (fset "otherEntityRelationshipNameCapitalized"
          (λ s, str (upperFirst (rel s !! "otherEntityRelationshipName"))));;
     unlessDefined "otherEntityRelationshipNameCapitalizedPlural"
       (fset "otherEntityRelationshipNameCapitalizedPlural"
          (λ s, str (pluralize (upperFirst (rel s !! "otherEntityRelationshipName")))))).

(** [relationship.relationshipName.length > 1] (line 802). *)
Definition longerThanOne {S} (v : jsval) : M S bool :=
  match v with
  | Some (VStr n) => mret (1 <? String.length n)%nat
  | Some (VArr l) => mret (1 <? length l)%nat
  | Some (VObj m) => mret (jsGt (m !! "length") 1)
  | Some (VNum _) | Some (VBool _) => mret false
  | Some VNull | None => raise TypeError
  end.

(** Lines 797-824. *)
Definition relationshipNames (relationshipOptions : string → jsval) : M RelState unit :=
  unlessDefined "relationshipNameCapitalized"
    (fset "relationshipNameCapitalized"
       (λ s, str (upperFirst (rel s !! "relationshipName"))));;
  unlessDefined "relationshipNameCapitalizedPlural"
    (s ← get;
     long ← longerThanOne (rel s !! "relationshipName");
     if long : bool then
       fset "relationshipNameCapitalizedPlural"
         (λ s, str (pluralize (upperFirst (rel s !! "relationshipName"))))
     else
       v ← pluralizeV (rel s !! "relationshipName");
       fset "relationshipNameCapitalizedPlural" (λ _, str (upperFirst v)));;
  unlessDefined "relationshipNameHumanized"
    (fset "relationshipNameHumanized"
       (λ s, orElse (relationshipOptions "relationshipNameHumanized")
                    (str (startCase (rel s !! "relationshipName")))));;
  unlessDefined "relationshipNamePlural"
    (s ← get;
     v ← pluralizeV (rel s !! "relationshipName");
     fset "relationshipNamePlural" (λ _, v));;
  unlessDefined "relationshipFieldName"
    (fset "relationshipFieldName"
       (λ s, str (lowerFirst (rel s !! "relationshipName"))));;
  unlessDefined "relationshipFieldNamePlural"
    (fset "relationshipFieldNamePlural"
       (λ s, str (pluralize (lowerFirst (rel s !! "relationshipName"))))).

(** Lines 826-836. *)
Definition dtoCheck (otherEntityName otherEntityData : jsval) : M RelState unit :=
  ifS (λ s, truthy (cfg (rctx s) !! "dto") && isStr (cfg (rctx s) !! "dto") "mapstruct")
    (when (truthy otherEntityData
           && (negb (truthy (prop otherEntityData "dto"))
               || negb (isStr (prop otherEntityData "dto") "mapstruct"))
           && negb (isStr otherEntityName "user"))
       (warning ("This entity has the DTO option, and it has a relationship with entity "
                 +:+ chr dquote +:+ tpl otherEntityName +:+ chr dquote
                 +:+ " that doesn't have the DTO option. This will result in an error."))).

(** Lines 838-850. *)
Definition otherEntityTableName (jhiTablePrefix otherEntityName otherEntityData : jsval)
  : M RelState unit :=
  if isStr otherEntityName "user" then
    fset "otherEntityTableName" (λ _, str (tpl jhiTablePrefix +:+ "_user"));;
    modify (λ s : RelState, ((rctx s, true), snd s))              (* hasUserField = true *)
  else
    fset "otherEntityTableName"
      (λ _, if truthy otherEntityData then prop otherEntityData "entityTableName"
            else Some VNull);;
    ifS (λ s, negb (truthy (rel s !! "otherEntityTableName")))
      (fset "otherEntityTableName" (λ _, getTableName otherEntityName));;
    s ← get;
    reserved ← reservedTableName (rel s !! "otherEntityTableName")
                 (cfg (rctx s) !! "prodDatabaseType");
    when (reserved && truthy jhiTablePrefix)
      (fset "otherEntityTableName"
         (λ s, str (tpl jhiTablePrefix +:+ "_" +:+ tpl (rel s !! "otherEntityTableName")))).

(** Lines 852-880. *)
Definition otherEntityNames (otherEntityData : jsval) : M RelState unit :=
  unlessDefined "otherEntityNamePlural"
    (s ← get;
     v ← pluralizeV (rel s !! "otherEntityName");
     fset "otherEntityNamePlural" (λ _, v));;
  unlessDefined "otherEntityNameCapitalized"
    (fset "otherEntityNameCapitalized"
       (λ s, str (upperFirst (rel s !! "otherEntityName"))));;
  unlessDefined "otherEntityAngularName"
    (ifElseS (λ s, negb (isStr (rel s !! "otherEntityNameCapitalized") "User"))
       (let otherEntityAngularSuffix :=
          if truthy otherEntityData
          then orElse (prop otherEntityData "angularJSSuffix") (str "")
          else str "" in
        fset "otherEntityAngularName"
          (λ s, str (upperFirst (rel s !! "otherEntityName")
                     +:+ upperFirstCamelCase otherEntityAngularSuffix)))
       (fset "otherEntityAngularName" (λ _, str "User")));;
  unlessDefined "otherEntityNameCapitalizedPlural"
    (fset "otherEntityNameCapitalizedPlural"
       (λ s, str (pluralize (upperFirst (rel s !! "otherEntityName")))));;
  unlessDefined "otherEntityFieldCapitalized"
    (fset "otherEntityFieldCapitalized"
       (λ s, str (upperFirst (rel s !! "otherEntityField"))));;
  unlessDefined "otherEntityStateName"
    (fset "otherEntityStateName"
       (λ s, str (kebabCase (rel s !! "otherEntityAngularName")))).

(** [`${context.entityParentPathAddition ? `${...}/` : ''}`] *)
Definition parentPath (context : Context) : string :=
  if truthy (cfg context !! "entityParentPathAddition")
  then tpl (cfg context !! "entityParentPathAddition") +:+ "/"
  else "".

(** Lines 881-921. *)
Definition otherEntityModule (otherEntityData : jsval) : M RelState unit :=
  unlessDefined "otherEntityModuleName"
    (ifElseS (λ s, negb (isStr (rel s !! "otherEntityNameCapitalized") "User"))
       (fset "otherEntityModuleName"
          (λ s, str (plus (cfg (rctx s) !! "angularXAppName")
                          (rel s !! "otherEntityNameCapitalized") +:+ "Module"));;
        fset "otherEntityFileName"
          (λ s, str (kebabCase (rel s !! "otherEntityAngularName")));;
        unlessDefined "otherEntityFolderName"
          (fset "otherEntityFolderName"
             (λ s, str (kebabCase (rel s !! "otherEntityAngularName"))));;
        s ← get;
        (if truthy (cfg (rctx s) !! "skipUiGrouping") then
           fset "otherEntityClientRootFolder" (λ _, str "")
         else
           match otherEntityData with
           | None => fset "otherEntityClientRootFolder" (λ _, str "")
           | Some VNull => raise TypeError
           | _ =>
             if isStr (prop otherEntityData "clientRootFolder") ""
                || isUndefined (prop otherEntityData "clientRootFolder")
             then fset "otherEntityClientRootFolder" (λ _, str "")
             else fset "otherEntityClientRootFolder"
                    (λ _, str (tpl (prop otherEntityData "clientRootFolder") +:+ "/"))
           end);;
        match otherEntityData with
        | Some VNull => raise TypeError
        | _ =>
          if negb (isUndefined otherEntityData)
             && truthy (prop otherEntityData "clientRootFolder")
          then
            let clientRootFolder := tpl (prop otherEntityData "clientRootFolder") in
            ifElseS (λ s, strictEq (cfg (rctx s) !! "clientRootFolder")
                            (prop otherEntityData "clientRootFolder"))
              (fset "otherEntityModulePath" (λ s, rel s !! "otherEntityFolderName"))
              (fset "otherEntityModulePath"
                 (λ s, str (parentPath (rctx s) +:+ clientRootFolder +:+ "/"
                            +:+ tpl (rel s !! "otherEntityFolderName"))));;
            fset "otherEntityModelName"
              (λ s, str (clientRootFolder +:+ "/" +:+ tpl (rel s !! "otherEntityFileName")));;
            fset "otherEntityPath"
              (λ s, str (clientRootFolder +:+ "/" +:+ tpl (rel s !! "otherEntityFolderName")))
          else
            fset "otherEntityModulePath"
              (λ s, str (parentPath (rctx s) +:+ tpl (rel s !! "otherEntityFolderName")));;
            fset "otherEntityModelName" (λ s, rel s !! "otherEntityFileName");;
            fset "otherEntityPath" (λ s, rel s !! "otherEntityFolderName")
        end)
       (fset "otherEntityModuleName"
          (λ s, str (tpl (cfg (rctx s) !! "angularXAppName") +:+ "SharedModule"));;
        fset "otherEntityModulePath" (λ _, str "app/core"))).

(** [_copyFilteringFlag(otherEntityData, relationship,
      { ...otherEntityData, databaseType: context.databaseType })]
    (lines 922-924, 1226-1232). *)
Definition copyFilteringFlag (otherEntityData : jsval) : M RelState unit :=
  when (truthy otherEntityData)
    (ifElseS (λ s, isStr (cfg (rctx s) !! "databaseType") "sql"
                   && negb (isStr (prop otherEntityData "service") "no"))
       (fset "jpaMetamodelFiltering" (λ _, prop otherEntityData "jpaMetamodelFiltering"))
       (fset "jpaMetamodelFiltering" (λ _, boolean false))).

(** Load in-memory data for root (lines 926-939). *)
Definition relationshipFlags : M RelState unit :=
  s ← get;
  let relationshipType := rel s !! "relationshipType" in
  let ownerSide := truthy (rel s !! "ownerSide") in
  (if isStr relationshipType "many-to-many" && ownerSide then
     rcset "fieldsContainOwnerManyToMany" (λ _, boolean true)
   else if isStr relationshipType "one-to-one" && negb ownerSide then
     rcset "fieldsContainNoOwnerOneToOne" (λ _, boolean true)
   else if isStr relationshipType "one-to-one" && ownerSide then
     rcset "fieldsContainOwnerOneToOne" (λ _, boolean true)
   else if isStr relationshipType "one-to-many" then
     rcset "fieldsContainOneToMany" (λ _, boolean true)
   else if isStr relationshipType "many-to-one" then
     rcset "fieldsContainManyToOne" (λ _, boolean true)
   else mret ());;
  ifS (λ s, truthy (rel s !! "otherEntityIsEmbedded"))
    (rcset "fieldsContainEmbedded" (λ _, boolean true)).

(** [needle] occurs in [s]: [String.prototype.includes]. *)
Fixpoint occursIn (needle s : string) : bool :=
  String.prefix needle s
  || match s with
     | EmptyString => false
     | String _ rest => occursIn needle rest
     end.

(** [relationship.relationshipValidateRules &&
     relationship.relationshipValidateRules.includes('required')],
    on a string or an array (line 941). *)
Definition rulesIncludeRequired {S} (rules : jsval) : M S bool :=
  if truthy rules then
    match rules with
    | Some (VStr r) => mret (occursIn "required" r)
    | Some (VArr l) => mret (includes (Some <$> l) (str "required"))
    | _ => raise TypeError
    end
  else mret false.

(** Lines 941-947. *)
Definition requiredRelationship (entityName : string) : M RelState unit :=
  s ← get;
  required ← rulesIncludeRequired (rel s !! "relationshipValidateRules");
  when required
    match rel s !! "otherEntityName" with
    | Some (VStr other) =>
      if String.eqb (toLowerCase entityName) (toLowerCase other) then
        warning "Required relationships to the same entity are not supported."
      else
        rcset "validation" (λ _, boolean true);;
        fset "relationshipRequired" (λ _, boolean true);;
        fset "relationshipValidate" (λ _, boolean true)
    | _ => raise TypeError               (* no [toLowerCase] *)
    end.

(** The property names every object inherits from [Object.prototype]; none
    of them is an array. *)
Definition inheritedProperties : list string :=
  ["constructor"; "__defineGetter__"; "__defineSetter__"; "hasOwnProperty";
   "__lookupGetter__"; "__lookupSetter__"; "isPrototypeOf";
   "propertyIsEnumerable"; "toString"; "valueOf"; "__proto__";
   "toLocaleString"].

(** Lines 949-956. *)
Definition registerType : M RelState unit :=
  s ← get;
  let entityType := rel s !! "otherEntityNameCapitalized" in
  let key := tpl entityType in
  when (negb (includes (differentTypes (rctx s)) entityType))
    (modify (λ s : RelState,
       ((set_differentTypes (differentTypes (rctx s) ++ [entityType]) (rctx s),
         snd (fst s)), snd s)));;
  (if bool_decide (key ∈ inheritedProperties) then raise TypeError   (* no [push] *)
   else
     modify (λ s : RelState,
       let known := default [] (differentRelationships (rctx s) !! key) in
       ((set_differentRelationships
           (<[key := known ++ [rel s]]> (differentRelationships (rctx s))) (rctx s),
         snd (fst s)), snd s))).

(** The callback of [context.relationships.forEach] (lines 722-957). *)
Definition loadRelationship : M RelState unit :=
  s0 ← get;
  let context := rctx s0 in
  let entityName := name context in
  let relationshipOptions := sub (rel s0) "options" in
  let otherEntityName := rel s0 !! "otherEntityName" in
  let otherEntityData :=
    let data := _getEntityJson context otherEntityName in
    match data with
    | Some (VObj m) =>
      if truthy (m !! "microserviceName") && negb (truthy (m !! "clientRootFolder"))
      then Some (VObj (assign "clientRootFolder" (m !! "microserviceName") m))
      else data
    | _ => data
    end in
  when (truthy otherEntityData && truthy (prop otherEntityData "embedded"))
    (fset "otherEntityIsEmbedded" (λ _, boolean true));;
  let jhiTablePrefix := cfg context !! "jhiTablePrefix" in
  fset "otherEntityPrimaryKeyType"
    (λ s, if isStr (rel s !! "otherEntityName") "user"
             && isStr (cfg (rctx s) !! "authenticationType") "oauth2"
          then str "String"
          else getPkType (cfg (rctx s) !! "databaseType"));;
  reciprocalNames entityName otherEntityName otherEntityData;;
  otherEntityRelationshipNames;;
  relationshipNames relationshipOptions;;
  dtoCheck otherEntityName otherEntityData;;
  otherEntityTableName jhiTablePrefix otherEntityName otherEntityData;;
  otherEntityNames otherEntityData;;
  otherEntityModule otherEntityData;;
  copyFilteringFlag otherEntityData;;
  relationshipFlags;;
  requiredRelationship entityName;;
  registerType.

(** [context.relationships.forEach(...)] around the local [hasUserField],
    which starts [false]; its final value is returned. *)
Definition loadRelationships : M Context bool :=
  λ c, let o := forEach loadRelationship (relationships c) (c, false) in
       mkOut (set_relationships (snd (st o)) (fst (fst (st o)))) (log o)
             match res o with
             | inl e => inl e
             | inr _ => inr (snd (fst (st o)))
             end.

(** Lines 524-587: names of the entity and the initial aggregates.
    [fileData] is [this.data || this.context.fileData || {}]. *)
Definition loadEntityNames (fileData : obj) : M Context unit :=
  context ← get;
  let entityName := name context in
  let entityNamePluralizedAndSpinalCased := kebabCase (str (pluralize entityName)) in
  cset "entityClass" (λ c, cfg c !! "entityNameCapitalized");;
  c ← get;
  entityClassPlural ← pluralizeV (cfg c !! "entityClass");
  cset "entityClassPlural" (λ _, entityClassPlural);;
  cset "entityClassHumanized"
    (λ c, orElse (fileData !! "entityClassHumanized")
                 (str (startCase (cfg c !! "entityNameCapitalized"))));;
  cset "entityClassPluralHumanized"
    (λ c, orElse (fileData !! "entityClassPluralHumanized")
                 (str (startCase (cfg c !! "entityClassPlural"))));;
  cset "entityI18nVariant" (λ _, orElse (fileData !! "entityI18nVariant") (str "default"));;
  cset "entityInstance" (λ _, str (lowerFirst (str entityName)));;
  cset "entityInstancePlural" (λ _, str (pluralize (lowerFirst (str entityName))));;
  cset "entityApiUrl" (λ _, str entityNamePluralizedAndSpinalCased);;
  cset "entityFileName"
    (λ c, str (kebabCase (str (tpl (cfg c !! "entityNameCapitalized")
                               +:+ upperFirst (cfg c !! "entityAngularJSSuffix")))));;
  cset "entityFolderName"
    (λ c, getEntityFolderName (cfg c !! "clientRootFolder") (cfg c !! "entityFileName"));;
  cset "entityModelFileName" (λ c, cfg c !! "entityFolderName");;
  cset "entityParentPathAddition"
    (λ c, getEntityParentPathAddition (cfg c !! "clientRootFolder"));;
  cset "entityPluralFileName"
    (λ c, str (plus (str entityNamePluralizedAndSpinalCased)
                    (cfg c !! "entityAngularJSSuffix")));;
  cset "entityServiceFileName" (λ c, cfg c !! "entityFileName");;
  cset "entityAngularName"
    (λ c, str (tpl (cfg c !! "entityClass")
               +:+ upperFirstCamelCase (cfg c !! "entityAngularJSSuffix")));;
  cset "entityReactName"
    (λ c, str (tpl (cfg c !! "entityClass")
               +:+ upperFirstCamelCase (cfg c !! "entityAngularJSSuffix")));;
  cset "entityStateName" (λ c, str (kebabCase (cfg c !! "entityAngularName")));;
  cset "entityUrl" (λ c, cfg c !! "entityStateName");;
  cset "entityTranslationKey"
    (λ c, if truthy (cfg c !! "clientRootFolder")
          then str (camelCase (str (tpl (cfg c !! "clientRootFolder") +:+ "-"
                                    +:+ tpl (cfg c !! "entityInstance"))))
          else cfg c !! "entityInstance");;
  cset "entityTranslationKeyMenu"
    (λ c, str (camelCase
                 (if truthy (cfg c !! "clientRootFolder")
                  then str (tpl (cfg c !! "clientRootFolder") +:+ "-"
                            +:+ tpl (cfg c !! "entityStateName"))
                  else cfg c !! "entityStateName")));;
  cset "jhiTablePrefix" (λ c, getTableName (cfg c !! "jhiPrefix"));;
  cset "reactiveRepositories"
    (λ c, if truthy (cfg c !! "reactive")
          then boolean (oneOf ["mongodb"; "cassandra"; "couchbase"; "neo4j"]
                              (cfg c !! "databaseType"))
          else cfg c !! "reactive");;
  forM_ ["fieldsContainDate"; "fieldsContainInstant"; "fieldsContainUUID";
         "fieldsContainZonedDateTime"; "fieldsContainDuration";
         "fieldsContainLocalDate"; "fieldsContainBigDecimal"; "fieldsContainBlob";
         "fieldsContainImageBlob"; "fieldsContainTextBlob";
         "fieldsContainBlobOrImage"; "validation"; "fieldsContainOwnerManyToMany";
         "fieldsContainNoOwnerOneToOne"; "fieldsContainOwnerOneToOne";
         "fieldsContainOneToMany"; "fieldsContainManyToOne";
         "fieldsContainEmbedded"; "fieldsIsReactAvField"]
    (λ flag, cset flag (λ _, boolean false));;
  modify (set_blobFields []);;
  modify (λ c, set_differentTypes [cfg c !! "entityClass"] c);;
  (* [context.relationships] is an array here: [validateFile] has iterated it *)
  modify (set_differentRelationships ∅);;
  modify (λ c, set_i18nToLoad [cfg c !! "entityInstance"] c);;
  cset "i18nKeyPrefix"
    (λ c, str (tpl (cfg c !! "angularAppName") +:+ "."
               +:+ tpl (cfg c !! "entityTranslationKey"))).

Definition loadInMemoryData (fileData : obj) : M Context unit :=
  loadEntityNames fileData;;
  (* Load in-memory data for fields *)
  forEachOf fields set_fields loadField;;
  (* Load in-memory data for relationships *)
  hasUserField ← loadRelationships;
  cset "saveUserSnapshot"
    (λ c, boolean (isStr (cfg c !! "applicationType") "microservice"
                   && isStr (cfg c !! "authenticationType") "oauth2"
                   && hasUserField
                   && isStr (cfg c !! "dto") "no"));;
  cset "primaryKeyType"
    (λ c, getPkTypeBasedOnDBAndAssociation (cfg c !! "authenticationType")
            (cfg c !! "databaseType") (relationships c));;
  (* Deprecated: kept for compatibility *)
  cset "pkType" (λ c, cfg c !! "primaryKeyType");;
  cset "hasUserField" (λ _, boolean hasUserField).

(** [writeEntityJson] (lines 470-521), as far as the context goes: unless
    the entity is regenerated, a missing [changelogDate] is set.  The
    document it stores becomes [this.data], the [fileData] that
    [loadInMemoryData] reads. *)
Definition writeEntityJson : M Context unit :=
  ifS (λ context, negb (truthy (cfg context !! "configurationFileExists")
                        && isStr (cfg context !! "updateEntity") "regenerate"))
    (ifS (λ context, isUndefined (cfg context !! "changelogDate")
                     && oneOf ["sql"; "cassandra"; "couchbase"]
                              (cfg context !! "databaseType"))
       (cset "changelogDate" (λ _, str dateFormatForLiquibase))).

(** The [configuring] phase: [validateFile], [writeEntityJson], then
    [loadInMemoryData]. *)
Definition configuring (fileData : obj) : M Context unit :=
  validateFile;;
  writeEntityJson;;
  loadInMemoryData fileData.

(** ** [_validateTableName] (lines 1126-1158) *)

Inductive verdict :=
| Valid                      (* [return true] *)
| Invalid (msg : string).    (* [return 'message'] *)

Definition wordChar (c : Ascii.ascii) : bool :=
  let n := Ascii.nat_of_ascii c in
  ((48 <=? n) && (n <=? 57) || (65 <=? n) && (n <=? 90)
   || (97 <=? n) && (n <=? 122) || (n =? 95))%nat.

(** The test of line 1133: every character is a letter, a digit or an
    underscore. *)
Definition onlyWordChars (s : string) : bool :=
  forallb wordChar (String.list_ascii_of_string s).

(** [entityTableName.length > n] *)
Definition longerThan {S} (n : nat) (v : jsval) : M S bool :=
  match v with
  | Some (VStr t) => mret (n <? String.length t)%nat
  | Some (VArr l) => mret (n <? length l)%nat
  | Some (VObj m) => mret (jsGt (m !! "length") (Z.of_nat n))
  | Some (VNum _) | Some (VBool _) => mret false
  | Some VNull | None => raise TypeError
  end.

(** [entityTableName.toUpperCase()] *)
Definition upperCased {S} (v : jsval) : M S string :=
  match v with
  | Some (VStr t) => mret (toUpperCase t)
  | _ => raise TypeError
  end.

Definition _validateTableName (entityTableName : jsval) : M Context verdict :=
  context ← get;
  let prodDatabaseType := cfg context !! "prodDatabaseType" in
  let jhiTablePrefix := cfg context !! "jhiTablePrefix" in
  let skipCheckLengthOfIdentifier := cfg context !! "skipCheckLengthOfIdentifier" in
  let instructions :=
    "You can specify a different table name in your JDL file or change it in .jhipster/"
    +:+ name context +:+ ".json file and then run again 'jhipster entity "
    +:+ name context +:+ ".'" in
  if negb (onlyWordChars (tpl entityTableName)) then
    mret (Invalid ("The table name cannot contain special characters." +:+ newline
                   +:+ instructions))
  else if isStr entityTableName "" then
    mret (Invalid "The table name cannot be empty")
  else
  reserved ← reservedTableName entityTableName prodDatabaseType;
  if reserved : bool then
    (if truthy jhiTablePrefix then
       upper ← upperCased entityTableName;
       warning ("The table name cannot contain the '" +:+ upper
                +:+ "' reserved keyword, so it will be prefixed with '"
                +:+ tpl jhiTablePrefix +:+ "_'." +:+ newline +:+ instructions);;
       cset "entityTableName"
         (λ _, str (tpl jhiTablePrefix +:+ "_" +:+ tpl entityTableName))
     else
       upper ← upperCased entityTableName;
       warning ("The table name contain the '" +:+ upper
                +:+ "' reserved keyword but you have defined an empty jhiPrefix so it won't be prefixed and thus the generated application might not work'."
                +:+ newline +:+ instructions));;
    mret Valid
  else
    long26 ← (if isStr prodDatabaseType "oracle" then longerThan 26 entityTableName
              else mret false);
    if long26 && negb (truthy skipCheckLengthOfIdentifier) then
      mret (Invalid ("The table name is too long for Oracle, try a shorter name."
                     +:+ newline +:+ instructions))
    else
      long14 ← (if isStr prodDatabaseType "oracle" then longerThan 14 entityTableName
                else mret false);
      when (long14 && negb (truthy skipCheckLengthOfIdentifier))
        (warning ("The table name is long for Oracle, long table names can cause issues when used to create constraint names and join table names."
                  +:+ newline +:+ instructions));;
      mret Valid.

(** [validateTableName] of the [initializing] phase (lines 272-277). *)
Definition validateTableName : M Context unit :=
  context ← get;
  validation ← _validateTableName (cfg context !! "entityTableName");
  match validation with
  | Valid => mret ()
  | Invalid msg => raise (SchemaError msg)
  end.

End Generator.

(** ** A library to run the model on

    A stand-in for the imports, enough to evaluate the phase on documents
    with ASCII names: first-letter case conversion as lodash does it,
    words split at capital letters, regular plurals, the rule names of the
    generator's constants, a reserved-keyword test that knows the one word
    GROUP and throws unless the database type is a string, and a
    configuration directory given as a map from paths to documents. *)

Module Sample.

Definition isUpper (c : Ascii.ascii) : bool :=
  let n := Ascii.nat_of_ascii c in ((65 <=? n) && (n <=? 90))%nat.

Definition isLower (c : Ascii.ascii) : bool :=
  let n := Ascii.nat_of_ascii c in ((97 <=? n) && (n <=? 122))%nat.

Definition upperChar (c : Ascii.ascii) : Ascii.ascii :=
  if isLower c then Ascii.ascii_of_nat (Ascii.nat_of_ascii c - 32) else c.

Definition lowerChar (c : Ascii.ascii) : Ascii.ascii :=
  if isUpper c then Ascii.ascii_of_nat (Ascii.nat_of_ascii c + 32) else c.

Fixpoint mapChars (f : Ascii.ascii → Ascii.ascii) (s : string) : string :=
  match s with
  | EmptyString => EmptyString
  | String c rest => String (f c) (mapChars f rest)
  end.

Definition mapFirst (f : Ascii.ascii → Ascii.ascii) (s : string) : string :=
  match s with
  | EmptyString => EmptyString
  | String c rest => String (f c) rest
  end.

(** lodash's [toString]: [null] and [undefined] give the empty string. *)
Definition text (v : jsval) : string :=
  match v with
  | Some (VStr s) => s
  | Some (VNum n) => pretty n
  | Some (VBool true) => "true"
  | Some (VBool false) => "false"
  | Some (VArr _) | Some (VObj _) => "[object Object]"
  | Some VNull | None => ""
  end.

(** Words separated by [sep], a new word at each capital letter. *)
Fixpoint words (sep : string) (f : Ascii.ascii → Ascii.ascii) (first : bool)
    (s : string) : string :=
  match s with
  | EmptyString => EmptyString
  | String c rest =>
    (if isUpper c && negb first then sep else "")
    +:+ String (f c) (words sep f false rest)
  end.

Definition keys (v : val) : string :=
  match v with
  | VObj m =>
    "{" +:+ String.concat "," ((λ kv, kv.1 +:+ ":" +:+ text (Some kv.2)) <$> map_to_list m) +:+ "}"
  | _ => text (Some v)
  end.

Definition pkType (db : jsval) : jsval :=
  if oneOf ["mongodb"; "neo4j"; "couchbase"] db then str "String"
  else if isStr db "cassandra" then str "UUID"
  else str "Long".

Definition lib (files : gmap string obj) : Lib := {|
  upperFirst v := mapFirst upperChar (text v);
  lowerFirst v := mapFirst lowerChar (text v);
  snakeCase v := words "_" lowerChar true (text v);
  kebabCase v := words "-" lowerChar true (text v);
  camelCase v := mapFirst lowerChar (text v);
  startCase v := mapFirst upperChar (words " " id true (text v));
  pluralize s := s +:+ "s";
  stringify := keys;
  jsString v := text (Some v);
  jsGt v n := match v with Some (VNum k) => (n <? k)%Z | _ => false end;
  jsPlus a b := match a, b with
                | Some (VNum x), Some (VNum y) => pretty (x + y)%Z
                | _, _ => "NaN"
                end;
  toLowerCase := mapChars lowerChar;
  toUpperCase := mapChars upperChar;
  pathJoin dir file := dir +:+ "/" +:+ file;
  readJSON path := Some (VObj <$> files !! path);
  SUPPORTED_VALIDATION_RULES :=
    ["required"; "unique"; "max"; "min"; "maxlength"; "minlength"; "maxbytes";
     "minbytes"; "pattern"];
  JHIPSTER_CONFIG_DIR := ".jhipster";
  isReservedTableName v db :=
    match db with
    | Some (VStr _) => Some (String.eqb (mapChars upperChar (text v)) "GROUP")
    | _ => None
    end;
  getTableName v := str (words "_" lowerChar true (text v));
  getColumnName v := str (words "_" lowerChar true (text v));
  getPkType := pkType;
  getPkTypeBasedOnDBAndAssociation _ db _ := pkType db;
  upperFirstCamelCase v := mapFirst upperChar (text v);
  getEntityFolderName root file :=
    if isStr root "" || isUndefined root then file
    else str (text root +:+ "/" +:+ text file);
  getEntityParentPathAddition _ := str "";
  dateFormatForLiquibase := "20200101000000"
|}.

(** A context as the constructor and the [initializing] phase leave it:
    the entity's name, and the configuration of the application and the
    options of the command in [options]. *)
Definition context (entityName : string) (options : obj)
    (fields relationships : list obj) : Context :=
  mkContext entityName
    (<["entityNameCapitalized" := VStr (mapFirst upperChar entityName)]> options)
    fields relationships [] ∅ [] [].

End Sample.

(** ** Notions the statements use *)

(** An observation of the state that a computation leaves as it found it,
    on every path, a throw included. *)
Definition stable {S A X} (obs : S → X) (m : M S A) : Prop :=
  ∀ s, obs (st (m s)) = obs s.

(** What holds of the result and the final state when a computation
    returns. *)
Definition wp {S A} (m : M S A) (Q : A → S → Prop) (s : S) : Prop :=
  match res (m s) with
  | inr a => Q a (st (m s))
  | inl _ => True
  end.

(** A computation returns, with a result and a final state that satisfy [Q]. *)
Definition returns {S A} (m : M S A) (Q : A → S → Prop) (s : S) : Prop :=
  ∃ a, res (m s) = inr a ∧ Q a (st (m s)).

(** The type the field callback works with: the legacy temporal types
    rewritten (lines 593-596). *)
Definition migrated (fieldType : jsval) : jsval :=
  if isStr fieldType "DateTime" || isStr fieldType "Date" then str "Instant"
  else fieldType.

(** A message names [what]: the text occurs in it. *)
Definition mentions (msg what : string) : Prop :=
  ∃ before after, msg = before +:+ what +:+ after.

(** The rules of lines 338-368 and the parameter each one needs. *)
Definition companions : list (string * string) :=
  [("max", "fieldValidateRulesMax"); ("min", "fieldValidateRulesMin");
   ("maxlength", "fieldValidateRulesMaxlength");
   ("minlength", "fieldValidateRulesMinlength");
   ("maxbytes", "fieldValidateRulesMaxbytes");
   ("minbytes", "fieldValidateRulesMinbytes");
   ("pattern", "fieldValidateRulesPattern")].

(** The first occurrence of each value of a list, in the order of the
    list: the reading of a deduplicated, insertion-ordered list of types. *)
Fixpoint firstOccurrences (l : list jsval) : list jsval :=
  match l with
  | [] => []
  | x :: rest => x :: filter (λ y, negb (strictEq y x) = true) (firstOccurrences rest)
  end.

(** The relationships whose type is filed under [key], in the order of the
    list: the reading of a per-type mapping that preserves insertion order. *)
Definition targeting (key : string) `{Lib} (rels : list obj) : list obj :=
  filter (λ r, tpl (r !! "otherEntityNameCapitalized") = key) rels.

(** A check of [validateFile] on an element: it throws a [SchemaError] whose
    message names the entity and the element, before anything was written. *)
Definition rejects `{Lib} {A} (entityName : string) (m : M obj A) (o : obj) : Prop :=
  ∃ msg, res (m o) = inl (SchemaError msg)
    ∧ st (m o) = o
    ∧ mentions msg entityName
    ∧ mentions msg (stringify (VObj o)).

(** ... or it returns, has written nothing and has warned of nothing. *)
Definition passes {A} (m : M obj A) (o : obj) : Prop :=
  ∃ a, res (m o) = inr a ∧ st (m o) = o ∧ log (m o) = [].

(** The message of a [this.error] names the entity and the element. *)
Definition naming `{Lib} (entityName : string) (msg : obj → string) : Prop :=
  ∀ o, mentions (msg o) entityName ∧ mentions (msg o) (stringify (VObj o)).

Definition isSchemaError (e : error) : Prop := ∃ msg, e = SchemaError msg.


(** The rules of a field are ones [validateFile] accepts: the field is
    named, every rule is a supported one and has its parameter. *)
Definition accepted `{Lib} (field : obj) (rules : list val) : Prop :=
  field !! "fieldName" ≠ None
  ∧ Forall (λ rule, oneOf SUPPORTED_VALIDATION_RULES (Some rule) = true) rules
  ∧ ∀ rule companion,
      (rule, companion) ∈ companions → VStr rule ∈ rules → field !! companion ≠ None.

(** The attributes the field callback derives only when they are absent
    (lines 623-684). *)
Definition derivedOnce : list string :=
  ["fieldNameCapitalized"; "fieldNameUnderscored"; "fieldNameAsDatabaseColumn";
   "fieldNameHumanized"; "fieldInJavaBeanMethod"; "fieldValidateRulesPatternJava";
   "fieldValidateRulesPatternAngular"; "fieldValidateRulesPatternReact"].

(** A pattern variant is settled: it is there, or there is no pattern to
    derive it from. *)
Definition settled (field : obj) (variant : string) : Prop :=
  field !! variant ≠ None ∨ field !! "fieldValidateRulesPattern" = None.

(** A field as the field callback leaves it. *)
Definition normalized (field : obj) : Prop :=
  migrated (field !! "fieldType") = field !! "fieldType"
  ∧ field !! "fieldIsEnum"
    = boolean (negb (oneOf primitiveTypes (field !! "fieldType")))
  ∧ field !! "fieldNameCapitalized" ≠ None
  ∧ field !! "fieldNameUnderscored" ≠ None
  ∧ field !! "fieldNameAsDatabaseColumn" ≠ None
  ∧ field !! "fieldNameHumanized" ≠ None
  ∧ field !! "fieldInJavaBeanMethod" ≠ None
  ∧ settled field "fieldValidateRulesPatternJava"
  ∧ settled field "fieldValidateRulesPatternAngular"
  ∧ settled field "fieldValidateRulesPatternReact"
  ∧ field !! "fieldValidate" = boolean (hasRules (field !! "fieldValidateRules")).

(** A computation of the field callback that returns, leaves the field as
    it is and warns of nothing, whatever the context. *)
Definition quiet {A} (m : M FieldState A) (field : obj) : Prop :=
  ∀ context, ∃ a context',
    res (m (context, field)) = inr a
    ∧ st (m (context, field)) = (context', field)
    ∧ log (m (context, field)) = [].

(** A computation keeps the value a property of the element has, when it
    has one. *)
Definition kept {C A} (k : string) (m : M (C * obj) A) : Prop :=
  ∀ s, snd s !! k ≠ None → snd (st (m s)) !! k = snd s !! k.

(** What the per-type mapping holds under a key: nothing when no
    relationship was filed there, the list otherwise. *)
Definition filed (l : list obj) : option (list obj) :=
  match l with
  | [] => None
  | _ => Some l
  end.

(** The types of the relationships, in the order of the list. *)
Definition encountered (rels : list obj) : list jsval :=
  (λ r : obj, r !! "otherEntityNameCapitalized") <$> rels.

(** No value of the list is [===] to an earlier one. *)
Definition distinct (l : list jsval) : Prop :=
  ForallOrdPairs (λ x y, strictEq y x = false) l.

(** The aggregates of a context hold the relationships [done], filed in
    the order of the list, after the class [entityClass] of the entity. *)
Definition registered `{Lib} (entityClass : jsval) (context : Context)
    (done : list obj) : Prop :=
  differentTypes context = firstOccurrences (entityClass :: encountered done)
  ∧ ∀ key, differentRelationships context !! key = filed (targeting key done).

(** The attributes lines 760-776 assign. *)
Definition reciprocalAttributes : list string :=
  ["otherEntityRelationshipName"; "otherEntityRelationshipNamePlural";
   "otherEntityRelationshipNameCapitalized";
   "otherEntityRelationshipNameCapitalizedPlural"].

(** The tests of lines 745-765: a relationship [other] of the other entity
    is the reciprocal of [relationship]. *)
Definition reciprocates `{Lib} (entityName : string) (relationship other : obj) : Prop :=
  upperFirst (other !! "otherEntityName") = entityName
  ∧ truthy (other !! "otherEntityRelationshipName") = true
  ∧ strictEq (other !! "otherEntityRelationshipName")
             (relationship !! "relationshipName") = true
  ∧ (isStr (relationship !! "relationshipType") "many-to-one"
     && isStr (other !! "relationshipType") "one-to-many"
     || isStr (relationship !! "relationshipType") "many-to-many"
        && isStr (other !! "relationshipType") "many-to-many") = true.

(** The name of the other side [validateFile] leaves on a relationship that
    has a type: the one it came with, or the entity's own name
    (lines 397-410). *)
Definition otherSideName `{Lib} (entityName : string) (relationship : obj) : jsval :=
  if isUndefined (relationship !! "otherEntityRelationshipName")
  then str (lowerFirst (str entityName))
  else relationship !! "otherEntityRelationshipName".

(** No relationship of the list is the reciprocal of [relationship]. *)
Definition noReciprocal `{Lib} (entityName : string) (relationship : obj)
    (others : list val) : Prop :=
  Forall (λ o, ∀ other, o = VObj other → ¬ reciprocates entityName relationship other)
         others.

(** The names of the other side lines 741-795 leave on a relationship,
    [given] the name it had and the name [q] of the reciprocal one. *)
Definition namedAfter `{Lib} (given : jsval) (q : string) (relationship : obj) : Prop :=
  relationship !! "otherEntityRelationshipName" = orElse given (str q)
  ∧ relationship !! "otherEntityRelationshipNamePlural" = str (pluralize q)
  ∧ relationship !! "otherEntityRelationshipNameCapitalized" = str (upperFirst (str q))
  ∧ relationship !! "otherEntityRelationshipNameCapitalizedPlural"
    = str (pluralize (upperFirst (str q))).

(** The type of a relationship of the document: the capitalized name of
    the other entity it comes with, or the one lines 855-857 derive from the
    name of the other entity. *)
Definition typeOf `{Lib} (relationship : obj) : jsval :=
  if isUndefined (relationship !! "otherEntityNameCapitalized")
  then str (upperFirst (relationship !! "otherEntityName"))
  else relationship !! "otherEntityNameCapitalized".

(** The relationship [loaded] that the phase leaves is the relationship
    [relationship] of the document: it has its name, its other entity and
    its kind, and its type. *)
Definition loadedFrom `{Lib} (relationship loaded : obj) : Prop :=
  loaded !! "relationshipName" = relationship !! "relationshipName"
  ∧ loaded !! "otherEntityName" = relationship !! "otherEntityName"
  ∧ loaded !! "relationshipType" = relationship !! "relationshipType"
  ∧ loaded !! "otherEntityNameCapitalized" = typeOf relationship.

(** The relationships of the document that have the type [key]. *)
Definition ofType `{Lib} (key : string) (rels : list obj) : list obj :=
  filter (λ r, tpl (typeOf r) = key) rels.

(** ** Notions of the further properties *)

(** What [validateFile] asks of a field (lines 316-368). *)
Definition wellFormedField `{Lib} (field : obj) : Prop :=
  field !! "fieldName" ≠ None
  ∧ field !! "fieldType" ≠ None
  ∧ match field !! "fieldValidateRules" with
    | None => True
    | Some (VArr rules) =>
      Forall (λ rule, oneOf SUPPORTED_VALIDATION_RULES (Some rule) = true) rules
      ∧ ∀ rule companion,
          (rule, companion) ∈ companions → VStr rule ∈ rules →
          field !! companion ≠ None
    | Some _ => False
    end.

(** What [validateFile] asks of a relationship (lines 391-438). *)
Definition wellFormedRelationship (relationship : obj) : Prop :=
  relationship !! "otherEntityName" ≠ None
  ∧ relationship !! "relationshipType" ≠ None
  ∧ (relationship !! "ownerSide" = None →
     isStr (relationship !! "relationshipType") "one-to-one"
     || isStr (relationship !! "relationshipType") "many-to-many" = false).

(** The properties of the context [validateFile] gives a fallback, and
    the fallback of each (lines 446-461). *)
Definition rootDefaults : list (string * jsval) :=
  [("dto", str "no"); ("service", str "no");
   ("jpaMetamodelFiltering", boolean false); ("pagination", str "no")].

(** The properties of a relationship [validateFile] gives a fallback
    (lines 382-424). *)
Definition relationshipFallbacks : list string :=
  ["relationshipName"; "otherEntityRelationshipName"; "otherEntityField"].

(** A relationship as [validateFile] leaves it when it lets it through. *)
Definition withFallbacks `{Lib} (entityName : string) (r r' : obj) : Prop :=
  r' !! "relationshipName"
  = (if isUndefined (r !! "relationshipName") then r !! "otherEntityName"
     else r !! "relationshipName")
  ∧ r' !! "otherEntityRelationshipName"
    = (if isUndefined (r !! "otherEntityRelationshipName")
          && negb (isUndefined (r !! "relationshipType"))
          && negb (isStr (r !! "relationshipType") "")
       then str (lowerFirst (str entityName))
       else r !! "otherEntityRelationshipName")
  ∧ r' !! "otherEntityField"
    = (if isUndefined (r !! "otherEntityField")
          && (isStr (r !! "relationshipType") "many-to-one"
              || isStr (r !! "relationshipType") "many-to-many"
                 && strictEq (r !! "ownerSide") (boolean true)
              || isStr (r !! "relationshipType") "one-to-one"
                 && strictEq (r !! "ownerSide") (boolean true))
       then str "id"
       else r !! "otherEntityField")
  ∧ ∀ k, k ∉ relationshipFallbacks → r' !! k = r !! k.

(** The flags of the context that tell which types the fields have, and
    the types each one stands for (lines 688-714). *)
Definition typeFlags : list (string * list string) :=
  [("fieldsContainZonedDateTime", ["ZonedDateTime"]);
   ("fieldsContainInstant", ["Instant"]);
   ("fieldsContainDuration", ["Duration"]);
   ("fieldsContainLocalDate", ["LocalDate"]);
   ("fieldsContainBigDecimal", ["BigDecimal"]);
   ("fieldsContainUUID", ["UUID"]);
   ("fieldsContainBlob", ["byte[]"; "ByteBuffer"]);
   ("fieldsContainDate", ["ZonedDateTime"; "Instant"; "LocalDate"])].

(** Some field of the list has one of the types. *)
Definition someOfType (types : list string) (fields : list obj) : bool :=
  existsb (λ field : obj, oneOf types (field !! "fieldType")) fields.

(** The fields of a binary type. *)
Definition binaryFields (fields : list obj) : list obj :=
  filter (λ field : obj, oneOf ["byte[]"; "ByteBuffer"] (field !! "fieldType") = true)
         fields.

(** The aggregates of a context tell of the fields [done]. *)
Definition classified (context : Context) (done : list obj) : Prop :=
  blobFields context = binaryFields done
  ∧ ∀ flag types, (flag, types) ∈ typeFlags →
      cfg context !! flag = boolean (someOfType types done).

(** Some relationship of the list is one to the user of the application. *)
Definition someToUser (rels : list obj) : bool :=
  existsb (λ r : obj, isStr (r !! "otherEntityName") "user") rels.

(** The attributes the relationship callback derives only when they are
    absent (lines 797-880 and 881-893). *)
Definition relationshipDerivedOnce : list string :=
  ["relationshipNameCapitalized"; "relationshipNameCapitalizedPlural";
   "relationshipNameHumanized"; "relationshipNamePlural"; "relationshipFieldName";
   "relationshipFieldNamePlural"; "otherEntityNamePlural";
   "otherEntityNameCapitalized"; "otherEntityAngularName";
   "otherEntityNameCapitalizedPlural"; "otherEntityFieldCapitalized";
   "otherEntityStateName"; "otherEntityModuleName"; "otherEntityFolderName"].

(** What the document says of a field and of a relationship. *)
Definition fieldNames (fields : list obj) : list jsval :=
  (λ field : obj, field !! "fieldName") <$> fields.

Definition relationshipEnds (rels : list obj) : list (jsval * jsval * jsval) :=
  (λ r : obj, (r !! "relationshipName", r !! "otherEntityName",
               r !! "relationshipType")) <$> rels.

(** The flags of the context that tell which kinds of relationships the
    entity has, and the relationships each one stands for (lines 926-939). *)
Definition relationshipKinds : list (string * (obj → bool)) :=
  [("fieldsContainOwnerManyToMany",
    λ r, isStr (r !! "relationshipType") "many-to-many" && truthy (r !! "ownerSide"));
   ("fieldsContainNoOwnerOneToOne",
    λ r, isStr (r !! "relationshipType") "one-to-one" && negb (truthy (r !! "ownerSide")));
   ("fieldsContainOwnerOneToOne",
    λ r, isStr (r !! "relationshipType") "one-to-one" && truthy (r !! "ownerSide"));
   ("fieldsContainOneToMany", λ r, isStr (r !! "relationshipType") "one-to-many");
   ("fieldsContainManyToOne", λ r, isStr (r !! "relationshipType") "many-to-one");
   ("fieldsContainEmbedded", λ r, truthy (r !! "otherEntityIsEmbedded"))].

(** The flags of a context tell of the relationships [done]. *)
Definition sorted (context : Context) (done : list obj) : Prop :=
  ∀ flag (kind : obj → bool), (flag, kind) ∈ relationshipKinds →
    cfg context !! flag = boolean (existsb kind done).

(** The flags of the kinds as a context has them, and what the kind of a
    relationship depends on. *)
Definition kindFlags (c : Context) : list jsval :=
  (λ flag : string * (obj → bool), cfg c !! flag.1) <$> relationshipKinds.

Definition kindOf (r : obj) : jsval * jsval * jsval :=
  (r !! "relationshipType", r !! "ownerSide", r !! "otherEntityIsEmbedded").

(** The flags of the context that tell of the fields the React client
    validates and of the content of the binary fields, with the fields each
    one stands for (lines 598-600 and 703-712). *)
Definition contentFlags : list (string * (obj → bool)) :=
  [("fieldsIsReactAvField",
    λ field, negb (oneOf ["Instant"; "ZonedDateTime"; "Boolean"] (field !! "fieldType")));
   ("fieldsContainImageBlob",
    λ field, oneOf ["byte[]"; "ByteBuffer"] (field !! "fieldType")
             && isStr (field !! "fieldTypeBlobContent") "image");
   ("fieldsContainBlobOrImage",
    λ field, oneOf ["byte[]"; "ByteBuffer"] (field !! "fieldType")
             && negb (isStr (field !! "fieldTypeBlobContent") "text"));
   ("fieldsContainTextBlob",
    λ field, oneOf ["byte[]"; "ByteBuffer"] (field !! "fieldType")
             && isStr (field !! "fieldTypeBlobContent") "text")].

(** The field has rules to check: a non-empty array of them (line 686). *)
Definition checked (field : obj) : bool := hasRules (field !! "fieldValidateRules").

(** The relationship is required, and is not one of the entity to itself
    (lines 941-947). *)
Definition requiredOfOther `{Lib} (entityName : string) (r : obj) : bool :=
  let rules := r !! "relationshipValidateRules" in
  truthy rules
  && match rules with
     | Some (VStr text) => occursIn "required" text
     | Some (VArr l) => includes (Some <$> l) (str "required")
     | _ => false
     end
  && match r !! "otherEntityName" with
     | Some (VStr other) =>
       negb (String.eqb (toLowerCase entityName) (toLowerCase other))
     | _ => false
     end.

(** ** The name of the entity: [_validateEntityName] (lines 1103-1120)
       and [validateEntityName] of the [initializing] phase (lines 213-218) *)

Section EntityName.
Context `{Lib}.

(** [isReservedClassName] of jhipster-core's reserved keywords. *)
Variable isReservedClassName : string → bool.

Definition digit (c : Ascii.ascii) : bool :=
  let n := Ascii.nat_of_ascii c in ((48 <=? n) && (n <=? 57))%nat.

(** A letter or a digit. *)
Definition alphanumeric (c : Ascii.ascii) : bool :=
  let n := Ascii.nat_of_ascii c in
  ((97 <=? n) && (n <=? 122) || (65 <=? n) && (n <=? 90) || (48 <=? n) && (n <=? 57))%nat.

(** [.] of a regular expression: any character but a line terminator (of
    the characters of one byte, the line feed and the carriage return). *)
Definition dot (c : Ascii.ascii) : bool :=
  let n := Ascii.nat_of_ascii c in negb ((n =? 10) || (n =? 13))%nat.

(** The test of line 1104: every character is a letter or a digit. *)
Definition onlyAlphanumeric (s : string) : bool :=
  forallb alphanumeric (String.list_ascii_of_string s).

(** The test of line 1107: a digit, then characters that [.] matches up to
    the end. *)
Definition digitFirst (s : string) : bool :=
  match s with
  | String c rest => digit c && forallb dot (String.list_ascii_of_string rest)
  | EmptyString => false
  end.

(** [s.indexOf(needle, s.length - needle.length) !== -1]: a negative
    position counts as [0], and the position is never past the end. *)
Definition foundAtEnd (needle s : string) : bool :=
  match String.index (String.length s - String.length needle) needle s with
  | Some _ => true
  | None => false
  end.

Definition _validateEntityName (entityName : string) (context : Context) : verdict :=
  if negb (onlyAlphanumeric entityName) then
    Invalid "The entity name must be alphanumeric only"
  else if digitFirst entityName then
    Invalid "The entity name cannot start with a number"
  else if String.eqb entityName "" then
    Invalid "The entity name cannot be empty"
  else if foundAtEnd "Detail" entityName then
    Invalid "The entity name cannot end with 'Detail'"
  else if negb (truthy (cfg context !! "skipServer")) && isReservedClassName entityName
  then Invalid "The entity name cannot contain a Java or JHipster reserved keyword"
  else Valid.

Definition validateEntityName : M Context unit :=
  context ← get;
  match _validateEntityName (name context) context with
  | Valid => mret ()
  | Invalid msg => raise (SchemaError msg)
  end.

End EntityName.

(** The entity is regenerated from its configuration file (line 473). *)
Definition regenerated (context : Context) : bool :=
  truthy (cfg context !! "configurationFileExists")
  && isStr (cfg context !! "updateEntity") "regenerate".

(** The databases [validateFile] or [writeEntityJson] date the changelog
    of (lines 442 and 477). *)
Definition dated (context : Context) : bool :=
  oneOf ["sql"; "cassandra"] (cfg context !! "databaseType")
  || isStr (cfg context !! "databaseType") "couchbase" && negb (regenerated context).

(** The first letter of the name is in lower case and the second in upper
    case (lines 655-658). *)
Definition lowerThenUpper `{Lib} (fieldName : string) : bool :=
  (1 <? String.length fieldName)%nat
  && String.eqb (String.substring 0 1 fieldName)
                (toLowerCase (String.substring 0 1 fieldName))
  && String.eqb (String.substring 1 1 fieldName)
                (toUpperCase (String.substring 1 1 fieldName)).

(** The pattern as lines 668-672 write it for Java and lines 674-678 for
    Angular. *)
Definition javaPattern (pattern : string) : string :=
  replaceAll dquote (chr backslash +:+ chr dquote)
    (replaceAll backslash (chr backslash +:+ chr backslash) pattern).

Definition angularPattern (pattern : string) : string :=
  replaceAll dquote "&#34;" pattern.

(** What a Java string literal with these characters between its quotes
    stands for: a backslash announces a backslash or a double quote, and a
    double quote on its own would end the literal. *)
Fixpoint readJavaLiteral (s : string) : option string :=
  match s with
  | EmptyString => Some EmptyString
  | String c rest =>
    if Ascii.eqb c backslash then
      match rest with
      | String d rest' =>
        if Ascii.eqb d backslash || Ascii.eqb d dquote
        then String d <$> readJavaLiteral rest'
        else None
      | EmptyString => None
      end
    else if Ascii.eqb c dquote then None
    else String c <$> readJavaLiteral rest
  end.

(** The translations of the enumerations: what the fields that are
    enumerations have as [enumInstance], in their order (lines 616-618). *)
Definition enumInstances (fields : list obj) : list jsval :=
  (λ field : obj, field !! "enumInstance")
    <$> filter (λ field : obj, strictEq (field !! "fieldIsEnum") (boolean true) = true)
               fields.

(** ** [_setupEntityOptions] (lines 1191-1219)

    As the constructor calls it: [generator] and [context] are the
    generator, [dest] is [this.context].  The state is the stored
    configuration of the entity, [this.entityConfig], and the context. *)

Section EntityOptions.
Context `{Lib}.

Abbreviation Setup := (obj * Context)%type.

(** [this.entityConfig.k = e] and [dest.k = e] *)
Definition configure (k : string) (e : Setup → jsval) : M Setup unit :=
  modify (λ s, (assign k (e s) (fst s), snd s)).

Definition dset (k : string) (e : Setup → jsval) : M Setup unit :=
  modify (λ s, (fst s, set_cfg (assign k (e s)) (snd s))).

(** [if (context.options.o !== undefined) this.entityConfig.k = context.options.o] *)
Definition fromOption (options : obj) (o k : string) : M Setup unit :=
  when (negb (isUndefined (options !! o))) (configure k (λ _, options !! o)).

(** [v.startsWith('-')] *)
Definition startsWithDash (v : jsval) : M Setup bool :=
  match v with
  | Some (VStr s) => mret (String.prefix "-" s)
  | _ => raise TypeError
  end.

Definition _setupEntityOptions (options : obj) : M Setup unit :=
  dset "regenerate" (λ _, options !! "regenerate");;
  fromOption options "fluentMethods" "fluentMethods";;
  fromOption options "skipCheckLengthOfIdentifier" "skipCheckLengthOfIdentifier";;
  fromOption options "angularSuffix" "angularJSSuffix";;
  fromOption options "skipUiGrouping" "skipUiGrouping";;
  when (negb (isUndefined (options !! "clientRootFolder")))
    (configure "clientRootFolder"
       (λ _, if truthy (options !! "skipUiGrouping") then str ""
             else options !! "clientRootFolder"));;
  dset "isDebugEnabled" (λ _, options !! "debug");;
  dset "experimental" (λ _, options !! "experimental");;
  dset "entityNameCapitalized" (λ s, str (upperFirst (str (name (snd s)))));;
  dset "entityTableName"
    (λ s, getTableName (orElse (options !! "tableName") (str (name (snd s)))));;
  s ← get;
  if truthy (fst s !! "angularJSSuffix") then
    dashed ← startsWithDash (fst s !! "angularJSSuffix");
    when (negb dashed)
      (configure "angularJSSuffix"
         (λ s, str ("-" +:+ tpl (fst s !! "angularJSSuffix"))))
  else mret ().

End EntityOptions.

(** The suffix the entity gets: the option when there is one, and what
    the configuration has otherwise. *)
Definition suffixAsked (options config : obj) : jsval :=
  if isUndefined (options !! "angularSuffix") then config !! "angularJSSuffix"
  else options !! "angularSuffix".

(** * Properties *)

(** ** Running computations *)

Section Running.
Context {S : Type}.

Lemma bind_run {A B} (m : M S A) (k : A → M S B) s :
  (m ≫= k) s =
  match res (m s) with
  | inl e => mkOut (st (m s)) (log (m s)) (inl e)
  | inr a => mkOut (st (k a (st (m s)))) (log (m s) ++ log (k a (st (m s))))
               (res (k a (st (m s))))
  end.
Proof. reflexivity. Qed.

Lemma stable_bind {A B X} (obs : S → X) (m : M S A) (k : A → M S B) :
  stable obs m → (∀ a, stable obs (k a)) → stable obs (m ≫= k).
Proof.
  intros Hm Hk s. rewrite bind_run.
  destruct (res (m s)) as [e|a]; simpl; [apply Hm|].
  rewrite Hk. apply Hm.
Qed.

Lemma stable_ret {A X} (obs : S → X) (a : A) : stable obs (mret a).
Proof. by intros s. Qed.

Lemma stable_get {X} (obs : S → X) : stable obs get.
Proof. by intros s. Qed.

Lemma stable_gets {A X} (obs : S → X) (f : S → A) : stable obs (gets f).
Proof. by intros s. Qed.

Lemma stable_warning {X} (obs : S → X) msg : stable obs (warning msg).
Proof. by intros s. Qed.

Lemma stable_raise {A X} (obs : S → X) e : stable obs (raise (A:=A) e).
Proof. by intros s. Qed.

Lemma stable_modify {X} (obs : S → X) (f : S → S) :
  (∀ s, obs (f s) = obs s) → stable obs (modify f).
Proof. intros Hf s. apply Hf. Qed.

Lemma stable_when {X} (obs : S → X) b (m : M S unit) :
  stable obs m → stable obs (when b m).
Proof. destruct b; [done|]. intros _. apply stable_ret. Qed.

Lemma stable_ifS {X} (obs : S → X) c (m : M S unit) :
  stable obs m → stable obs (ifS c m).
Proof.
  intros Hm. apply stable_bind; [apply stable_get|].
  intros s. by apply stable_when.
Qed.

Lemma stable_ifElseS {X} (obs : S → X) c (m1 m2 : M S unit) :
  stable obs m1 → stable obs m2 → stable obs (ifElseS c m1 m2).
Proof.
  intros H1 H2. apply stable_bind; [apply stable_get|].
  intros s. by destruct (c s).
Qed.

Lemma stable_warn {X} (obs : S → X) msg : stable obs (warn msg).
Proof. apply stable_bind; [apply stable_get|]. intros s. apply stable_warning. Qed.

Lemma stable_throw {A X} (obs : S → X) msg : stable obs (throw (A:=A) msg).
Proof. apply stable_bind; [apply stable_get|]. intros s. apply stable_raise. Qed.

Lemma stable_forM_ {A X} (obs : S → X) (xs : list A) (body : A → M S unit) :
  (∀ x, stable obs (body x)) → stable obs (forM_ xs body).
Proof.
  intros Hb. induction xs as [|x xs IH]; simpl; [apply stable_ret|].
  apply stable_bind; [apply Hb|]. intros _. apply IH.
Qed.

(** Returning computations. *)

Lemma wp_bind {A B} (m : M S A) (k : A → M S B) Q s :
  wp m (λ a s', wp (k a) Q s') s → wp (m ≫= k) Q s.
Proof.
  unfold wp. rewrite bind_run.
  destruct (res (m s)) as [e|a]; simpl; [done|].
  by destruct (res (k a (st (m s)))).
Qed.

Lemma wp_mono {A} (m : M S A) (Q Q' : A → S → Prop) s :
  (∀ a s', Q a s' → Q' a s') → wp m Q s → wp m Q' s.
Proof. unfold wp. destruct (res (m s)); auto. Qed.

Lemma wp_stable {A X} (obs : S → X) (m : M S A) (Q : A → S → Prop) s :
  stable obs m → (∀ a s', obs s' = obs s → Q a s') → wp m Q s.
Proof.
  intros Hm HQ. unfold wp. destruct (res (m s)); [done|]. apply HQ, Hm.
Qed.

Lemma wp_and {A} (m : M S A) (Q1 Q2 : A → S → Prop) s :
  wp m Q1 s → wp m Q2 s → wp m (λ a s', Q1 a s' ∧ Q2 a s') s.
Proof. unfold wp. destruct (res (m s)); auto. Qed.

Lemma wp_ret {A} (a : A) (Q : A → S → Prop) s : Q a s → wp (mret a) Q s.
Proof. done. Qed.

Lemma wp_get (Q : S → S → Prop) s : Q s s → wp get Q s.
Proof. done. Qed.

Lemma wp_gets {A} (f : S → A) (Q : A → S → Prop) s : Q (f s) s → wp (gets f) Q s.
Proof. done. Qed.

Lemma wp_modify (f : S → S) (Q : unit → S → Prop) s : Q () (f s) → wp (modify f) Q s.
Proof. done. Qed.

Lemma wp_warning msg (Q : unit → S → Prop) s : Q () s → wp (warning msg) Q s.
Proof. done. Qed.

Lemma wp_raise {A} e (Q : A → S → Prop) s : wp (raise e) Q s.
Proof. done. Qed.

Lemma wp_when (b : bool) (m : M S unit) Q s :
  (if b then wp m Q s else Q () s) → wp (when b m) Q s.
Proof. by destruct b. Qed.

Lemma wp_ifS (c : S → bool) (m : M S unit) Q s :
  (if c s then wp m Q s else Q () s) → wp (ifS c m) Q s.
Proof. intros Hc. apply wp_bind, wp_get. by apply wp_when. Qed.

Lemma wp_ifElseS (c : S → bool) (m1 m2 : M S unit) Q s :
  (if c s then wp m1 Q s else wp m2 Q s) → wp (ifElseS c m1 m2) Q s.
Proof. intros Hc. apply wp_bind, wp_get. by destruct (c s). Qed.

Lemma wp_warn msg (Q : unit → S → Prop) s : Q () s → wp (warn msg) Q s.
Proof. intros HQ. by apply wp_bind, wp_get. Qed.

Lemma wp_throw {A} msg (Q : A → S → Prop) s : wp (throw msg) Q s.
Proof. by apply wp_bind, wp_get. Qed.

Lemma wp_succeeded {A} (m : M S A) (Q : A → S → Prop) s :
  wp m Q s → succeeded (m s) → ∃ a, res (m s) = inr a ∧ Q a (st (m s)).
Proof.
  unfold wp, succeeded. destruct (res (m s)) as [e|a]; [done|]. eauto.
Qed.

End Running.

(** Computations that return. *)

Section Returning.
Context {S : Type}.

Lemma returns_bind {A B} (m : M S A) (k : A → M S B) Q s :
  returns m (λ a s', returns (k a) Q s') s → returns (m ≫= k) Q s.
Proof.
  intros (a & Ha & b & Hb & HQ). exists b. rewrite bind_run, Ha. simpl. by rewrite Hb.
Qed.

Lemma returns_mono {A} (m : M S A) (Q Q' : A → S → Prop) s :
  (∀ a s', Q a s' → Q' a s') → returns m Q s → returns m Q' s.
Proof. intros HQ (a & Ha & Hq). exists a. auto. Qed.

Lemma returns_ret {A} (a : A) (Q : A → S → Prop) s : Q a s → returns (mret a) Q s.
Proof. by exists a. Qed.

Lemma returns_get (Q : S → S → Prop) s : Q s s → returns get Q s.
Proof. by exists s. Qed.

Lemma returns_gets {A} (f : S → A) (Q : A → S → Prop) s :
  Q (f s) s → returns (gets f) Q s.
Proof. by exists (f s). Qed.

Lemma returns_modify (f : S → S) (Q : unit → S → Prop) s :
  Q () (f s) → returns (modify f) Q s.
Proof. by exists (). Qed.

Lemma returns_warning msg (Q : unit → S → Prop) s : Q () s → returns (warning msg) Q s.
Proof. by exists (). Qed.

Lemma returns_when (b : bool) (m : M S unit) Q s :
  (if b then returns m Q s else Q () s) → returns (when b m) Q s.
Proof. destruct b; [done|]. apply returns_ret. Qed.

Lemma returns_ifS (c : S → bool) (m : M S unit) Q s :
  (if c s then returns m Q s else Q () s) → returns (ifS c m) Q s.
Proof. intros Hc. apply returns_bind, returns_get. by apply returns_when. Qed.

Lemma returns_ifElseS (c : S → bool) (m1 m2 : M S unit) Q s :
  (if c s then returns m1 Q s else returns m2 Q s) → returns (ifElseS c m1 m2) Q s.
Proof. intros Hc. apply returns_bind, returns_get. by destruct (c s). Qed.

Lemma returns_warn msg (Q : unit → S → Prop) s : Q () s → returns (warn msg) Q s.
Proof. intros HQ. by apply returns_bind, returns_get, returns_warning. Qed.

Lemma returns_succeeded {A} (m : M S A) Q s : returns m Q s → succeeded (m s).
Proof. intros (a & Ha & _). unfold succeeded. by rewrite Ha. Qed.

Lemma returns_wp {A} (m : M S A) Q s : returns m Q s → wp m Q s.
Proof. intros (a & Ha & HQ). unfold wp. by rewrite Ha. Qed.

Lemma returns_st {A} (m : M S A) Q s : returns m Q s → ∃ a, Q a (st (m s)).
Proof. intros (a & _ & HQ). eauto. Qed.

Lemma wp_returns {A} (m : M S A) Q s : wp m Q s → succeeded (m s) → returns m Q s.
Proof.
  unfold wp, succeeded, returns. destruct (res (m s)) as [e|a]; [done|]. eauto.
Qed.

End Returning.

(** The reserved-keyword test returns what the table says, when it says
    something. *)

Section Reserved.
Context `{Lib} {S : Type}.

Lemma wp_reservedTableName keyword databaseType (Q : bool → S → Prop) s :
  (∀ reserved, isReservedTableName keyword databaseType = Some reserved → Q reserved s) →
  wp (reservedTableName keyword databaseType) Q s.
Proof.
  intros HQ. unfold reservedTableName.
  destruct (isReservedTableName keyword databaseType); [by apply HQ|done].
Qed.

Lemma returns_reservedTableName keyword databaseType reserved (Q : bool → S → Prop) s :
  isReservedTableName keyword databaseType = Some reserved → Q reserved s →
  returns (reservedTableName keyword databaseType) Q s.
Proof. intros E HQ. unfold reservedTableName. rewrite E. by exists reserved. Qed.

Lemma stable_reservedTableName {X} (obs : S → X) keyword databaseType :
  stable obs (reservedTableName keyword databaseType).
Proof.
  intros s. unfold reservedTableName.
  by destruct (isReservedTableName keyword databaseType).
Qed.

End Reserved.

(** One step through a computation, towards what holds when it returns
    ([wp]) or towards its returning ([returns]). *)
Ltac run_step :=
  lazymatch goal with
  | |- wp (_ ≫= _) _ _ => apply wp_bind
  | |- wp (mret _) _ _ => apply wp_ret
  | |- wp get _ _ => apply wp_get
  | |- wp (gets _) _ _ => apply wp_gets
  | |- wp (modify _) _ _ => apply wp_modify
  | |- wp (warning _) _ _ => apply wp_warning
  | |- wp (raise _) _ _ => apply wp_raise
  | |- wp (when _ _) _ _ => apply wp_when
  | |- wp (ifS _ _) _ _ => apply wp_ifS
  | |- wp (ifElseS _ _ _) _ _ => apply wp_ifElseS
  | |- wp (warn _) _ _ => apply wp_warn
  | |- wp (throw _) _ _ => apply wp_throw
  | |- wp (fset _ _) _ _ => apply wp_modify
  | |- wp (fcset _ _) _ _ => apply wp_modify
  | |- wp (rcset _ _) _ _ => apply wp_modify
  | |- wp (cset _ _) _ _ => apply wp_modify
  | |- wp (set _ _) _ _ => apply wp_modify
  | |- wp (unlessDefined _ _) _ _ => apply wp_ifS
  | |- wp (reservedTableName _ _) _ _ => apply wp_reservedTableName; intros ? ?
  | |- returns (_ ≫= _) _ _ => apply returns_bind
  | |- returns (mret _) _ _ => apply returns_ret
  | |- returns get _ _ => apply returns_get
  | |- returns (gets _) _ _ => apply returns_gets
  | |- returns (modify _) _ _ => apply returns_modify
  | |- returns (warning _) _ _ => apply returns_warning
  | |- returns (when _ _) _ _ => apply returns_when
  | |- returns (ifS _ _) _ _ => apply returns_ifS
  | |- returns (ifElseS _ _ _) _ _ => apply returns_ifElseS
  | |- returns (warn _) _ _ => apply returns_warn
  | |- returns (fset _ _) _ _ => apply returns_modify
  | |- returns (fcset _ _) _ _ => apply returns_modify
  | |- returns (rcset _ _) _ _ => apply returns_modify
  | |- returns (cset _ _) _ _ => apply returns_modify
  | |- returns (set _ _) _ _ => apply returns_modify
  | |- returns (unlessDefined _ _) _ _ => apply returns_ifS
  end; cbn beta iota delta [fst snd rctx rel].

Ltac run := repeat run_step.

(** ** Assignments and what they leave alone *)

Lemma lookup_assign k k' v (o : obj) :
  assign k' v o !! k = if decide (k' = k) then v else o !! k.
Proof. unfold assign. destruct v; [apply lookup_insert|apply lookup_delete]. Qed.

Lemma lookup_assign_eq k v (o : obj) : assign k v o !! k = v.
Proof. rewrite lookup_assign. by case_decide. Qed.

Lemma lookup_assign_ne k k' v (o : obj) : k' ≠ k → assign k' v o !! k = o !! k.
Proof. intros. rewrite lookup_assign. by case_decide. Qed.

Lemma assign_id k (o : obj) : assign k (o !! k) o = o.
Proof.
  unfold assign. destruct (o !! k) eqn:E; [by apply insert_id|by apply delete_id].
Qed.

Section Readonly.
Context `{Lib} {S X : Type} (obs : S → X).

Lemma stable_pluralizeV v : stable obs (pluralizeV v).
Proof. intros s. by destruct v as [[]|]. Qed.

Lemma stable_escaped f v : stable obs (escaped f v).
Proof. intros s. unfold escaped. destruct (truthy v); [|done]. by destruct v as [[]|]. Qed.

Lemma stable_orElseM a (b : M S jsval) : stable obs b → stable obs (orElseM a b).
Proof. intros Hb. unfold orElseM. by destruct (truthy a). Qed.

Lemma stable_longerThanOne v : stable obs (longerThanOne v).
Proof. intros s. by destruct v as [[]|]. Qed.

Lemma stable_longerThan n v : stable obs (longerThan n v).
Proof. intros s. by destruct v as [[]|]. Qed.

Lemma stable_upperCased v : stable obs (upperCased v).
Proof. intros s. by destruct v as [[]|]. Qed.

Lemma stable_rulesIncludeRequired v : stable obs (rulesIncludeRequired v).
Proof.
  intros s. unfold rulesIncludeRequired. destruct (truthy v); [|done].
  by destruct v as [[]|].
Qed.

End Readonly.

Ltac head_of t :=
  lazymatch t with
  | ?f _ => head_of f
  | _ => t
  end.

(** One step of a proof that a block leaves an observation alone. *)
Ltac stable_step :=
  lazymatch goal with
  | |- stable _ (_ ≫= _) => apply stable_bind; [|intros ?]
  | |- stable _ (mret _) => apply stable_ret
  | |- stable _ get => apply stable_get
  | |- stable _ (gets _) => apply stable_gets
  | |- stable _ (warning _) => apply stable_warning
  | |- stable _ (raise _) => apply stable_raise
  | |- stable _ (when _ _) => apply stable_when
  | |- stable _ (ifS _ _) => apply stable_ifS
  | |- stable _ (ifElseS _ _ _) => apply stable_ifElseS
  | |- stable _ (warn _) => apply stable_warn
  | |- stable _ (throw _) => apply stable_throw
  | |- stable _ (forM_ _ _) => apply stable_forM_; intros ?
  | |- stable _ (pluralizeV _) => apply stable_pluralizeV
  | |- stable _ (escaped _ _) => apply stable_escaped
  | |- stable _ (orElseM _ _) => apply stable_orElseM
  | |- stable _ (longerThanOne _) => apply stable_longerThanOne
  | |- stable _ (longerThan _ _) => apply stable_longerThan
  | |- stable _ (upperCased _) => apply stable_upperCased
  | |- stable _ (reservedTableName _ _) => apply stable_reservedTableName
  | |- stable _ (rulesIncludeRequired _) => apply stable_rulesIncludeRequired
  | |- stable _ (modify _) =>
    apply stable_modify; intros ?; simpl;
    rewrite ?lookup_assign_ne by congruence; done
  | |- stable _ (match ?x with _ => _ end) => destruct x
  | |- stable _ (let _ := _ in _) => cbv zeta
  | |- stable _ ?m => let h := head_of m in unfold h
  end.

Ltac stable_tac := repeat stable_step.

Section Fields.
Context `{Lib}.

Lemma classifyField_keeps k :
  k ≠ "fieldType" → k ≠ "fieldIsEnum" →
  stable (λ s : FieldState, snd s !! k) classifyField.
Proof. intros. stable_tac. Qed.

Lemma after_classifyField_stable fieldOptions fieldType :
  stable (λ s : FieldState, (snd s !! "fieldType", snd s !! "fieldIsEnum"))
    (deriveFieldNames fieldOptions;;
     fset "fieldValidate" (λ s, boolean (hasRules (snd s !! "fieldValidateRules")));;
     fieldTypeFlags fieldType;;
     ifS (λ s, truthy (snd s !! "fieldValidate"))
       (fcset "validation" (λ _, boolean true))).
Proof. stable_tac. Qed.

End Fields.

(** ** Field classification *)

Lemma isStr_true v lit : isStr v lit = true ↔ v = str lit.
Proof.
  unfold isStr, strictEq, str. split.
  - destruct v as [[]|]; try done. intros E. by apply String.eqb_eq in E as ->.
  - intros ->. apply String.eqb_refl.
Qed.

Lemma oneOf_true lits v : oneOf lits v = true ↔ ∃ t, t ∈ lits ∧ v = str t.
Proof.
  unfold oneOf. rewrite existsb_exists. split.
  - intros (t & Hin & Ht). exists t. split; [by apply list_elem_of_In|].
    by apply isStr_true.
  - intros (t & Hin & ->). exists t. split; [by apply list_elem_of_In|].
    by apply isStr_true.
Qed.

Section FieldType.
Context `{Lib}.

Lemma classifyField_returns (s : FieldState) :
  returns classifyField
    (λ fieldType s',
       fieldType = migrated (snd s !! "fieldType")
       ∧ snd s' !! "fieldType" = fieldType
       ∧ snd s' !! "fieldIsEnum" = boolean (negb (oneOf primitiveTypes fieldType)))
    s.
Proof.
  unfold classifyField, migrated. run.
  destruct (isStr (s.2 !! "fieldType") "DateTime" || isStr (s.2 !! "fieldType") "Date");
    run.
  - rewrite lookup_assign_eq.
    destruct (negb (oneOf ["Instant"; "ZonedDateTime"; "Boolean"] (str "Instant"))); run;
      rewrite lookup_assign_eq;
      (destruct (strictEq _ _); run;
       by rewrite lookup_assign_eq, lookup_assign_ne, lookup_assign_eq).
  - destruct (negb (oneOf ["Instant"; "ZonedDateTime"; "Boolean"] _)); run;
      rewrite lookup_assign_eq;
      (destruct (strictEq _ _); run;
       by rewrite lookup_assign_eq, lookup_assign_ne).
Qed.

(** The field a run of [loadField] leaves has the migrated type and the
    flag of that type, whether the run returns or throws later on. *)
Lemma loadField_classified (s : FieldState) :
  let field := snd (st (loadField s)) in
  field !! "fieldType" = migrated (snd s !! "fieldType")
  ∧ field !! "fieldIsEnum"
    = boolean (negb (oneOf primitiveTypes (migrated (snd s !! "fieldType")))).
Proof.
  cbn zeta. unfold loadField. rewrite bind_run. cbn [gets res st log].
  destruct (classifyField_returns s) as (ft & Hres & -> & Hty & Henum).
  rewrite bind_run, Hres. cbn [st].
  pose proof (after_classifyField_stable (sub s.2 "options")
                (migrated (s.2 !! "fieldType")) (st (classifyField s))) as Hst.
  cbn beta in Hst. injection Hst as -> ->. by rewrite Hty, Henum.
Qed.

(** C7. The flag [fieldIsEnum] that [loadInMemoryData] gives a field is
    [true] exactly when the field's type, read after the rewriting of the
    legacy types [DateTime] and [Date] to [Instant], is none of the fourteen
    primitive type names. *)
Theorem fieldIsEnum_iff_not_primitive (s : FieldState) :
  let field := snd (st (loadField s)) in
  length primitiveTypes = 14
  ∧ field !! "fieldType" = migrated (snd s !! "fieldType")
  ∧ ∃ flag, field !! "fieldIsEnum" = Some (VBool flag)
      ∧ (flag = true ↔ ∀ t, t ∈ primitiveTypes → field !! "fieldType" ≠ Some (VStr t)).
Proof.
  cbn zeta. destruct (loadField_classified s) as [Hty Henum].
  split; [done|]. split; [done|].
  eexists. split; [exact Henum|]. rewrite Hty, negb_true_iff.
  split.
  - intros Hno t Hin Ht.
    assert (oneOf primitiveTypes (migrated (s.2 !! "fieldType")) = true) as Hyes
      by (apply oneOf_true; eauto).
    congruence.
  - intros Hno. apply not_true_is_false. intros (t & Hin & Ht)%oneOf_true.
    by apply (Hno t).
Qed.

End FieldType.

(** A witness states the hypotheses at an input, then what follows there. *)
Lemma use_hypotheses (P Q : Prop) : P → (P → Q) → P ∧ Q.
Proof. intros p f. split; [exact p|exact (f p)]. Defined.

(** ** Messages *)

Lemma append_assoc (a b c : string) : (a +:+ b) +:+ c = a +:+ b +:+ c.
Proof.
  induction a as [|x a IH]; [done|].
  change (String x ((a +:+ b) +:+ c) = String x (a +:+ b +:+ c)). by rewrite IH.
Qed.

Lemma append_nil_r (a : string) : a +:+ "" = a.
Proof.
  induction a as [|x a IH]; [done|].
  change (String x (a +:+ "") = String x a). by rewrite IH.
Qed.

Lemma mentions_refl what : mentions what what.
Proof. exists "", "". by rewrite append_nil_r. Qed.

Lemma mentions_here what after : mentions (what +:+ after) what.
Proof. by exists "", after. Qed.

Lemma mentions_append_l before msg what :
  mentions msg what → mentions (before +:+ msg) what.
Proof.
  intros (b & a & ->). exists (before +:+ b), a. by rewrite append_assoc.
Qed.

Lemma mentions_append_r msg after what :
  mentions msg what → mentions (msg +:+ after) what.
Proof.
  intros (b & a & ->). exists b, (a +:+ after). by rewrite !append_assoc.
Qed.

Ltac mentions_tac :=
  lazymatch goal with
  | |- mentions ?w ?w => apply mentions_refl
  | |- mentions (?w +:+ _) ?w => apply mentions_here
  | |- mentions (_ +:+ _) _ =>
    first [ apply mentions_append_l; mentions_tac
          | apply mentions_append_r; mentions_tac ]
  end.

Ltac naming_tac := intros ?; split; unfold inJson; mentions_tac.

(** ** Validation of a field *)

Section FieldValidation.
Context `{Lib}.

Lemma inJson_entity entityName kind o : mentions (inJson entityName kind o) entityName.
Proof. unfold inJson. mentions_tac. Qed.

Lemma inJson_element entityName kind o :
  mentions (inJson entityName kind o) (stringify (VObj o)).
Proof. unfold inJson. mentions_tac. Qed.

Lemma rejects_bind_l {A B} entityName (m : M obj A) (k : A → M obj B) field :
  rejects entityName m field → rejects entityName (m ≫= k) field.
Proof.
  intros (msg & Hres & Hst & ?). exists msg. rewrite bind_run, Hres. by simpl.
Qed.

(** After a check that passes, the rest runs as if it came first. *)
Lemma passes_then {A B} (m : M obj A) (k : A → M obj B) field :
  passes m field →
  ∃ a, res ((m ≫= k) field) = res (k a field)
       ∧ st ((m ≫= k) field) = st (k a field)
       ∧ log ((m ≫= k) field) = log (k a field).
Proof.
  intros (a & Hres & Hst & Hlog). exists a.
  rewrite bind_run, Hres. cbn [res st log]. by rewrite Hst, Hlog.
Qed.

Lemma rejects_bind_r {A B} entityName (m : M obj A) (k : A → M obj B) field :
  rejects entityName m field ∨ passes m field →
  (∀ a, rejects entityName (k a) field) →
  rejects entityName (m ≫= k) field.
Proof.
  intros [Hm|Hm] Hk; [by apply rejects_bind_l|].
  destruct (passes_then m k field Hm) as (a & Hres & Hst & _).
  destruct (Hk a) as (msg & ? & ? & ?). exists msg. by rewrite Hres, Hst.
Qed.

Lemma passes_bind {A B} (m : M obj A) (k : A → M obj B) field :
  passes m field → (∀ a, passes (k a) field) → passes (m ≫= k) field.
Proof.
  intros Hm Hk. destruct (passes_then m k field Hm) as (a & Hres & Hst & Hlog).
  destruct (Hk a) as (b & ? & ? & ?). exists b. by rewrite Hres, Hst, Hlog.
Qed.

Lemma checks_bind {A B} entityName (m : M obj A) (k : A → M obj B) field :
  rejects entityName m field ∨ passes m field →
  (∀ a, rejects entityName (k a) field ∨ passes (k a) field) →
  rejects entityName (m ≫= k) field ∨ passes (m ≫= k) field.
Proof.
  intros [Hm|Hm] Hk; [left; by apply rejects_bind_l|].
  destruct (passes_then m k field Hm) as (a & Hres & Hst & Hlog).
  destruct (Hk a) as [(msg & ? & ? & ?)|(b & ? & ? & ?)].
  - left. exists msg. by rewrite Hres, Hst.
  - right. exists b. by rewrite Hres, Hst, Hlog.
Qed.

Lemma passes_ret {A} (a : A) field : passes (mret a) field.
Proof. by exists a. Qed.

Lemma passes_get_bind {B} (k : obj → M obj B) field :
  passes (k field) field → passes (get ≫= k) field.
Proof. intros (b & ? & ? & ?). by exists b. Qed.

Lemma rejects_get {B} entityName (k : obj → M obj B) field :
  rejects entityName (k field) field → rejects entityName (get ≫= k) field.
Proof. intros (msg & ? & ? & ?). by exists msg. Qed.

Lemma rejects_throw {A} entityName msg field :
  naming entityName msg → rejects (A:=A) entityName (throw msg) field.
Proof.
  intros Hmsg. eexists. split; [reflexivity|]. split; [done|]. apply Hmsg.
Qed.

(** A guarded [this.error]. *)
Lemma checks_guard entityName (c : obj → bool) msg field :
  naming entityName msg →
  let m := ifS c (throw msg) in
  (c field = true → rejects entityName m field)
  ∧ (c field = false → passes m field)
  ∧ (rejects entityName m field ∨ passes m field).
Proof.
  intros Hmsg. cbn zeta. unfold ifS, when.
  assert (c field = true →
          rejects entityName
            (get ≫= λ s, if c s then throw msg else mret ()) field) as Hyes.
  { intros Hc. apply rejects_get. rewrite Hc. by apply rejects_throw. }
  assert (c field = false →
          passes (get ≫= λ s, if c s then throw msg else mret ()) field) as Hno.
  { intros Hc. apply passes_get_bind. rewrite Hc. by exists (). }
  split; [done|]. split; [done|].
  destruct (c field); [left; by apply Hyes|right; by apply Hno].
Qed.

Lemma includes_string (rules : list val) rule :
  VStr rule ∈ rules → includes (Some <$> rules) (str rule) = true.
Proof.
  intros Hin. unfold includes. apply existsb_exists. exists (str rule).
  split; [|apply String.eqb_refl].
  apply list_elem_of_In, list_elem_of_fmap. by exists (VStr rule).
Qed.

Lemma requireCompanion_checks entityName rules rule companion field :
  let m := requireCompanion entityName rules rule companion in
  (VStr rule ∈ rules → field !! companion = None → rejects entityName m field)
  ∧ (rejects entityName m field ∨ passes m field).
Proof.
  cbn zeta. unfold requireCompanion.
  edestruct checks_guard as (Hyes & _ & Hany); [|split; [|exact Hany]]; [naming_tac|].
  intros Hin Hnone. apply Hyes. cbn beta.
  rewrite includes_string by done. by rewrite Hnone.
Qed.

Lemma includes_string_inv (rules : list val) rule :
  includes (Some <$> rules) (str rule) = true → VStr rule ∈ rules.
Proof.
  unfold includes. rewrite existsb_exists. intros (v & Hin & Heq).
  apply list_elem_of_In, list_elem_of_fmap in Hin as (w & -> & Hw).
  destruct w; try done. by apply String.eqb_eq in Heq as ->.
Qed.

Lemma requireCompanion_passes entityName rules rule companion field :
  (VStr rule ∈ rules → field !! companion ≠ None) →
  passes (requireCompanion entityName rules rule companion) field.
Proof.
  intros Hok. unfold requireCompanion.
  edestruct (checks_guard entityName) as (_ & Hno & _); [|apply Hno]; [naming_tac|].
  cbn beta. destruct (includes _ _) eqn:Hinc; [|reflexivity].
  apply includes_string_inv, Hok in Hinc. by destruct (field !! companion).
Qed.

Lemma supportedRules_checks entityName (rules : list val) field :
  let m := forM_ rules (λ fieldValidateRule,
      when (negb (oneOf SUPPORTED_VALIDATION_RULES (Some fieldValidateRule)))
        (throw (λ field,
           "fieldValidateRules contains unknown validation rule "
           +:+ tpl (Some fieldValidateRule) +:+ inJson entityName "field" field
           +:+ " [supported validation rules "
           +:+ String.concat "," SUPPORTED_VALIDATION_RULES +:+ "]"))) in
  rejects entityName m field ∨ passes m field.
Proof.
  cbn zeta. induction rules as [|rule rules IH]; simpl; [right; apply passes_ret|].
  apply checks_bind; [|by intros _].
  destruct (negb (oneOf SUPPORTED_VALIDATION_RULES (Some rule))); simpl;
    [left|right; apply passes_ret].
  apply rejects_throw. naming_tac.
Qed.

Lemma supportedRules_passes entityName (rules : list val) field :
  Forall (λ rule, oneOf SUPPORTED_VALIDATION_RULES (Some rule) = true) rules →
  passes
    (forM_ rules (λ fieldValidateRule,
      when (negb (oneOf SUPPORTED_VALIDATION_RULES (Some fieldValidateRule)))
        (throw (λ field,
           "fieldValidateRules contains unknown validation rule "
           +:+ tpl (Some fieldValidateRule) +:+ inJson entityName "field" field
           +:+ " [supported validation rules "
           +:+ String.concat "," SUPPORTED_VALIDATION_RULES +:+ "]")))) field.
Proof.
  induction 1 as [|rule rules Hrule _ IH]; simpl; [apply passes_ret|].
  apply passes_bind; [|by intros _]. rewrite Hrule. apply passes_ret.
Qed.

Lemma outcome_bind {A B} entityName (m : M obj A) (k : A → M obj B) field :
  rejects entityName m field ∨ passes m field →
  (∀ a, rejects entityName (k a) field ∨ succeeded (k a field)) →
  rejects entityName (m ≫= k) field ∨ succeeded ((m ≫= k) field).
Proof.
  intros [Hm|Hm] Hk; [left; by apply rejects_bind_l|].
  destruct (passes_then m k field Hm) as (a & Hres & Hst & _).
  destruct (Hk a) as [(msg & ? & ? & ?)|Hok].
  - left. exists msg. by rewrite Hres, Hst.
  - right. unfold succeeded. by rewrite Hres.
Qed.

Ltac guard_checks :=
  edestruct checks_guard as (_ & _ & Hany); [|exact Hany]; naming_tac.

(** Every way [validateField] has to fail is a [SchemaError] that names the
    entity and the field, thrown before the field was written to. *)
Lemma validateField_outcome entityName field :
  rejects entityName (validateField entityName) field
  ∨ succeeded (validateField entityName field).
Proof.
  unfold validateField.
  apply outcome_bind; [guard_checks|intros _].
  apply outcome_bind; [guard_checks|intros _].
  apply outcome_bind; [right; by exists field|intros f].
  destruct (f !! "fieldValidateRules") as [[| | | |rules|]|];
    try (left; apply rejects_throw; naming_tac); [|by right].
  apply outcome_bind; [apply supportedRules_checks|intros _].
  do 7 (apply outcome_bind; [apply requireCompanion_checks|intros _]).
  right. eapply returns_succeeded with (Q := λ _ _, True). run.
  by destruct (isStr _ _); run.
Qed.

Lemma companion_missing_rejects entityName field rules rule companion :
  field !! "fieldValidateRules" = Some (VArr rules) →
  (rule, companion) ∈ companions →
  VStr rule ∈ rules →
  field !! companion = None →
  rejects entityName (validateField entityName) field.
Proof.
  intros Hrules Hin Hrule Hnone. unfold validateField.
  apply rejects_bind_r; [guard_checks|intros _].
  apply rejects_bind_r; [guard_checks|intros _].
  apply rejects_get. rewrite Hrules.
  apply rejects_bind_r; [apply supportedRules_checks|intros _].
  unfold companions in Hin.
  repeat (apply elem_of_cons in Hin as [Hin|Hin]); [..|by apply elem_of_nil in Hin];
    injection Hin as -> ->;
    repeat first
      [ apply rejects_bind_l; by apply requireCompanion_checks
      | apply rejects_bind_r; [apply requireCompanion_checks|intros _] ].
Qed.

(** Whole-document validation. *)

Lemma forEach_cons {C X} (body : M (C * X) unit) x (xs : list X) (c : C) :
  forEach body (x :: xs) c =
  match res (body (c, x)) with
  | inl e => mkOut (fst (st (body (c, x))), snd (st (body (c, x))) :: xs)
               (log (body (c, x))) (inl e)
  | inr _ =>
    let o' := forEach body xs (fst (st (body (c, x)))) in
    mkOut (fst (st o'), snd (st (body (c, x))) :: snd (st o'))
          (log (body (c, x)) ++ log o') (res o')
  end.
Proof. reflexivity. Qed.

Lemma forEach_onSnd_run {C X} (m : M X unit) (xs : list X) (c : C) :
  let o := forEach (onSnd m) xs c in
  (Forall (λ x, succeeded (m x)) xs
   ∧ res o = inr () ∧ st o = (c, (λ x, st (m x)) <$> xs))
  ∨ (∃ before x after e,
       xs = before ++ x :: after
       ∧ Forall (λ x, succeeded (m x)) before
       ∧ res (m x) = inl e
       ∧ res o = inl e
       ∧ st o = (c, ((λ x, st (m x)) <$> before) ++ st (m x) :: after)).
Proof.
  cbn zeta. revert c. induction xs as [|x xs IH]; intros c; [by left|].
  rewrite forEach_cons.
  change (onSnd m (c, x)) with (mkOut (c, st (m x)) (log (m x)) (res (m x))).
  cbn [res st log fst snd].
  destruct (res (m x)) as [e|[]] eqn:Hx.
  - right. exists [], x, xs, e. by rewrite Hx.
  - cbn zeta. cbn [res st log fst snd].
    destruct (IH c) as [(Hall & Hres & Hst)|(before & y & after & e & -> & Hall & Hy & Hres & Hst)].
    + left. split; [|by rewrite Hres, Hst].
      constructor; [|done]. unfold succeeded. by rewrite Hx.
    + right. exists (x :: before), y, after, e. rewrite Hres, Hst.
      split; [done|]. split; [|done].
      constructor; [|done]. unfold succeeded. by rewrite Hx.
Qed.

Lemma bind_fails {S A B} (m : M S A) (k : A → M S B) s e :
  res (m s) = inl e →
  res ((m ≫= k) s) = inl e ∧ st ((m ≫= k) s) = st (m s).
Proof. intros Hm. rewrite bind_run, Hm. done. Qed.

Lemma validateFile_fields context :
  let o := forEachOf fields set_fields (onSnd (validateField (name context))) context in
  ∀ e, res o = inl e →
    res (validateFile context) = inl e ∧ st (validateFile context) = st o.
Proof.
  cbn zeta. intros e He. unfold validateFile. rewrite bind_run. cbn [get res st log].
  by apply bind_fails.
Qed.

(** C6. A field that carries a validation rule which needs a companion
    parameter (max, min, maxlength, minlength, maxbytes, minbytes, pattern)
    and lacks that parameter makes validation fail with a [SchemaError]:
    the check of that field throws one whose message names the entity and
    the field, and [validateFile] on a document with such a field throws one
    that names the entity and the field it stopped at. *)
Theorem missing_companion_is_schema_error context field rules rule companion :
  field ∈ fields context →
  field !! "fieldValidateRules" = Some (VArr rules) →
  (rule, companion) ∈ companions →
  VStr rule ∈ rules →
  field !! companion = None →
  rejects (name context) (validateField (name context)) field
  ∧ ∃ msg culprit,
      culprit ∈ fields context
      ∧ res (validateFile context) = inl (SchemaError msg)
      ∧ mentions msg (name context)
      ∧ mentions msg (stringify (VObj culprit)).
Proof.
  intros Hin Hrules Hcomp Hrule Hnone.
  assert (rejects (name context) (validateField (name context)) field) as Hrej
    by (apply (companion_missing_rejects _ _ rules rule companion); assumption).
  split; [done|].
  destruct (forEach_onSnd_run (validateField (name context)) (fields context) context)
    as [(Hall & _)|(before & x & after & e & Hxs & _ & Hx & Hres & _)].
  - rewrite Forall_forall in Hall. apply Hall in Hin.
    destruct Hrej as (msg & Hres & _). unfold succeeded in Hin. by rewrite Hres in Hin.
  - destruct (validateField_outcome (name context) x)
      as [(msg & Hres' & _ & ? & ?)|Hok];
      [|unfold succeeded in Hok; by rewrite Hx in Hok].
    exists msg, x. split; [rewrite Hxs; apply elem_of_app; right; by left|]. split; [|done].
    apply validateFile_fields. unfold forEachOf. cbn [res]. congruence.
Qed.

End FieldValidation.

(** An [Integer] field with the rule [max] and no [fieldValidateRulesMax]. *)
Lemma missing_companion_witness :
  let L := Sample.lib ∅ in
  let field : obj :=
    {[ "fieldName" := VStr "age"; "fieldType" := VStr "Integer";
       "fieldValidateRules" := VArr [VStr "max"] ]} in
  let context := Sample.context "Person" ∅ [field] [] in
  (field ∈ fields context
   ∧ field !! "fieldValidateRules" = Some (VArr [VStr "max"])
   ∧ ("max", "fieldValidateRulesMax") ∈ companions
   ∧ VStr "max" ∈ [VStr "max"]
   ∧ field !! "fieldValidateRulesMax" = None)
  ∧ (rejects (H:=L) (name context) (validateField (H:=L) (name context)) field
     ∧ ∃ msg culprit,
         culprit ∈ fields context
         ∧ res (validateFile (H:=L) context) = inl (SchemaError msg)
         ∧ mentions msg (name context)
         ∧ mentions msg (stringify (Lib:=L) (VObj culprit))).
Proof.
  cbn zeta. apply use_hypotheses.
  - repeat split; first [constructor | vm_compute; reflexivity].
  - intros (H1 & H2 & H3 & H4 & H5).
    exact (missing_companion_is_schema_error (H:=Sample.lib ∅) _ _ _ _ _ H1 H2 H3 H4 H5).
Defined.

(** ** What a computation can throw *)

Section Throwing.
Context {S : Type} (P : error → Prop).














End Throwing.




(** ** Validation of a relationship, and the failing document *)

Section RelationshipValidation.
Context `{Lib}.





(** The three steps of [validateFile]. *)
Lemma validateFile_run context :
  validateFile context =
  (forEachOf fields set_fields (onSnd (validateField (name context)));;
   forEachOf relationships set_relationships
     (onSnd (validateRelationship (name context)));;
   validateRoot) context.
Proof.
  unfold validateFile. rewrite (bind_run get). cbn [get res st log app]. cbv zeta.
  match goal with |- mkOut (st ?x) _ _ = _ => by destruct x end.
Qed.



End RelationshipValidation.

Section Aborting.
Context `{Lib}.


Lemma validateRoot_returns context : returns validateRoot (λ _ _, True) context.
Proof.
  unfold validateRoot, rootFallback. run.
  repeat (match goal with |- context [if ?b then _ else _] => destruct b end; run);
    done.
Qed.



End Aborting.



(** ** Validation rules on binary fields *)

Section Binary.
Context `{Lib}.

Lemma loadField_rules_stable :
  stable (λ s : FieldState, snd s !! "fieldValidateRules") loadField.
Proof. stable_tac. Qed.

(** Line 686: when [loadField] returns, [fieldValidate] tells whether the
    field has a non-empty array of rules. *)
Lemma loadField_fieldValidate (s : FieldState) :
  wp loadField
    (λ _ s', snd s' !! "fieldValidate"
             = boolean (hasRules (snd s !! "fieldValidateRules"))
             ∧ snd s' !! "fieldValidateRules" = snd s !! "fieldValidateRules")
    s.
Proof.
  unfold loadField. run.
  apply wp_stable with (obs := λ s : FieldState, snd s !! "fieldValidateRules");
    [intros; stable_tac|].
  intros fieldType s1 H1. cbn beta in H1. run.
  apply wp_stable with (obs := λ s : FieldState, snd s !! "fieldValidateRules");
    [intros; stable_tac|].
  intros [] s2 H2. cbn beta in H2. run.
  apply wp_stable
    with (obs := λ s : FieldState,
                   (snd s !! "fieldValidate", snd s !! "fieldValidateRules"));
    [intros; stable_tac|].
  intros [] s3 H3. cbn beta in H3. cbn [fst snd] in H3.
  rewrite lookup_assign_eq, lookup_assign_ne in H3 by done.
  injection H3 as H3a H3b. run.
  destruct (truthy _); run; by rewrite H3a, H3b, H2, H1.
Qed.

(** The checks of [validateField] on accepted rules pass: what remains is
    the treatment of [ByteBuffer]. *)
Lemma validateField_accepted entityName field rules :
  field !! "fieldType" ≠ None →
  field !! "fieldValidateRules" = Some (VArr rules) →
  accepted field rules →
  let rest :=
    ifS (λ field, isStr (field !! "fieldType") "ByteBuffer")
      (warn (λ field,
         "Cannot use validation" +:+ inJson entityName "field" field
         +:+ " " +:+ newline
         +:+ "Hibernate JPA 2 Metamodel does not work with Bean Validation 2 for LOB fields, so LOB validation is disabled");;
       set "validation" (λ _, boolean false);;
       set "fieldValidateRules" (λ _, Some (VArr []))) in
  res (validateField entityName field) = res (rest field)
  ∧ st (validateField entityName field) = st (rest field)
  ∧ log (validateField entityName field) = log (rest field).
Proof.
  intros Htype Hrules (Hname & Hsupported & Hcompanions). cbn zeta.
  unfold validateField.
  assert (∀ c msg, naming entityName msg → c field = false →
                   passes (ifS c (throw msg)) field) as Hguard.
  { intros c msg Hmsg Hc.
    by destruct (checks_guard entityName c msg field Hmsg) as (_ & Hno & _); auto. }
  match goal with |- context [(?m ≫= ?k) field] =>
    destruct (passes_then m k field) as ([] & -> & -> & ->)
  end.
  { apply Hguard; [naming_tac|]. by destruct (field !! "fieldName"). }
  match goal with |- context [(?m ≫= ?k) field] =>
    destruct (passes_then m k field) as ([] & -> & -> & ->)
  end.
  { apply Hguard; [naming_tac|]. by destruct (field !! "fieldType"). }
  rewrite !(bind_run get). cbn [get res st log app]. rewrite Hrules.
  match goal with |- context [(?m ≫= ?k) field] =>
    destruct (passes_then m k field) as ([] & -> & -> & ->)
  end.
  { by apply supportedRules_passes. }
  do 7 (match goal with |- context [(?m ≫= ?k) field] =>
          destruct (passes_then m k field) as ([] & -> & -> & ->);
          [apply requireCompanion_passes, Hcompanions; unfold companions;
           repeat first [by left | right]|]
        end).
  done.
Qed.

(** C2, as the code has it. For a field of type [ByteBuffer] that carries an
    array of rules [validateFile] accepts, validation returns, warns once,
    and leaves the field with [validation] false and an empty array of
    rules; when [loadInMemoryData] then returns on the field, [fieldValidate]
    is false and the array is still empty. *)
Theorem byteBuffer_rules_cleared entityName field rules :
  field !! "fieldType" = str "ByteBuffer" →
  field !! "fieldValidateRules" = Some (VArr rules) →
  accepted field rules →
  let o := validateField entityName field in
  res o = inr ()
  ∧ (∃ text, log o = [text])
  ∧ st o = assign "fieldValidateRules" (Some (VArr []))
             (assign "validation" (boolean false) field)
  ∧ ∀ context,
      wp loadField
        (λ _ s', snd s' !! "fieldValidate" = boolean false
                 ∧ snd s' !! "fieldValidateRules" = Some (VArr []))
        (context, st o).
Proof.
  intros Htype Hrules Hok. cbn zeta.
  destruct (validateField_accepted entityName field rules) as (-> & -> & ->);
    [by rewrite Htype|done|done|].
  match goal with |- context [st ?o] =>
    assert (res o = inr () ∧ (∃ text, log o = [text])
            ∧ st o = assign "fieldValidateRules" (Some (VArr []))
                       (assign "validation" (boolean false) field))
      as (-> & Hlog & ->)
  end.
  { unfold ifS, when. rewrite !(bind_run get). cbn [get res st log app].
    rewrite Htype. split; [done|]. split; [by eexists|done]. }
  split; [done|]. split; [done|]. split; [done|].
  intros context. eapply wp_mono; [|apply loadField_fieldValidate].
  cbn beta. cbn [fst snd]. intros _ s' [-> ->].
  by rewrite lookup_assign_eq.
Qed.

(** A field of type [byte[]] keeps its rules: validation writes nothing and
    warns of nothing, and [fieldValidate] comes out true when the array has
    a rule. *)
Lemma byteArray_rules_kept entityName field rules :
  field !! "fieldType" = str "byte[]" →
  field !! "fieldValidateRules" = Some (VArr rules) →
  accepted field rules →
  let o := validateField entityName field in
  res o = inr () ∧ log o = [] ∧ st o = field
  ∧ ∀ context,
      wp loadField
        (λ _ s', snd s' !! "fieldValidate" = boolean (1 <=? length rules)%nat
                 ∧ snd s' !! "fieldValidateRules" = Some (VArr rules))
        (context, field).
Proof.
  intros Htype Hrules Hok. cbn zeta.
  destruct (validateField_accepted entityName field rules) as (-> & -> & ->);
    [by rewrite Htype|done|done|].
  match goal with |- context [st ?o] =>
    assert (res o = inr () ∧ log o = [] ∧ st o = field) as (-> & -> & ->)
  end.
  { unfold ifS, when. rewrite !(bind_run get). cbn [get res st log app].
    by rewrite Htype. }
  split; [done|]. split; [done|]. split; [done|].
  intros context. eapply wp_mono; [|apply loadField_fieldValidate].
  cbn beta. cbn [fst snd]. intros _ s' [-> ->]. by rewrite Hrules.
Qed.

End Binary.

(** A binary field for Cassandra with the rule [required]. *)
Lemma byteBuffer_rules_witness :
  let L := Sample.lib ∅ in
  let field : obj :=
    {[ "fieldName" := VStr "photo"; "fieldType" := VStr "ByteBuffer";
       "fieldValidateRules" := VArr [VStr "required"] ]} in
  let o := validateField (H:=L) "Pet" field in
  (field !! "fieldType" = str "ByteBuffer"
   ∧ field !! "fieldValidateRules" = Some (VArr [VStr "required"])
   ∧ accepted (H:=L) field [VStr "required"])
  ∧ (res o = inr ()
     ∧ (∃ text, log o = [text])
     ∧ st o = assign "fieldValidateRules" (Some (VArr []))
                (assign "validation" (boolean false) field)
     ∧ ∀ context,
         wp (loadField (H:=L))
           (λ _ s', snd s' !! "fieldValidate" = boolean false
                    ∧ snd s' !! "fieldValidateRules" = Some (VArr []))
           (context, st o)).
Proof.
  cbn zeta. apply use_hypotheses.
  - split; [vm_compute; reflexivity|]. split; [vm_compute; reflexivity|].
    split; [vm_compute; discriminate|].
    split; [repeat constructor|].
    intros rule companion Hin Hrule.
    apply list_elem_of_singleton in Hrule as [= ->].
    unfold companions in Hin.
    repeat (apply elem_of_cons in Hin as [[=]|Hin]). by apply elem_of_nil in Hin.
  - intros (H1 & H2 & H3).
    exact (byteBuffer_rules_cleared (H:=Sample.lib ∅) _ _ _ H1 H2 H3).
Defined.

(** C2 as stated fails on the other binary type: a [byte[]] field with the
    rule [required] goes through validation without a warning and with its
    rule, and comes out of [loadInMemoryData] with [fieldValidate] true. *)
Lemma byteArray_rules_survive :
  let L := Sample.lib ∅ in
  let field : obj :=
    {[ "fieldName" := VStr "photo"; "fieldType" := VStr "byte[]";
       "fieldValidateRules" := VArr [VStr "required"] ]} in
  let context := Sample.context "Pet" {[ "prodDatabaseType" := VStr "mysql" ]} [field] [] in
  let validated := validateField (H:=L) "Pet" field in
  let loaded := loadField (H:=L) (context, st validated) in
  (res validated = inr () ∧ log validated = []
   ∧ res loaded = inr ()
   ∧ snd (st loaded) !! "fieldValidate" = boolean true
   ∧ snd (st loaded) !! "fieldValidateRules" = Some (VArr [VStr "required"]))
  ∧ ¬ (snd (st loaded) !! "fieldValidate" = boolean false
       ∧ snd (st loaded) !! "fieldValidateRules" = Some (VArr [])
       ∧ length (log validated) = 1).
Proof.
  cbn zeta. split; [repeat split; vm_compute; reflexivity|].
  intros (Hflag & _). vm_compute in Hflag. discriminate.
Qed.
(** ** The table name *)

Section TableName.
Context `{Lib}.

(** C8. For a table name that is a reserved word of the production
    database, table name validation does not fail and warns once: with a
    table prefix it resolves the table name to the prefix, an underscore and
    the name, without one it leaves the name, and the rest of the context,
    unchanged.  The name is the one the context holds when the phase
    validates it (lines 272-277), where it is what [getTableName] made of the
    entity's name or of the table-name option (lines 1213, 1275): the word
    [group] for an entity [Group], which becomes [jhi_group]. *)
Theorem reserved_table_name_prefixed context (tableName : string) :
  onlyWordChars tableName = true →
  tableName ≠ "" →
  isReservedTableName (str tableName) (cfg context !! "prodDatabaseType") = Some true →
  let prefix := cfg context !! "jhiTablePrefix" in
  let o := _validateTableName (str tableName) context in
  res o = inr Valid
  ∧ (∃ text, log o = [text])
  ∧ st o = (if truthy prefix
            then set_cfg (assign "entityTableName"
                            (str (tpl prefix +:+ "_" +:+ tableName))) context
            else context)
  ∧ (cfg context !! "entityTableName" = str tableName →
     res (validateTableName context) = inr ()
     ∧ log (validateTableName context) = log o
     ∧ st (validateTableName context) = st o).
Proof.
  intros Hword Hne Hreserved. cbn zeta.
  assert (∃ text,
            _validateTableName (str tableName) context
            = mkOut (if truthy (cfg context !! "jhiTablePrefix")
                     then set_cfg (assign "entityTableName"
                                     (str (tpl (cfg context !! "jhiTablePrefix")
                                           +:+ "_" +:+ tableName))) context
                     else context)
                    [text] (inr Valid)) as [text Hrun].
  { unfold _validateTableName.
    rewrite (bind_run get). cbn [get res st log app].
    cbn [tpl str]. rewrite Hword. cbn [negb].
    assert (isStr (str tableName) "" = false) as ->.
    { apply not_true_is_false. intros Heq%isStr_true. by injection Heq. }
    rewrite bind_run. unfold reservedTableName. rewrite Hreserved.
    destruct (truthy (cfg context !! "jhiTablePrefix")); by eauto. }
  rewrite Hrun. cbn [res log st].
  split; [done|]. split; [by eauto|]. split; [done|].
  intros Hname. unfold validateTableName.
  rewrite (bind_run get). cbn [get res st log app].
  rewrite bind_run, Hname, Hrun. by cbn [res log st].
Qed.

End TableName.

(** The entity [Group] of an application with the prefix [jhi] on MySQL:
    its table name [group] becomes [jhi_group]. *)
Lemma reserved_table_name_witness :
  let L := Sample.lib ∅ in
  let context :=
    Sample.context "Group"
      {[ "jhiTablePrefix" := VStr "jhi"; "prodDatabaseType" := VStr "mysql";
         "entityTableName" := VStr "group" ]} [] [] in
  let prefix := cfg context !! "jhiTablePrefix" in
  let o := _validateTableName (H:=L) (str "group") context in
  (onlyWordChars "group" = true
   ∧ "group" ≠ ""
   ∧ isReservedTableName (Lib:=L) (str "group") (cfg context !! "prodDatabaseType")
     = Some true)
  ∧ (res o = inr Valid
     ∧ (∃ text, log o = [text])
     ∧ st o = (if truthy prefix
               then set_cfg (assign "entityTableName"
                               (str (tpl (H:=L) prefix +:+ "_" +:+ "group"))) context
               else context)
     ∧ (cfg context !! "entityTableName" = str "group" →
        res (validateTableName (H:=L) context) = inr ()
        ∧ log (validateTableName (H:=L) context) = log o
        ∧ st (validateTableName (H:=L) context) = st o)).
Proof.
  cbn zeta. apply use_hypotheses.
  - split; [vm_compute; reflexivity|]. split; [discriminate|vm_compute; reflexivity].
  - intros (H1 & H2 & H3).
    exact (reserved_table_name_prefixed (H:=Sample.lib ∅) _ _ H1 H2 H3).
Defined.

(** The same entity: the phase returns with the table name [jhi_group];
    without a prefix it returns with the table name [group] and a warning. *)
Lemma reserved_table_name_example :
  let L := Sample.lib ∅ in
  let context prefix :=
    Sample.context "Group"
      {[ "jhiTablePrefix" := VStr prefix; "prodDatabaseType" := VStr "mysql";
         "entityTableName" := VStr "group" ]} [] [] in
  let o prefix := validateTableName (H:=L) (context prefix) in
  (res (o "jhi") = inr ()
   ∧ cfg (st (o "jhi")) !! "entityTableName" = str "jhi_group"
   ∧ length (log (o "jhi")) = 1)
  ∧ (res (o "") = inr ()
     ∧ st (o "") = context ""
     ∧ length (log (o "")) = 1).
Proof. cbn zeta. repeat split; vm_compute; reflexivity. Qed.

(** ** The field callback, run again *)

(** Properties an element keeps. *)

Lemma kept_bind {C A B} k (m : M (C * obj) A) (f : A → M (C * obj) B) :
  kept k m → (∀ a, kept k (f a)) → kept k (m ≫= f).
Proof.
  intros Hm Hf s Hs. rewrite bind_run.
  destruct (res (m s)) as [e|a]; cbn [st]; [by apply Hm|].
  rewrite Hf; [by apply Hm|]. by rewrite Hm.
Qed.

Lemma kept_of_stable {C A} k (m : M (C * obj) A) :
  stable (λ s : C * obj, snd s !! k) m → kept k m.
Proof. intros Hm s _. apply Hm. Qed.

Lemma kept_unlessDefined {C} k (m : M (C * obj) unit) : kept k (unlessDefined k m).
Proof.
  intros s Hs. unfold unlessDefined, ifS, when. rewrite bind_run. cbn [get res st].
  destruct (s.2 !! k) eqn:E; [|done]. cbn. by rewrite E.
Qed.

Ltac kept_tac :=
  repeat first
    [ apply kept_unlessDefined
    | apply kept_of_stable; solve [stable_tac]
    | apply kept_bind; [|intros ?]
    | match goal with |- kept _ ?m => let h := head_of m in unfold h end ].

Section Idempotence.
Context `{Lib}.

Lemma quiet_bind {A B} (m : M FieldState A) (k : A → M FieldState B) field :
  quiet m field → (∀ a, quiet (k a) field) → quiet (m ≫= k) field.
Proof.
  intros Hm Hk context. destruct (Hm context) as (a & c1 & Hres & Hst & Hlog).
  destruct (Hk a c1) as (b & c2 & Hres' & Hst' & Hlog').
  exists b, c2. rewrite bind_run, Hres. cbn [res st log].
  by rewrite Hst, Hres', Hst', Hlog, Hlog'.
Qed.

Lemma quiet_ret {A} (a : A) field : quiet (mret a) field.
Proof. intros context. by exists a, context. Qed.

Lemma quiet_gets {A} (f : FieldState → A) field : quiet (gets f) field.
Proof. intros context. by exists (f (context, field)), context. Qed.

Lemma quiet_get_bind {B} (k : FieldState → M FieldState B) field :
  (∀ context, quiet (k (context, field)) field) → quiet (get ≫= k) field.
Proof.
  intros Hk context. destruct (Hk context context) as (b & c' & ? & ? & ?).
  by exists b, c'.
Qed.

Lemma quiet_ret_bind {A B} (a : A) (k : A → M FieldState B) field :
  quiet (k a) field → quiet (mret a ≫= k) field.
Proof.
  intros Hk context. destruct (Hk context) as (b & c' & ? & ? & ?). by exists b, c'.
Qed.

Lemma quiet_gets_bind {A B} (f : FieldState → A) (k : A → M FieldState B) field :
  (∀ context, quiet (k (f (context, field))) field) → quiet (gets f ≫= k) field.
Proof.
  intros Hk context. destruct (Hk context context) as (b & c' & ? & ? & ?).
  by exists b, c'.
Qed.

Lemma quiet_modify_context (f : FieldState → Context) field :
  quiet (modify (λ s, (f s, snd s))) field.
Proof. intros context. by exists (), (f (context, field)). Qed.

Lemma quiet_fcset k e field : quiet (fcset k e) field.
Proof. apply quiet_modify_context. Qed.

Lemma quiet_fset k e field :
  (∀ context, e (context, field) = field !! k) → quiet (fset k e) field.
Proof.
  intros He context. exists (), context. unfold fset, modify. cbn [res st log fst snd].
  by rewrite He, assign_id.
Qed.

Lemma quiet_when b (m : M FieldState unit) field :
  (b = true → quiet m field) → quiet (when b m) field.
Proof. destruct b; [auto|]. intros _. apply quiet_ret. Qed.

Lemma quiet_ifS c (m : M FieldState unit) field :
  (∀ context, c (context, field) = true → quiet m field) → quiet (ifS c m) field.
Proof.
  intros Hm. apply quiet_get_bind. intros context. apply quiet_when. apply Hm.
Qed.

Lemma quiet_ifElseS c (m1 m2 : M FieldState unit) field :
  quiet m1 field → quiet m2 field → quiet (ifElseS c m1 m2) field.
Proof.
  intros H1 H2. apply quiet_get_bind. intros context.
  by destruct (c (context, field)).
Qed.

Lemma quiet_skip k (m : M FieldState unit) field :
  field !! k ≠ None → quiet (unlessDefined k m) field.
Proof.
  intros Hk. apply quiet_ifS. intros context. cbn [snd].
  by destruct (field !! k).
Qed.

Lemma quiet_fieldTypeFlags fieldType field : quiet (fieldTypeFlags fieldType) field.
Proof.
  unfold fieldTypeFlags.
  repeat match goal with
  | |- quiet (if ?b then _ else _) _ => destruct b
  | |- quiet (_ ≫= _) _ => apply quiet_bind; [|intros ?]
  | |- quiet (fcset _ _) _ => apply quiet_fcset
  | |- quiet (mret _) _ => apply quiet_ret
  | |- quiet (modify _) _ => apply quiet_modify_context
  | |- quiet (ifS _ _) _ => apply quiet_ifS; intros ? ?
  | |- quiet (ifElseS _ _ _) _ => apply quiet_ifElseS
  end.
Qed.

Lemma quiet_pattern variant (f : string → string) field :
  settled field variant →
  quiet (unlessDefined variant
           (s ← get;
            v ← escaped f (snd s !! "fieldValidateRulesPattern");
            fset variant (λ _, v))) field.
Proof.
  intros [Hthere|Hnone]; [by apply quiet_skip|].
  apply quiet_ifS. intros context Hundef. cbn [snd] in Hundef.
  apply quiet_get_bind. intros context'. cbn [snd]. rewrite Hnone.
  unfold escaped. cbn [truthy]. apply quiet_ret_bind.
  apply quiet_fset. intros _. by destruct (field !! variant).
Qed.

Lemma migrated_idem fieldType : migrated (migrated fieldType) = migrated fieldType.
Proof.
  unfold migrated.
  destruct (isStr fieldType "DateTime" || isStr fieldType "Date") eqn:E; [done|].
  by rewrite E.
Qed.

Lemma migrated_fixed fieldType :
  migrated fieldType = fieldType →
  isStr fieldType "DateTime" || isStr fieldType "Date" = false.
Proof.
  unfold migrated.
  destruct (isStr fieldType "DateTime" || isStr fieldType "Date") eqn:E; [|done].
  intros Heq. rewrite <- Heq in E. vm_compute in E. discriminate.
Qed.

(** On a normalized field the callback changes nothing and warns of nothing. *)
Lemma loadField_quiet field : normalized field → quiet loadField field.
Proof.
  intros (Htype & Henum & Hcap & Hund & Hcol & Hhum & Hbean & HJ & HA & HR & Hval).
  apply migrated_fixed in Htype.
  unfold loadField. apply quiet_gets_bind. intros ?. cbn [snd]. cbv zeta.
  apply quiet_bind.
  { unfold classifyField.
    apply quiet_bind; [apply quiet_ifS; intros ?; cbn [snd]; congruence|intros _].
    apply quiet_gets_bind. intros ?. cbn [snd].
    apply quiet_bind; [apply quiet_when; intros _; apply quiet_fcset|intros _].
    apply quiet_bind; [by apply quiet_fset|intros _].
    apply quiet_bind; [apply quiet_ifS; intros; apply quiet_modify_context|intros _].
    apply quiet_ret. }
  intros fieldType. apply quiet_bind.
  { unfold deriveFieldNames.
    do 5 (apply quiet_bind; [by apply quiet_skip|intros _]).
    do 2 (apply quiet_bind; [by apply quiet_pattern|intros _]).
    by apply quiet_pattern. }
  intros _. apply quiet_bind; [by apply quiet_fset|intros _].
  apply quiet_bind; [apply quiet_fieldTypeFlags|intros _].
  apply quiet_ifS. intros; apply quiet_fcset.
Qed.

(** What one pass establishes. *)

Lemma wp_bind_any {S A B} (m : M S A) (k : A → M S B) Q s :
  (∀ a s', wp (k a) Q s') → wp (m ≫= k) Q s.
Proof. intros Hk. apply wp_bind. unfold wp at 1. destruct (res (m s)); auto. Qed.

Lemma wp_then_stable {S A B X} (obs : S → X) (P : X → Prop)
    (m : M S A) (k : A → M S B) s :
  wp m (λ _ s', P (obs s')) s → (∀ a, stable obs (k a)) →
  wp (m ≫= k) (λ _ s', P (obs s')) s.
Proof.
  intros Hm Hk. apply wp_bind. eapply wp_mono; [|exact Hm].
  intros a s' HP. cbn beta in HP. apply wp_stable with (obs := obs); [apply Hk|].
  intros b s'' ->. done.
Qed.

Lemma wp_unlessDefined {C} k (m : M (C * obj) unit) s :
  (isUndefined (snd s !! k) = true → wp m (λ _ s', snd s' !! k ≠ None) s) →
  wp (unlessDefined k m) (λ _ s', snd s' !! k ≠ None) s.
Proof.
  intros Hm. unfold unlessDefined. run_step.
  destruct (isUndefined (s.2 !! k)) eqn:Hk; [by apply Hm|].
  by destruct (s.2 !! k).
Qed.

Lemma wp_fset_defined {C} k (e : C * obj → jsval) s :
  e s ≠ None → wp (fset k e) (λ _ s', snd s' !! k ≠ None) s.
Proof. intros He. run. by rewrite lookup_assign_eq. Qed.

Lemma wp_pattern variant (f : string → string) (s : FieldState) :
  wp (unlessDefined variant
        (s ← get;
         v ← escaped f (snd s !! "fieldValidateRulesPattern");
         fset variant (λ _, v)))
     (λ _ s', settled (snd s') variant) s.
Proof.
  unfold unlessDefined, settled. run_step.
  destruct (isUndefined (s.2 !! variant)) eqn:Hk;
    [|left; by destruct (s.2 !! variant)].
  run. unfold escaped.
  destruct (s.2 !! "fieldValidateRulesPattern") as [pattern|] eqn:Hp.
  - destruct (truthy (Some pattern)).
    + destruct pattern; run; try done. left. by rewrite lookup_assign_eq.
    + run. left. by rewrite lookup_assign_eq.
  - cbn [truthy]. run. right. rewrite lookup_assign. by case_decide.
Qed.

Lemma wp_fieldNameAsDatabaseColumn (s : FieldState) :
  wp fieldNameAsDatabaseColumn
     (λ _ s', snd s' !! "fieldNameAsDatabaseColumn" ≠ None) s.
Proof.
  unfold fieldNameAsDatabaseColumn. run.
  repeat (match goal with |- context [if ?b then _ else _] => destruct b end; run);
    by rewrite lookup_assign_eq.
Qed.

Lemma wp_fieldInJavaBeanMethod (s : FieldState) :
  wp fieldInJavaBeanMethod (λ _ s', snd s' !! "fieldInJavaBeanMethod" ≠ None) s.
Proof.
  unfold fieldInJavaBeanMethod. run.
  destruct (s.2 !! "fieldName") as [[]|]; run;
    repeat (match goal with |- context [if ?b then _ else _] => destruct b end; run);
    by rewrite ?lookup_assign_eq.
Qed.

Lemma settled_then {A B} variant (m : M FieldState A) (k : A → M FieldState B) s :
  wp m (λ _ s', settled (snd s') variant) s →
  (∀ a, stable (λ s : FieldState,
                  (snd s !! variant, snd s !! "fieldValidateRulesPattern")) (k a)) →
  wp (m ≫= k) (λ _ s', settled (snd s') variant) s.
Proof.
  intros Hm Hk.
  exact (wp_then_stable
           (λ s : FieldState, (snd s !! variant, snd s !! "fieldValidateRulesPattern"))
           (λ p, p.1 ≠ None ∨ p.2 = None) m k s Hm Hk).
Qed.

Ltac established k :=
  apply (wp_then_stable (λ s : FieldState, snd s !! k) (λ v, v ≠ None));
  [|intros; stable_tac].

Tactic Notation "skip_blocks" integer(n) := do n (apply wp_bind_any; intros ? ?).

Lemma deriveFieldNames_wp fieldOptions (s : FieldState) :
  wp (deriveFieldNames fieldOptions)
    (λ _ s',
       let field := snd s' in
       field !! "fieldNameCapitalized" ≠ None
       ∧ field !! "fieldNameUnderscored" ≠ None
       ∧ field !! "fieldNameAsDatabaseColumn" ≠ None
       ∧ field !! "fieldNameHumanized" ≠ None
       ∧ field !! "fieldInJavaBeanMethod" ≠ None
       ∧ settled field "fieldValidateRulesPatternJava"
       ∧ settled field "fieldValidateRulesPatternAngular"
       ∧ settled field "fieldValidateRulesPatternReact") s.
Proof.
  cbv zeta. repeat apply wp_and; unfold deriveFieldNames.
  - established "fieldNameCapitalized".
    apply wp_unlessDefined. intros _. by apply wp_fset_defined.
  - skip_blocks 1. established "fieldNameUnderscored".
    apply wp_unlessDefined. intros _. by apply wp_fset_defined.
  - skip_blocks 2. established "fieldNameAsDatabaseColumn".
    apply wp_unlessDefined. intros _. apply wp_fieldNameAsDatabaseColumn.
  - skip_blocks 3. established "fieldNameHumanized".
    apply wp_unlessDefined. intros _. apply wp_fset_defined.
    unfold orElse.
    destruct (fieldOptions "fieldNameHumanized") as [v|]; [by destruct (truthy _)|done].
  - skip_blocks 4. established "fieldInJavaBeanMethod".
    apply wp_unlessDefined. intros _. apply wp_fieldInJavaBeanMethod.
  - skip_blocks 5. apply settled_then; [apply wp_pattern|intros; stable_tac].
  - skip_blocks 6. apply settled_then; [apply wp_pattern|intros; stable_tac].
  - skip_blocks 7. apply wp_pattern.
Qed.

Lemma loadField_names (s : FieldState) :
  wp loadField
    (λ _ s',
       let field := snd s' in
       field !! "fieldNameCapitalized" ≠ None
       ∧ field !! "fieldNameUnderscored" ≠ None
       ∧ field !! "fieldNameAsDatabaseColumn" ≠ None
       ∧ field !! "fieldNameHumanized" ≠ None
       ∧ field !! "fieldInJavaBeanMethod" ≠ None
       ∧ settled field "fieldValidateRulesPatternJava"
       ∧ settled field "fieldValidateRulesPatternAngular"
       ∧ settled field "fieldValidateRulesPatternReact") s.
Proof.
  cbv zeta. unfold loadField. apply wp_bind, wp_gets. cbv zeta.
  apply wp_bind_any. intros fieldType s1.
  repeat apply wp_and.
  1-5: match goal with |- wp _ (λ _ s', snd s' !! ?k ≠ None) _ =>
         established k;
         eapply wp_mono; [|apply deriveFieldNames_wp]; cbv beta zeta; intros; tauto
       end.
  1-3: (apply settled_then; [|intros; stable_tac]);
       eapply wp_mono; [|apply deriveFieldNames_wp]; cbv beta zeta; intros; tauto.
Qed.

Lemma wp_always {S A} (m : M S A) (P : S → Prop) s :
  P (st (m s)) → wp m (λ _ s', P s') s.
Proof. intros HP. unfold wp. by destruct (res (m s)). Qed.

(** One pass leaves the field normalized. *)
Lemma loadField_normalizes (s : FieldState) :
  wp loadField (λ _ s', normalized (snd s')) s.
Proof.
  eapply wp_mono;
    [|apply wp_and;
       [apply wp_and; [apply loadField_names|apply (loadField_fieldValidate s)]
       |apply (wp_always loadField
                 (λ s', snd s' !! "fieldType" = migrated (snd s !! "fieldType")
                        ∧ snd s' !! "fieldIsEnum"
                          = boolean (negb (oneOf primitiveTypes
                                             (migrated (snd s !! "fieldType")))))),
              loadField_classified]].
  cbv zeta.
  intros [] s' (((? & ? & ? & ? & ? & ? & ? & ?) & Hval & Hrules) & Htype & Henum).
  unfold normalized. rewrite Htype, Henum, Hval, Hrules, migrated_idem.
  repeat split; done.
Qed.

Lemma loadField_kept k : k ∈ derivedOnce → kept k loadField.
Proof.
  unfold derivedOnce. intros Hk.
  repeat (apply elem_of_cons in Hk as [->|Hk]); [..|by apply elem_of_nil in Hk];
    kept_tac.
Qed.

(** C5, as the code has it. Running the field callback on its own output
    changes nothing: when a pass returns, a second pass on the field it
    left, in whatever context, returns too, leaves the field as it is and
    warns of nothing. The eight name and pattern attributes are derived only
    when absent, so a value already there is never overwritten, by the first
    pass or by a later one. *)
Theorem loadField_idempotent (s : FieldState) :
  succeeded (loadField s) →
  (∀ context,
     let again := loadField (context, snd (st (loadField s))) in
     res again = inr () ∧ snd (st again) = snd (st (loadField s)) ∧ log again = [])
  ∧ (∀ k, k ∈ derivedOnce → snd s !! k ≠ None →
          snd (st (loadField s)) !! k = snd s !! k).
Proof.
  intros Hok. split.
  - intros context. cbv zeta.
    destruct (wp_succeeded _ _ _ (loadField_normalizes s) Hok) as (_ & _ & Hnorm).
    destruct (loadField_quiet _ Hnorm context) as ([] & c' & -> & -> & ->). done.
  - intros k Hk Hdef. by apply loadField_kept.
Qed.

End Idempotence.

(** A [String] field with a name of its own for the bean method. *)
Lemma loadField_idempotent_witness :
  let L := Sample.lib ∅ in
  let field : obj :=
    {[ "fieldName" := VStr "firstName"; "fieldType" := VStr "String";
       "fieldInJavaBeanMethod" := VStr "GivenName" ]} in
  let context := Sample.context "Person" {[ "prodDatabaseType" := VStr "mysql" ]} [field] [] in
  let s := (context, field) in
  succeeded (loadField (H:=L) s)
  ∧ ((∀ context,
        let again := loadField (H:=L) (context, snd (st (loadField (H:=L) s))) in
        res again = inr ()
        ∧ snd (st again) = snd (st (loadField (H:=L) s)) ∧ log again = [])
     ∧ (∀ k, k ∈ derivedOnce → snd s !! k ≠ None →
             snd (st (loadField (H:=L) s)) !! k = snd s !! k)).
Proof.
  cbn zeta. apply use_hypotheses.
  - vm_compute. exact I.
  - intros H1. exact (loadField_idempotent (H:=Sample.lib ∅) _ H1).
Defined.

(** C5 as stated fails for [fieldValidate]: it is assigned on every pass,
    and a value the raw field came with is overwritten. *)
Lemma fieldValidate_recomputed :
  let L := Sample.lib ∅ in
  let field : obj :=
    {[ "fieldName" := VStr "age"; "fieldType" := VStr "Integer";
       "fieldValidate" := VBool true ]} in
  let context := Sample.context "Person" {[ "prodDatabaseType" := VStr "mysql" ]} [field] [] in
  let o := loadField (H:=L) (context, field) in
  res o = inr ()
  ∧ field !! "fieldValidate" = boolean true
  ∧ snd (st o) !! "fieldValidate" = boolean false
  ∧ ¬ (snd (st o) !! "fieldValidate" = field !! "fieldValidate").
Proof.
  cbn zeta. repeat split; try (vm_compute; reflexivity).
  intros Heq. vm_compute in Heq. discriminate.
Qed.
(** ** The aggregates of the relationships *)

Lemma strictEq_eq a b : strictEq a b = true → a = b.
Proof.
  destruct a as [[]|], b as [[]|]; simpl; try done.
  - intros ?%Bool.eqb_prop. congruence.
  - intros ?%Z.eqb_eq. congruence.
  - intros ?%String.eqb_eq. congruence.
Qed.

Lemma includes_cons x l v : includes (x :: l) v = strictEq v x || includes l v.
Proof. reflexivity. Qed.

Lemma includes_filter_other x t l :
  strictEq t x = false →
  includes (filter (λ y, negb (strictEq y x) = true) l) t = includes l t.
Proof.
  intros Htx. induction l as [|y l IH]; [done|].
  rewrite filter_cons. destruct (decide _) as [Hy|Hy].
  - by rewrite !includes_cons, IH.
  - rewrite includes_cons, IH. destruct (strictEq t y) eqn:Hty; [|done].
    apply strictEq_eq in Hty as ->. by rewrite Htx in Hy.
Qed.

Lemma firstOccurrences_snoc l t :
  firstOccurrences (l ++ [t]) =
  if includes (firstOccurrences l) t then firstOccurrences l
  else firstOccurrences l ++ [t].
Proof.
  induction l as [|x l IH]; [done|].
  cbn [app firstOccurrences]. rewrite IH, includes_cons.
  destruct (strictEq t x) eqn:Htx; cbn [orb].
  - destruct (includes (firstOccurrences l) t); [done|].
    rewrite filter_app, filter_cons, decide_False, filter_nil, app_nil_r; [done|].
    by rewrite Htx.
  - rewrite includes_filter_other by done.
    destruct (includes (firstOccurrences l) t); [done|].
    rewrite filter_app, filter_cons, decide_True, filter_nil; [done|].
    by rewrite Htx.
Qed.

Lemma distinct_filter (P : jsval → Prop) `{∀ x, Decision (P x)} l :
  distinct l → distinct (filter P l).
Proof.
  induction 1 as [|x l Hx Hl IH]; [constructor|].
  rewrite filter_cons. destruct (decide (P x)); [|done].
  constructor; [|done].
  apply list.Forall_forall. intros y [_ Hy]%list_elem_of_filter.
  rewrite list.Forall_forall in Hx. by apply Hx.
Qed.

Lemma firstOccurrences_distinct l : distinct (firstOccurrences l).
Proof.
  induction l as [|x l IH]; [constructor|].
  cbn [firstOccurrences]. constructor; [|by apply distinct_filter].
  apply list.Forall_forall. intros y [Hy _]%list_elem_of_filter.
  by apply negb_true_iff.
Qed.

Lemma filed_snoc l (r : obj) : filed (l ++ [r]) = Some (l ++ [r]).
Proof. by destruct l. Qed.

Lemma default_filed l : default [] (filed l) = l.
Proof. by destruct l. Qed.

(** Loops over the elements of an array. *)

Lemma forEach_stable {C X Y} (obs : C → Y) (body : M (C * X) unit) :
  stable (λ s : C * X, obs (fst s)) body →
  ∀ xs c, obs (fst (st (forEach body xs c))) = obs c.
Proof.
  intros Hbody. induction xs as [|x xs IH]; intros c; [done|].
  cbn [forEach]. pose proof (Hbody (c, x)) as Hx. cbn beta in Hx.
  destruct (res (body (c, x))); cbn [st fst]; [done|]. by rewrite IH.
Qed.

Lemma forEachOf_stable {C X Y} (obs : C → Y) getl setl (body : M (C * X) unit) :
  stable (λ s : C * X, obs (fst s)) body → (∀ l c, obs (setl l c) = obs c) →
  stable obs (forEachOf getl setl body).
Proof.
  intros Hbody Hset c. unfold forEachOf. cbn [st]. rewrite Hset.
  by apply forEach_stable.
Qed.

Lemma forEach_wp {C X} (body : M (C * X) unit) (I : C → list X → Prop) :
  (∀ c x done, I c done → wp body (λ _ s', I (fst s') (done ++ [snd s'])) (c, x)) →
  ∀ xs c done, I c done →
    succeeded (forEach body xs c) →
    I (fst (st (forEach body xs c))) (done ++ snd (st (forEach body xs c))).
Proof.
  intros Hbody. induction xs as [|x xs IH]; intros c done HI Hok.
  - cbn. by rewrite app_nil_r.
  - cbn [forEach] in *. specialize (Hbody c x done HI). unfold wp in Hbody.
    unfold succeeded in Hok.
    destruct (res (body (c, x))); cbn [res st fst snd] in *; [done|].
    rewrite cons_middle, app_assoc. by apply IH.
Qed.

Lemma wp_stable_bind {S A B X} (obs : S → X) (m : M S A) (k : A → M S B) Q s :
  stable obs m → (∀ a s', obs s' = obs s → wp (k a) Q s') → wp (m ≫= k) Q s.
Proof.
  intros Hm Hk. apply wp_bind. apply (wp_stable obs); [done|].
  intros a s' Hs. by apply Hk.
Qed.

Section Aggregates.
Context `{Lib}.

Lemma targeting_snoc key done r :
  targeting key (done ++ [r]) =
  targeting key done
  ++ (if decide (tpl (r !! "otherEntityNameCapitalized") = key) then [r] else []).
Proof.
  unfold targeting. rewrite filter_app, filter_cons, filter_nil.
  by destruct (decide _).
Qed.

Lemma filed_register (known : gmap string (list obj)) done r key :
  (∀ k, known !! k = filed (targeting k done)) →
  <[tpl (r !! "otherEntityNameCapitalized")
    := default [] (known !! tpl (r !! "otherEntityNameCapitalized")) ++ [r]]> known
    !! key
  = filed (targeting key (done ++ [r])).
Proof.
  intros Hknown. rewrite targeting_snoc, lookup_insert.
  destruct (decide _) as [<-|Hne].
  - by rewrite Hknown, default_filed, filed_snoc.
  - by rewrite app_nil_r.
Qed.

Lemma loadRelationship_entityClass :
  stable (λ s : RelState, cfg (rctx s) !! "entityClass") loadRelationship.
Proof. stable_tac. Qed.

Lemma loadField_aggregates :
  stable (λ s : FieldState,
            (differentTypes (fst s), differentRelationships (fst s),
             cfg (fst s) !! "entityClass")) loadField.
Proof. stable_tac. Qed.

Lemma registered_then {A B} e done (m : M RelState A) (k : A → M RelState B) Q s :
  registered e (rctx s) done →
  stable (λ s : RelState,
            (differentTypes (rctx s), differentRelationships (rctx s))) m →
  (∀ a s', registered e (rctx s') done → wp (k a) Q s') →
  wp (m ≫= k) Q s.
Proof.
  intros Hreg Hm Hk. eapply wp_stable_bind; [exact Hm|].
  intros a s' [= Ht Hr]. apply Hk. unfold registered. by rewrite Ht, Hr.
Qed.

(** Lines 949-956 file the relationship after the ones before it. *)
Lemma registerType_wp e done (s : RelState) :
  registered e (rctx s) done →
  wp registerType (λ _ s', registered e (rctx s') (done ++ [rel s'])) s.
Proof.
  destruct s as [[c b] r]. intros [Htypes Hrels]. cbn [rctx rel fst snd] in *.
  assert (firstOccurrences (e :: encountered (done ++ [r]))
          = if includes (differentTypes c) (r !! "otherEntityNameCapitalized")
            then differentTypes c
            else differentTypes c ++ [r !! "otherEntityNameCapitalized"])
    as Hsnoc.
  { unfold encountered in *.
    rewrite fmap_app, list_fmap_singleton, app_comm_cons, firstOccurrences_snoc.
    by rewrite <- Htypes. }
  unfold registerType. run_step. run_step. cbv zeta. run_step. run_step.
  destruct (includes _ _); cbn [negb]; run;
    (destruct (bool_decide _); run; split; [done|]);
    intros key; cbn; by apply filed_register.
Qed.

Lemma loadRelationship_registers e done (s : RelState) :
  registered e (rctx s) done →
  wp loadRelationship (λ _ s', registered e (rctx s') (done ++ [rel s'])) s.
Proof.
  intros Hreg. unfold loadRelationship. run_step. run_step. cbv zeta.
  repeat lazymatch goal with
         | |- wp (_ ≫= _) _ _ =>
           apply (registered_then e done); [exact Hreg|solve [stable_tac]|];
           clear Hreg; intros ? ? Hreg
         end.
  by apply registerType_wp.
Qed.

Lemma loadRelationships_registers e (c : Context) :
  differentTypes c = [e] → differentRelationships c = ∅ →
  wp loadRelationships
     (λ _ c', registered e c' (relationships c')
              ∧ cfg c' !! "entityClass" = cfg c !! "entityClass") c.
Proof.
  intros Ht Hr. unfold wp, loadRelationships. cbn [res st].
  pose proof (forEach_wp loadRelationship (λ c done, registered e (fst c) done)
                (λ c x done, loadRelationship_registers e done (c, x))
                (relationships c) (c, false) []) as Hloop.
  pose proof (forEach_stable (λ c : Context * bool, cfg (fst c) !! "entityClass")
                loadRelationship loadRelationship_entityClass
                (relationships c) (c, false)) as Hclass.
  unfold succeeded in Hloop.
  destruct (res (forEach loadRelationship (relationships c) (c, false))); [done|].
  split; [|exact Hclass].
  apply Hloop; [|done]. split; cbn [fst]; [by rewrite Ht|].
  intros key. by rewrite Hr, lookup_empty.
Qed.

(** Lines 524-587 leave the aggregates empty, but for the class of the
    entity. *)
Lemma loadEntityNames_entityClass fileData (c : Context) :
  wp (loadEntityNames fileData)
     (λ _ c', cfg c' !! "entityClass" = cfg c !! "entityNameCapitalized") c.
Proof.
  unfold loadEntityNames. run_step. run_step. cbv zeta.
  apply (wp_then_stable (λ c : Context, cfg c !! "entityClass")
           (λ v, v = cfg c !! "entityNameCapitalized")).
  - run. cbn. by rewrite lookup_assign_eq.
  - intros _. cbn [forM_]. stable_tac.
Qed.

Lemma loadEntityNames_differentTypes fileData (c : Context) :
  wp (loadEntityNames fileData)
     (λ _ c', differentTypes c' = [cfg c' !! "entityClass"]) c.
Proof.
  unfold loadEntityNames.
  repeat lazymatch goal with
         | |- wp (modify (λ c, set_differentTypes _ c) ≫= _) _ _ => fail
         | |- wp (_ ≫= _) _ _ => apply wp_bind_any; intros ? ?; cbv zeta
         end.
  refine (wp_then_stable
            (λ c : Context, (differentTypes c, cfg c !! "entityClass"))
            (λ p, p.1 = [p.2]) _ _ _ _ _).
  - by run.
  - intros _. stable_tac.
Qed.

Lemma loadEntityNames_differentRelationships fileData (c : Context) :
  wp (loadEntityNames fileData) (λ _ c', differentRelationships c' = ∅) c.
Proof.
  unfold loadEntityNames.
  repeat lazymatch goal with
         | |- wp (modify (set_differentRelationships _) ≫= _) _ _ => fail
         | |- wp (_ ≫= _) _ _ => apply wp_bind_any; intros ? ?; cbv zeta
         end.
  refine (wp_then_stable differentRelationships (λ m, m = ∅) _ _ _ _ _).
  - by run.
  - intros _. stable_tac.
Qed.

Lemma loadInMemoryData_registers fileData (c : Context) :
  wp (loadInMemoryData fileData)
     (λ _ c', cfg c' !! "entityClass" = cfg c !! "entityNameCapitalized"
              ∧ registered (cfg c' !! "entityClass") c' (relationships c')) c.
Proof.
  unfold loadInMemoryData. apply wp_bind.
  eapply wp_mono;
    [|apply wp_and;
       [apply wp_and;
          [apply loadEntityNames_entityClass|apply loadEntityNames_differentTypes]
       |apply loadEntityNames_differentRelationships]].
  cbn beta. intros _ c1 [[Hclass Htypes] Hrels].
  apply (wp_stable_bind
           (λ c : Context,
              (differentTypes c, differentRelationships c, cfg c !! "entityClass"))).
  { apply forEachOf_stable; [apply loadField_aggregates|done]. }
  intros _ c2 [= Ht2 Hr2 Hc2]. apply wp_bind.
  eapply wp_mono;
    [|apply (loadRelationships_registers (cfg c2 !! "entityClass"));
       [by rewrite Ht2, Hc2|by rewrite Hr2]].
  cbn beta. intros hasUserField c3 [[Ht3 Hr3] Hc3].
  apply (wp_stable
           (λ c : Context,
              (differentTypes c, differentRelationships c, relationships c,
               cfg c !! "entityClass"))); [stable_tac|].
  intros _ c4 [= Ht4 Hr4 Hrel4 Hc4].
  split; [congruence|]. unfold registered. rewrite Ht4, Hr4, Hrel4, Hc4, Hc3.
  by split.
Qed.

End Aggregates.
(** ** The reciprocal side of a relationship *)

Section Reciprocal.
Context `{Lib}.

Lemma reciprocal_assigns entityName otherEntityName (other : obj) (s : RelState) n t :
  reciprocates entityName (rel s) other →
  other !! "relationshipName" = str n →
  orElse (rel s !! "otherEntityRelationshipNameCapitalized") (str (upperFirst (str n)))
  = str t →
  returns (reciprocal entityName otherEntityName (VObj other))
    (λ _ s',
       fst s' = fst s
       ∧ rel s' !! "otherEntityRelationshipName"
         = orElse (rel s !! "otherEntityRelationshipName") (str n)
       ∧ rel s' !! "otherEntityRelationshipNamePlural"
         = orElse (rel s !! "otherEntityRelationshipNamePlural") (str (pluralize n))
       ∧ rel s' !! "otherEntityRelationshipNameCapitalized" = str t
       ∧ rel s' !! "otherEntityRelationshipNameCapitalizedPlural" = str (pluralize t)
       ∧ ∀ k, k ∉ reciprocalAttributes → rel s' !! k = rel s !! k) s.
Proof.
  intros (Hback & Hnamed & Hsame & Htypes) Hname Hcap.
  unfold reciprocal. cbn [prop]. rewrite Hback, String.eqb_refl, Hnamed. cbn [negb].
  run_step. rewrite Hsame. run_step. rewrite Htypes. rewrite Hname.
  run. rewrite lookup_assign_ne by done. fold (rel s).
  assert (returns (orElseM (rel s !! "otherEntityRelationshipNamePlural")
                     (pluralizeV (str n)))
            (λ a s', s' = (s.1, assign "otherEntityRelationshipName"
                                  (orElse (rel s !! "otherEntityRelationshipName") (str n))
                                  (rel s))
                     ∧ a = orElse (rel s !! "otherEntityRelationshipNamePlural")
                                  (str (pluralize n)))
            (s.1, assign "otherEntityRelationshipName"
                    (orElse (rel s !! "otherEntityRelationshipName") (str n)) (rel s)))
    as Hplural.
  { unfold orElseM, orElse, pluralizeV, str.
    destruct (truthy (rel s !! "otherEntityRelationshipNamePlural")); by run. }
  eapply returns_mono; [|exact Hplural]. cbn beta. intros plural s1 [-> ->].
  run. rewrite lookup_assign_eq, !lookup_assign_ne, Hcap by done.
  cbn [pluralizeV str]. run.
  split; [done|].
  rewrite !lookup_assign_eq, !(lookup_assign_ne "otherEntityRelationshipName"),
    !(lookup_assign_ne "otherEntityRelationshipNamePlural"),
    !(lookup_assign_ne "otherEntityRelationshipNameCapitalized"),
    !lookup_assign_eq by done.
  repeat (split; [done|]).
  intros k Hk. unfold reciprocalAttributes in Hk.
  repeat (apply not_elem_of_cons in Hk as [? Hk]).
  by rewrite !lookup_assign_ne by done.
Qed.
(** C4, as the code has it. When a relationship of the other entity is the
    reciprocal one, lines 766-772 keep a name, a plural and a capitalized
    name the relationship already has, if it is not empty: they are written
    with [||]. Lines 773-775 are written with [=] twice, so
    [otherEntityRelationshipNameCapitalizedPlural] is assigned the plural of
    the capitalized name whatever it was before. *)
Theorem reciprocal_match_assignments entityName otherEntityName (other : obj)
    (s : RelState) n t :
  reciprocates entityName (rel s) other →
  other !! "relationshipName" = str n →
  orElse (rel s !! "otherEntityRelationshipNameCapitalized") (str (upperFirst (str n)))
  = str t →
  returns (reciprocal entityName otherEntityName (VObj other))
    (λ _ s',
       (∀ k, k ∈ ["otherEntityRelationshipName"; "otherEntityRelationshipNamePlural";
                  "otherEntityRelationshipNameCapitalized"] →
             truthy (rel s !! k) = true → rel s' !! k = rel s !! k)
       ∧ rel s' !! "otherEntityRelationshipNameCapitalized" = str t
       ∧ rel s' !! "otherEntityRelationshipNameCapitalizedPlural" = str (pluralize t))
    s.
Proof.
  intros Hmatch Hname Hcap.
  eapply returns_mono; [|by apply reciprocal_assigns]. cbn beta.
  intros _ s' (_ & Hn & Hp & Hc & Hcp & _). split; [|done].
  intros k Hk Hthere. unfold orElse in *.
  repeat (apply elem_of_cons in Hk as [->|Hk]); [..|by apply elem_of_nil in Hk];
    rewrite Hthere in *; congruence.
Qed.

End Reciprocal.

(** A pet with an owner; its relationship came with a plural of its own
    for the capitalized name of the other side. *)
Lemma reciprocal_match_witness :
  let L := Sample.lib ∅ in
  let owner : obj :=
    {[ "relationshipName" := VStr "owner"; "otherEntityName" := VStr "person";
       "relationshipType" := VStr "many-to-one";
       "otherEntityRelationshipName" := VStr "pet";
       "otherEntityRelationshipNameCapitalizedPlural" := VStr "Companions" ]} in
  let pet : obj :=
    {[ "relationshipName" := VStr "pet"; "otherEntityName" := VStr "pet";
       "relationshipType" := VStr "one-to-many";
       "otherEntityRelationshipName" := VStr "owner" ]} in
  let context := Sample.context "Pet" {[ "prodDatabaseType" := VStr "mysql" ]} [] [owner] in
  let s : RelState := ((context, false), owner) in
  (reciprocates (H:=L) "Pet" (rel s) pet
   ∧ pet !! "relationshipName" = str "pet"
   ∧ orElse (rel s !! "otherEntityRelationshipNameCapitalized")
            (str (upperFirst (Lib:=L) (str "pet"))) = str "Pet")
  ∧ returns (reciprocal (H:=L) "Pet" (str "person") (VObj pet))
      (λ _ s',
         (∀ k, k ∈ ["otherEntityRelationshipName"; "otherEntityRelationshipNamePlural";
                    "otherEntityRelationshipNameCapitalized"] →
               truthy (rel s !! k) = true → rel s' !! k = rel s !! k)
         ∧ rel s' !! "otherEntityRelationshipNameCapitalized" = str "Pet"
         ∧ rel s' !! "otherEntityRelationshipNameCapitalizedPlural"
           = str (pluralize (Lib:=L) "Pet"))
      s.
Proof.
  cbn zeta. apply use_hypotheses.
  - split; [|split]; vm_compute; [|reflexivity..]. repeat split.
  - intros (H1 & H2 & H3).
    exact (reciprocal_match_assignments (H:=Sample.lib ∅) _ _ _ _ _ _ H1 H2 H3).
Defined.

(** C4 fails on this input: the phase replaces the plural the relationship
    came with. *)
Lemma capitalizedPlural_overwritten :
  let owner : obj :=
    {[ "relationshipName" := VStr "owner"; "otherEntityName" := VStr "person";
       "relationshipType" := VStr "many-to-one";
       "otherEntityRelationshipName" := VStr "pet";
       "otherEntityField" := VStr "id";
       "otherEntityRelationshipNameCapitalizedPlural" := VStr "Companions" ]} in
  let pet : obj :=
    {[ "relationshipName" := VStr "pet"; "otherEntityName" := VStr "pet";
       "relationshipType" := VStr "one-to-many";
       "otherEntityRelationshipName" := VStr "owner" ]} in
  let person : obj := {[ "relationships" := VArr [VObj pet] ]} in
  let L := Sample.lib {[ ".jhipster/Person.json" := person ]} in
  let context := Sample.context "Pet" {[ "prodDatabaseType" := VStr "mysql" ]} [] [owner] in
  let o := configuring (H:=L) ∅ context in
  let before := owner !! "otherEntityRelationshipNameCapitalizedPlural" in
  let after :=
    relationships (st o) !! 0
      ≫= (.!! "otherEntityRelationshipNameCapitalizedPlural") in
  res o = inr ()
  ∧ reciprocates (H:=L) "Pet" owner pet
  ∧ before = str "Companions"
  ∧ after = str "Pets"
  ∧ ¬ (after = before).
Proof.
  cbn zeta. split; [vm_compute; reflexivity|].
  split; [vm_compute; repeat split|].
  split; [vm_compute; reflexivity|].
  split; [vm_compute; reflexivity|].
  intros Heq. vm_compute in Heq. discriminate.
Qed.
(** ** Resolving the other side *)

Lemma forEach_at {C X Y} (obs : C → Y) (body : M (C * X) unit) (Q : X → Prop) :
  stable (λ s : C * X, obs (fst s)) body →
  ∀ xs c i x,
    xs !! i = Some x →
    (∀ c', obs c' = obs c → wp body (λ _ s', Q (snd s')) (c', x)) →
    succeeded (forEach body xs c) →
    ∃ x', snd (st (forEach body xs c)) !! i = Some x' ∧ Q x'.
Proof.
  intros Hstable. induction xs as [|y xs IH]; intros c i x Hi Hbody Hok; [done|].
  cbn [forEach] in *. unfold succeeded in Hok.
  pose proof (Hstable (c, y)) as Hobs. cbn beta in Hobs. cbn [fst] in Hobs.
  destruct i as [|i]; cbn in Hi.
  - injection Hi as ->. specialize (Hbody c eq_refl). unfold wp in Hbody.
    destruct (res (body (c, x))); cbn [res st snd] in *; [done|]. eauto.
  - destruct (res (body (c, y))); cbn [res st snd] in *; [done|].
    apply (IH _ i x Hi); [|done]. intros c' Hc'. apply Hbody. congruence.
Qed.

Lemma forEachOf_at {C X Y} (obs : C → Y) getl setl (body : M (C * X) unit)
    (Q : X → Prop) i x c :
  stable (λ s : C * X, obs (fst s)) body →
  (∀ l c, obs (setl l c) = obs c) → (∀ l c, getl (setl l c) = l) →
  getl c !! i = Some x →
  (∀ c', obs c' = obs c → wp body (λ _ s', Q (snd s')) (c', x)) →
  wp (forEachOf getl setl body)
     (λ _ c', obs c' = obs c ∧ ∃ x', getl c' !! i = Some x' ∧ Q x') c.
Proof.
  intros Hstable Hobs Hget Hi Hbody. unfold wp, forEachOf. cbn [res st].
  pose proof (forEach_at obs body Q Hstable (getl c) c i x Hi Hbody) as Hat.
  unfold succeeded in Hat.
  destruct (res (forEach body (getl c) c)); [done|].
  rewrite Hobs, Hget. split; [by apply forEach_stable|by apply Hat].
Qed.

Lemma stable_onSnd {C X A Y} (obs : C → Y) (m : M X A) :
  stable (λ s : C * X, obs (fst s)) (onSnd m).
Proof. by intros s. Qed.

Lemma wp_onSnd {C X A} (m : M X A) (Q : A → C * X → Prop) c x :
  wp m (λ a x', Q a (c, x')) x → wp (onSnd m) Q (c, x).
Proof. done. Qed.

Lemma wp_bind_inv {S A B} (m : M S A) (k : A → M S B) Q s :
  wp (m ≫= k) Q s → wp m (λ a s', wp (k a) Q s') s.
Proof.
  unfold wp. rewrite bind_run.
  destruct (res (m s)) as [e|a]; cbn [res st]; [done|].
  by destruct (res (k a (st (m s)))).
Qed.

Lemma wp_forM_app {S A} (l1 l2 : list A) (body : A → M S unit) Q s :
  wp (forM_ l1 body) (λ _ s', wp (forM_ l2 body) Q s') s →
  wp (forM_ (l1 ++ l2) body) Q s.
Proof.
  revert s. induction l1 as [|x l1 IH]; intros s Hl; [done|].
  cbn [app forM_] in *. apply wp_bind. apply wp_bind_inv in Hl.
  eapply wp_mono; [|exact Hl]. cbn beta. intros _ s'. apply IH.
Qed.

Lemma wp_forM_skips {S A} (Inv : S → Prop) (l : list A) (body : A → M S unit) s :
  Forall (λ x, ∀ s, Inv s → wp (body x) (λ _ s', s' = s) s) l →
  Inv s → wp (forM_ l body) (λ _ s', s' = s) s.
Proof.
  induction 1 as [|x l Hx Hl IH]; intros Hs; [done|].
  cbn [forM_]. apply wp_bind. eapply wp_mono; [|by apply Hx].
  cbn beta. intros _ s' ->. by apply IH.
Qed.

Lemma wp_forall {S A X} (m : M S A) (Q : X → A → S → Prop) s :
  (∀ x, wp m (Q x) s) → wp m (λ a s', ∀ x, Q x a s') s.
Proof. unfold wp. destruct (res (m s)); auto. Qed.

Section OtherSide.
Context `{Lib}.

Lemma _getEntityJson_ext (c c' : Context) file :
  cfg c' !! "microservicePath" = cfg c !! "microservicePath" →
  _getEntityJson c' file = _getEntityJson c file.
Proof. intros Hmp. unfold _getEntityJson. by rewrite Hmp. Qed.

Lemma reciprocates_ext entityName (a a' other : obj) :
  a' !! "relationshipName" = a !! "relationshipName" →
  a' !! "relationshipType" = a !! "relationshipType" →
  reciprocates entityName a' other ↔ reciprocates entityName a other.
Proof. intros Hn Ht. unfold reciprocates. by rewrite Hn, Ht. Qed.

Lemma reciprocates_named entityName a other :
  reciprocates entityName a other →
  a !! "relationshipName" ≠ None
  ∧ (a !! "relationshipType" = str "many-to-one"
     ∨ a !! "relationshipType" = str "many-to-many").
Proof.
  intros (_ & Hnamed & Hsame%strictEq_eq & Htypes). split.
  - rewrite <- Hsame. by destruct (other !! "otherEntityRelationshipName").
  - apply orb_true_iff in Htypes as [[Ht _]%andb_true_iff|[Ht _]%andb_true_iff];
      apply isStr_true in Ht; auto.
Qed.

(** A relationship of the other entity that is not the reciprocal one
    leaves the relationship as it is. *)
Lemma reciprocal_skips entityName otherEntityName o (s : RelState) :
  (∀ other, o = VObj other → ¬ reciprocates entityName (rel s) other) →
  wp (reciprocal entityName otherEntityName o) (λ _ s', s' = s) s.
Proof.
  intros Hnot. unfold reciprocal.
  destruct o as [| | | | |other]; [done|..]; cbn [prop];
    (destruct (String.eqb _ entityName) eqn:Hback; cbn [negb]; [|done]);
    (destruct (truthy _) eqn:Hnamed; cbn [negb]; [|done]); try done.
  run_step. destruct (strictEq _ _) eqn:Hsame; [|done].
  run_step. destruct (_ || _) eqn:Htypes; [|done].
  destruct (Hnot other eq_refl). by apply String.eqb_eq in Hback.
Qed.

Lemma not_reciprocalAttribute k :
  k = "relationshipName" ∨ k = "relationshipType" → k ∉ reciprocalAttributes.
Proof.
  unfold reciprocalAttributes. intros [->| ->];
    rewrite !not_elem_of_cons; repeat split; try done; apply not_elem_of_nil.
Qed.

(** Lines 741-779 on a relationship whose reciprocal is the only one that
    points back. *)
Lemma reciprocalNames_names entityName otherEntityName (B b : obj) pre post q
    (s : RelState) :
  B !! "relationships" = Some (VArr (pre ++ VObj b :: post)) →
  reciprocates entityName (rel s) b →
  b !! "relationshipName" = str q →
  noReciprocal entityName (rel s) (pre ++ post) →
  rel s !! "otherEntityRelationshipNamePlural" = None →
  rel s !! "otherEntityRelationshipNameCapitalized" = None →
  wp (reciprocalNames entityName otherEntityName (Some (VObj B)))
     (λ _ s', namedAfter (rel s !! "otherEntityRelationshipName") q (rel s')) s.
Proof.
  intros HB Hb Hq [Hpre Hpost]%Forall_app Hplural Hcap.
  assert (∀ others,
            noReciprocal entityName (rel s) others →
            ∀ s1, rel s1 !! "relationshipName" = rel s !! "relationshipName"
                  ∧ rel s1 !! "relationshipType" = rel s !! "relationshipType" →
                  wp (forM_ others (reciprocal entityName otherEntityName))
                     (λ _ s', s' = s1) s1) as Hskip.
  { intros others Hothers s1 Hs1.
    apply (wp_forM_skips
             (λ s1, rel s1 !! "relationshipName" = rel s !! "relationshipName"
                    ∧ rel s1 !! "relationshipType" = rel s !! "relationshipType"));
      [|done].
    eapply Forall_impl; [exact Hothers|]. cbn beta.
    intros o Ho s2 [Hn Ht]. apply reciprocal_skips.
    intros other -> Hrec. apply (Ho other eq_refl).
    by apply (reciprocates_ext _ _ _ _ Hn Ht). }
  unfold reciprocalNames. cbn [prop]. rewrite HB. cbn [truthy andb when].
  run_step.
  destruct (_ || _) eqn:Htype.
  2:{ destruct Hb as (_ & _ & _ & Htypes).
      apply orb_false_iff in Htype as [Hone Hmany].
      by rewrite Hone, Hmany in Htypes. }
  apply wp_forM_app. eapply wp_mono; [|by apply Hskip]. cbn beta. intros _ _ ->.
  cbn [forM_]. apply wp_bind.
  eapply wp_mono;
    [|apply returns_wp, (reciprocal_assigns _ _ _ _ q (upperFirst (str q)) Hb Hq);
      by rewrite Hcap].
  cbn beta. intros _ s1 (_ & Hn1 & Hp1 & Hc1 & Hcp1 & Hframe).
  eapply wp_mono; [|apply (Hskip post Hpost)].
  - cbn beta. intros _ _ ->.
    unfold namedAfter. by rewrite Hn1, Hp1, Hc1, Hcp1, Hplural.
  - split; apply Hframe, not_reciprocalAttribute; auto.
Qed.

Lemma kept_ifS {C} k c (m : M (C * obj) unit) : kept k m → kept k (ifS c m).
Proof.
  intros Hm s Hs. unfold ifS, when. rewrite bind_run. cbn [get res st].
  destruct (c s); [by apply Hm|done].
Qed.

Lemma otherEntityRelationshipNames_kept k :
  k ∈ reciprocalAttributes → kept k otherEntityRelationshipNames.
Proof.
  unfold reciprocalAttributes. intros Hk.
  repeat (apply elem_of_cons in Hk as [->|Hk]); [..|by apply elem_of_nil in Hk];
    apply kept_ifS; kept_tac.
Qed.

(** What [validateFile] does to a relationship that has a name and one
    of the two types: the name of the other side is set if it is missing,
    the properties the resolution reads are left alone. *)
Lemma validateRelationship_names entityName (a : obj) :
  a !! "relationshipName" ≠ None →
  a !! "relationshipType" = str "many-to-one"
  ∨ a !! "relationshipType" = str "many-to-many" →
  wp (validateRelationship entityName)
     (λ _ a',
        a' !! "otherEntityRelationshipName" = otherSideName entityName a
        ∧ (a' !! "relationshipName", a' !! "relationshipType",
           a' !! "otherEntityName", a' !! "otherEntityRelationshipNamePlural",
           a' !! "otherEntityRelationshipNameCapitalized")
          = (a !! "relationshipName", a !! "relationshipType",
             a !! "otherEntityName", a !! "otherEntityRelationshipNamePlural",
             a !! "otherEntityRelationshipNameCapitalized")) a.
Proof.
  intros Hnamed Htype. unfold validateRelationship.
  apply wp_bind. run_step.
  destruct (isUndefined (a !! "relationshipName")) eqn:Hname;
    [by destruct (a !! "relationshipName")|].
  apply wp_and.
  - apply (wp_stable_bind (λ a : obj, a)); [stable_tac|]. intros _ _ ->.
    refine (wp_then_stable (λ a' : obj, a' !! "otherEntityRelationshipName")
              (λ v, v = otherSideName entityName a) _ _ _ _ _).
    + unfold otherSideName. run_step.
      destruct (isUndefined (a !! "otherEntityRelationshipName")) eqn:Hother.
      * assert (negb (isUndefined (a !! "relationshipType"))
                && negb (isStr (a !! "relationshipType") "") = true) as Htyped
          by (by destruct Htype as [-> | ->]).
        cbn [andb]. rewrite Htyped. run.
        match goal with |- context [if ?b then _ else _] => destruct b end; run;
          by rewrite lookup_assign_eq.
      * done.
    + intros _. stable_tac.
  - apply (wp_stable
             (λ a' : obj,
                (a' !! "relationshipName", a' !! "relationshipType",
                 a' !! "otherEntityName", a' !! "otherEntityRelationshipNamePlural",
                 a' !! "otherEntityRelationshipNameCapitalized"))); [stable_tac|].
    by intros _ a' ->.
Qed.

Lemma orElse_defined a q : orElse a (str q) ≠ None.
Proof. unfold orElse. by destruct a as [[]|]; cbn; try destruct b; try case_match. Qed.

Lemma otherEntityRelationshipNames_named given q (s : RelState) :
  namedAfter given q (rel s) →
  namedAfter given q (rel (st (otherEntityRelationshipNames s))).
Proof.
  unfold namedAfter, rel. intros (Hn & Hp & Hc & Hcp).
  rewrite !otherEntityRelationshipNames_kept;
    unfold reciprocalAttributes; rewrite ?Hn, ?Hp, ?Hc, ?Hcp;
    try done; try apply orElse_defined; set_solver.
Qed.

Lemma namedAfter_stable {A} given q (m : M RelState A) (s : RelState) :
  stable (λ s : RelState,
            (rel s !! "otherEntityRelationshipName",
             rel s !! "otherEntityRelationshipNamePlural",
             rel s !! "otherEntityRelationshipNameCapitalized",
             rel s !! "otherEntityRelationshipNameCapitalizedPlural")) m →
  namedAfter given q (rel s) →
  wp m (λ _ s', namedAfter given q (rel s')) s.
Proof.
  intros Hm Hs. eapply wp_stable; [exact Hm|]. intros _ s' [= Hn Hp Hc Hcp].
  unfold namedAfter. by rewrite Hn, Hp, Hc, Hcp.
Qed.

(** The callback of lines 722-957 on such a relationship. *)
Lemma loadRelationship_names (B b : obj) pre post q (s : RelState) :
  _getEntityJson (rctx s) (rel s !! "otherEntityName") = Some (VObj B) →
  B !! "relationships" = Some (VArr (pre ++ VObj b :: post)) →
  reciprocates (name (rctx s)) (rel s) b →
  b !! "relationshipName" = str q →
  noReciprocal (name (rctx s)) (rel s) (pre ++ post) →
  rel s !! "otherEntityRelationshipNamePlural" = None →
  rel s !! "otherEntityRelationshipNameCapitalized" = None →
  wp loadRelationship
     (λ _ s', namedAfter (rel s !! "otherEntityRelationshipName") q (rel s')) s.
Proof.
  destruct s as [[c hasUserField] a]. cbn [rctx rel fst snd].
  intros Hdata HB Hb Hq Hothers Hplural Hcap.
  unfold loadRelationship. run_step. run_step. cbv zeta. rewrite Hdata.
  cbv beta iota.
  match goal with
  | |- context [if ?test then Some (VObj ?moved) else _] =>
    assert (∃ data, (if test then Some (VObj moved) else Some (VObj B))
                    = Some (VObj data)
                    ∧ data !! "relationships" = Some (VArr (pre ++ VObj b :: post)))
      as (data & -> & Hdata')
      by (destruct test; eexists; (split; [reflexivity|]);
          by rewrite ?lookup_assign_ne)
  end.
  set (obs := λ s : RelState,
         (rel s !! "relationshipName", rel s !! "relationshipType",
          rel s !! "otherEntityRelationshipName",
          rel s !! "otherEntityRelationshipNamePlural",
          rel s !! "otherEntityRelationshipNameCapitalized")).
  apply (wp_stable_bind obs); [subst obs; stable_tac|]. intros _ s1 Hs1.
  apply (wp_stable_bind obs); [subst obs; stable_tac|]. intros _ s2 Hs2.
  rewrite Hs1 in Hs2. clear s1 Hs1. subst obs. cbn [rel snd] in Hs2.
  injection Hs2 as Hn2 Ht2 Ho2 Hp2 Hc2.
  apply wp_bind. eapply wp_mono;
    [|apply (reciprocalNames_names _ _ data b pre post q s2 Hdata');
      [by apply (reciprocates_ext _ a)|done| |by rewrite Hp2|by rewrite Hc2]].
  2:{ eapply Forall_impl; [exact Hothers|]. cbn beta. intros o Ho other -> Hrec.
      apply (Ho other eq_refl). by apply (reciprocates_ext _ a (rel s2)). }
  cbn beta. rewrite Ho2. intros _ s3 Hs3.
  apply wp_bind. apply wp_always.
  apply otherEntityRelationshipNames_named in Hs3. revert Hs3.
  generalize (st (otherEntityRelationshipNames s3)). intros s4 Hs4.
  apply namedAfter_stable; [stable_tac|done].
Qed.

(** [validateFile] on a document with such a relationship. *)
Lemma validateFile_names (context : Context) i (a : obj) :
  relationships context !! i = Some a →
  a !! "relationshipName" ≠ None →
  a !! "relationshipType" = str "many-to-one"
  ∨ a !! "relationshipType" = str "many-to-many" →
  wp validateFile
     (λ _ c',
        (name c', cfg c' !! "microservicePath")
        = (name context, cfg context !! "microservicePath")
        ∧ ∃ a', relationships c' !! i = Some a'
          ∧ a' !! "otherEntityRelationshipName" = otherSideName (name context) a
          ∧ (a' !! "relationshipName", a' !! "relationshipType",
             a' !! "otherEntityName", a' !! "otherEntityRelationshipNamePlural",
             a' !! "otherEntityRelationshipNameCapitalized")
            = (a !! "relationshipName", a !! "relationshipType",
               a !! "otherEntityName", a !! "otherEntityRelationshipNamePlural",
               a !! "otherEntityRelationshipNameCapitalized")) context.
Proof.
  intros Hi Hnamed Htype. unfold validateFile. run_step. run_step. cbv zeta.
  apply (wp_stable_bind
           (λ c : Context, (name c, cfg c !! "microservicePath", relationships c))).
  { apply forEachOf_stable; [|done].
    apply (stable_onSnd
             (λ c : Context, (name c, cfg c !! "microservicePath", relationships c))). }
  intros _ c1 [= Hn1 Hm1 Hr1]. apply wp_bind.
  set (Q := λ a' : obj,
         a' !! "otherEntityRelationshipName" = otherSideName (name context) a
         ∧ (a' !! "relationshipName", a' !! "relationshipType",
            a' !! "otherEntityName", a' !! "otherEntityRelationshipNamePlural",
            a' !! "otherEntityRelationshipNameCapitalized")
           = (a !! "relationshipName", a !! "relationshipType",
              a !! "otherEntityName", a !! "otherEntityRelationshipNamePlural",
              a !! "otherEntityRelationshipNameCapitalized")).
  eapply wp_mono;
    [|apply (forEachOf_at (λ c : Context, (name c, cfg c !! "microservicePath"))
               relationships set_relationships _ Q i a c1);
      [apply (stable_onSnd (λ c : Context, (name c, cfg c !! "microservicePath")))
      |done|done|by rewrite Hr1
      |intros c' _; apply wp_onSnd, (validateRelationship_names _ a Hnamed Htype)]].
  cbn beta. intros _ c2 [[= Hn2 Hm2] Ha2].
  apply (wp_stable
           (λ c : Context, (name c, cfg c !! "microservicePath", relationships c)));
    [stable_tac|].
  intros _ c3 [= -> -> ->]. split; [congruence|done].
Qed.

Lemma loadInMemoryData_names fileData (context : Context) i (a B b : obj)
    pre post q :
  relationships context !! i = Some a →
  a !! "otherEntityRelationshipNamePlural" = None →
  a !! "otherEntityRelationshipNameCapitalized" = None →
  _getEntityJson context (a !! "otherEntityName") = Some (VObj B) →
  B !! "relationships" = Some (VArr (pre ++ VObj b :: post)) →
  reciprocates (name context) a b →
  b !! "relationshipName" = str q →
  noReciprocal (name context) a (pre ++ post) →
  wp (loadInMemoryData fileData)
     (λ _ c', ∃ a', relationships c' !! i = Some a'
                    ∧ namedAfter (a !! "otherEntityRelationshipName") q a') context.
Proof.
  intros Hi Hplural Hcap Hdata HB Hb Hq Hothers. unfold loadInMemoryData.
  set (obs := λ c : Context, (name c, cfg c !! "microservicePath", relationships c)).
  apply (wp_stable_bind obs).
  { subst obs. unfold loadEntityNames. cbn [forM_]. stable_tac. }
  intros _ c1 Hc1.
  apply (wp_stable_bind obs).
  { apply forEachOf_stable; [subst obs; stable_tac|done]. }
  intros _ c2 Hc2. rewrite Hc1 in Hc2. clear c1 Hc1. subst obs.
  injection Hc2 as Hn2 Hm2 Hr2. apply wp_bind.
  assert (wp loadRelationships
            (λ _ c', ∃ a', relationships c' !! i = Some a'
                           ∧ namedAfter (a !! "otherEntityRelationshipName") q a') c2)
    as Hloop.
  { unfold wp, loadRelationships. cbn [res st].
    pose proof (forEach_at
                  (λ c : Context * bool, (name (fst c), cfg (fst c) !! "microservicePath"))
                  loadRelationship
                  (namedAfter (a !! "otherEntityRelationshipName") q)) as Hat.
    specialize (Hat ltac:(stable_tac) (relationships c2) (c2, false) i a).
    unfold succeeded in Hat.
    destruct (res (forEach loadRelationship (relationships c2) (c2, false))); [done|].
    apply Hat; [by rewrite Hr2| |done].
    intros [c' hasUserField] [= Hn' Hm'].
    apply (loadRelationship_names B b pre post q (c', hasUserField, a));
      cbn [rctx rel fst snd]; rewrite ?Hn', ?Hn2; try done.
    rewrite <- Hdata. apply _getEntityJson_ext. congruence. }
  eapply wp_mono; [|exact Hloop]. cbn beta. intros hasUserField c3 Hc3.
  apply (wp_stable relationships); [stable_tac|]. by intros _ c4 ->.
Qed.

(** C1, as the code has it. Let [a] be a relationship of the entity whose
    raw record has no plural or capitalized name of the other side, and let
    the document of the other entity have one reciprocal relationship [b],
    named [q]: it points back to the entity, names [a] as its other side,
    and the types are many-to-one and one-to-many, or many-to-many twice.
    When the phase returns, [a] has the plural of [q], [q] capitalized and
    the plural of that. Its [otherEntityRelationshipName] is not taken from
    [b]: [validateFile] has set it before, to the name the record came with
    or else to the name of the entity with a lower-case first letter, and
    [q] is used only if that is empty. *)
Theorem reciprocal_names_resolved fileData (context : Context) i (a B b : obj)
    pre post q :
  relationships context !! i = Some a →
  a !! "otherEntityRelationshipNamePlural" = None →
  a !! "otherEntityRelationshipNameCapitalized" = None →
  _getEntityJson context (a !! "otherEntityName") = Some (VObj B) →
  B !! "relationships" = Some (VArr (pre ++ VObj b :: post)) →
  reciprocates (name context) a b →
  b !! "relationshipName" = str q →
  noReciprocal (name context) a (pre ++ post) →
  succeeded (configuring fileData context) →
  ∃ a', relationships (st (configuring fileData context)) !! i = Some a'
    ∧ a' !! "otherEntityRelationshipName"
      = orElse (otherSideName (name context) a) (str q)
    ∧ a' !! "otherEntityRelationshipNamePlural" = str (pluralize q)
    ∧ a' !! "otherEntityRelationshipNameCapitalized" = str (upperFirst (str q))
    ∧ a' !! "otherEntityRelationshipNameCapitalizedPlural"
      = str (pluralize (upperFirst (str q))).
Proof.
  intros Hi Hplural Hcap Hdata HB Hb Hq Hothers Hok.
  destruct (reciprocates_named _ _ _ Hb) as [Hnamed Htype].
  assert (wp (configuring fileData)
            (λ _ c', ∃ a', relationships c' !! i = Some a'
                           ∧ namedAfter (otherSideName (name context) a) q a')
            context) as Hwp.
  { unfold configuring. apply wp_bind.
    eapply wp_mono; [|by apply (validateFile_names context i a)].
    cbn beta. intros _ c0 ([= Hn0 Hm0] & a1 & Hi0 & <- & [= Hrn Hrt Hoen Hp1 Hc1]).
    apply (wp_stable_bind
             (λ c : Context, (name c, cfg c !! "microservicePath", relationships c)));
      [stable_tac|].
    intros _ c1 [= Hn1 Hm1 Hr1].
    apply (loadInMemoryData_names fileData c1 i a1 B b pre post q);
      rewrite ?Hn1, ?Hn0, ?Hr1; try done; try congruence.
    - rewrite Hoen, <- Hdata. apply _getEntityJson_ext. congruence.
    - by apply (reciprocates_ext _ a).
    - eapply Forall_impl; [exact Hothers|]. cbn beta. intros o Ho other -> Hrec.
      apply (Ho other eq_refl). by apply (reciprocates_ext _ a a1). }
  destruct (wp_succeeded _ _ _ Hwp Hok) as (_ & _ & a' & Ha' & Hnames).
  exists a'. by split.
Qed.

End OtherSide.

(** A pet with an owner, and a person with a home and the pets owned, both
    sides named [owner]. *)
Lemma reciprocal_names_witness :
  let owner : obj :=
    {[ "relationshipName" := VStr "owner"; "otherEntityName" := VStr "person";
       "relationshipType" := VStr "many-to-one" ]} in
  let home : obj :=
    {[ "relationshipName" := VStr "home"; "otherEntityName" := VStr "address";
       "relationshipType" := VStr "many-to-one" ]} in
  let owned : obj :=
    {[ "relationshipName" := VStr "owner"; "otherEntityName" := VStr "pet";
       "relationshipType" := VStr "one-to-many";
       "otherEntityRelationshipName" := VStr "owner" ]} in
  let person : obj := {[ "relationships" := VArr [VObj home; VObj owned] ]} in
  let L := Sample.lib {[ ".jhipster/Person.json" := person ]} in
  let context := Sample.context "Pet" {[ "prodDatabaseType" := VStr "mysql" ]} [] [owner] in
  (relationships context !! 0%nat = Some owner
   ∧ owner !! "otherEntityRelationshipNamePlural" = None
   ∧ owner !! "otherEntityRelationshipNameCapitalized" = None
   ∧ _getEntityJson (H:=L) context (owner !! "otherEntityName") = Some (VObj person)
   ∧ person !! "relationships" = Some (VArr ([VObj home] ++ VObj owned :: []))
   ∧ reciprocates (H:=L) (name context) owner owned
   ∧ owned !! "relationshipName" = str "owner"
   ∧ noReciprocal (H:=L) (name context) owner ([VObj home] ++ [])
   ∧ succeeded (configuring (H:=L) ∅ context))
  ∧ ∃ a', relationships (st (configuring (H:=L) ∅ context)) !! 0%nat = Some a'
      ∧ a' !! "otherEntityRelationshipName"
        = orElse (otherSideName (H:=L) (name context) owner) (str "owner")
      ∧ a' !! "otherEntityRelationshipNamePlural" = str (pluralize (Lib:=L) "owner")
      ∧ a' !! "otherEntityRelationshipNameCapitalized"
        = str (upperFirst (Lib:=L) (str "owner"))
      ∧ a' !! "otherEntityRelationshipNameCapitalizedPlural"
        = str (pluralize (Lib:=L) (upperFirst (Lib:=L) (str "owner"))).
Proof.
  cbn zeta. apply use_hypotheses.
  - split; [reflexivity|]. split; [vm_compute; reflexivity|].
    split; [vm_compute; reflexivity|]. split; [vm_compute; reflexivity|].
    split; [vm_compute; reflexivity|]. split; [vm_compute; repeat split|].
    split; [vm_compute; reflexivity|]. split; [|vm_compute; exact I].
    constructor; [|constructor]. intros other [= <-] (Hback & _).
    vm_compute in Hback. discriminate.
  - intros (H1 & H2 & H3 & H4 & H5 & H6 & H7 & H8 & H9).
    exact (reciprocal_names_resolved (H:=Sample.lib _) _ _ _ _ _ _ _ _ _
             H1 H2 H3 H4 H5 H6 H7 H8 H9).
Defined.

(** C1 as stated fails: both sides are named [owner], yet the name of the
    other side the phase leaves is the one [validateFile] wrote, the name of
    the entity; only the variants are derived from [owner]. *)
Lemma otherEntityRelationshipName_from_validation :
  let owner : obj :=
    {[ "relationshipName" := VStr "owner"; "otherEntityName" := VStr "person";
       "relationshipType" := VStr "many-to-one" ]} in
  let owned : obj :=
    {[ "relationshipName" := VStr "owner"; "otherEntityName" := VStr "pet";
       "relationshipType" := VStr "one-to-many";
       "otherEntityRelationshipName" := VStr "owner" ]} in
  let person : obj := {[ "relationships" := VArr [VObj owned] ]} in
  let L := Sample.lib {[ ".jhipster/Person.json" := person ]} in
  let context := Sample.context "Pet" {[ "prodDatabaseType" := VStr "mysql" ]} [] [owner] in
  let o := configuring (H:=L) ∅ context in
  let resolved k := relationships (st o) !! 0%nat ≫= (.!! k) in
  res o = inr ()
  ∧ reciprocates (H:=L) "Pet" owner owned
  ∧ resolved "otherEntityRelationshipName" = str "pet"
  ∧ ¬ (resolved "otherEntityRelationshipName" = str "owner")
  ∧ resolved "otherEntityRelationshipNamePlural" = str "owners"
  ∧ resolved "otherEntityRelationshipNameCapitalized" = str "Owner"
  ∧ resolved "otherEntityRelationshipNameCapitalizedPlural" = str "Owners".
Proof.
  cbn zeta. split; [vm_compute; reflexivity|].
  split; [vm_compute; repeat split|].
  split; [vm_compute; reflexivity|].
  split; [|repeat split; vm_compute; reflexivity].
  intros Heq. vm_compute in Heq. discriminate.
Qed.
(** ** More on the table name *)

(** Runs a computation made of the primitives of the monad. *)
Ltac evaluate :=
  cbv [mbind M_bind mret M_ret get gets modify warning raise when cset
       upperCased longerThan str res st log app].

Section TableNameVerdict.
Context `{Lib}.

Lemma isStr_empty (t : string) : isStr (str t) "" = true ↔ t = "".
Proof.
  rewrite isStr_true. split; [by intros [= ->]|by intros ->].
Qed.

(** The outcome of [_validateTableName] on a string, by the tests it
    makes: of the characters, of emptiness, the reserved-keyword test, which
    may throw, and the tests of the length. *)
Lemma _validateTableName_cases (context : Context) (t : string) :
  let o := _validateTableName (str t) context in
  let oracle := isStr (cfg context !! "prodDatabaseType") "oracle" in
  let unchecked := truthy (cfg context !! "skipCheckLengthOfIdentifier") in
  if onlyWordChars t && negb (String.eqb t "")
  then
    match isReservedTableName (str t) (cfg context !! "prodDatabaseType") with
    | None => res o = inl TypeError ∧ st o = context ∧ log o = []
    | Some reserved =>
      if reserved || negb (oracle && (26 <? String.length t)%nat && negb unchecked)
      then res o = inr Valid
      else ∃ msg, res o = inr (Invalid msg) ∧ st o = context ∧ log o = []
    end
  else ∃ msg, res o = inr (Invalid msg) ∧ st o = context ∧ log o = [].
Proof.
  cbn zeta. unfold _validateTableName. rewrite (bind_run get).
  cbn [get res st log app tpl str].
  destruct (onlyWordChars t) eqn:Hword; cbn [negb andb]; [|evaluate; eauto].
  fold (str t). destruct (isStr (str t) "") eqn:Hempty.
  { apply isStr_empty in Hempty as ->. cbn [String.eqb negb andb]. evaluate. eauto. }
  assert (String.eqb t "" = false) as ->.
  { apply String.eqb_neq. intros ->. by rewrite (proj2 (isStr_empty "")) in Hempty. }
  cbn [negb andb]. unfold reservedTableName.
  destruct (isReservedTableName _ _) as [[]|] eqn:Hreserved; cbn [orb];
    [|
     |by evaluate].
  { by destruct (truthy (cfg context !! "jhiTablePrefix")); evaluate. }
  destruct (isStr (cfg context !! "prodDatabaseType") "oracle"); cbn [andb];
    [|by evaluate].
  evaluate. destruct (26 <? String.length t)%nat eqn:Hlong; cbn [andb negb].
  - destruct (truthy (cfg context !! "skipCheckLengthOfIdentifier")); cbn [negb];
      [by destruct (14 <? String.length t)%nat|eauto].
  - by destruct (_ && _).
Qed.

(** [_validateTableName] on a string throws only where the
    reserved-keyword test does, once the name has passed the tests of its
    characters and of emptiness, and what it throws is a [TypeError].
    Otherwise it returns: it accepts the name exactly when it is not empty,
    has only letters, digits and underscores, and is a reserved word or is
    not too long for Oracle, a reserved word is never checked for its length.
    A name it rejects, and a throw, leave the context as it was and warn of
    nothing. *)
Theorem table_name_verdict (context : Context) (t : string) :
  let o := _validateTableName (str t) context in
  let oracle := isStr (cfg context !! "prodDatabaseType") "oracle" in
  let unchecked := truthy (cfg context !! "skipCheckLengthOfIdentifier") in
  let reserved := isReservedTableName (str t) (cfg context !! "prodDatabaseType") in
  (res o = inr Valid
   ↔ onlyWordChars t = true ∧ t ≠ ""
     ∧ ∃ r, reserved = Some r
         ∧ (r || negb (oracle && (26 <? String.length t)%nat && negb unchecked)) = true)
  ∧ (∀ e, res o = inl e
          ↔ e = TypeError ∧ onlyWordChars t = true ∧ t ≠ "" ∧ reserved = None)
  ∧ (res o ≠ inr Valid → st o = context ∧ log o = []).
Proof.
  cbn zeta. pose proof (_validateTableName_cases context t) as Hcases.
  cbn zeta in Hcases.
  destruct (onlyWordChars t) eqn:Hword; cbn [andb] in Hcases.
  2: { destruct Hcases as (msg & Hres & Hst & Hlog). rewrite Hres.
       split; [split; [done|by intros (? & _)]|].
       split; [|done]. intros e. split; [done|]. by intros (_ & ? & _). }
  destruct (String.eqb t "") eqn:Hempty; cbn [negb] in Hcases.
  { apply String.eqb_eq in Hempty as ->.
    destruct Hcases as (msg & Hres & Hst & Hlog). rewrite Hres.
    split; [split; [done|by intros (_ & ? & _)]|].
    split; [|done]. intros e. split; [done|]. by intros (_ & _ & ? & _). }
  apply String.eqb_neq in Hempty.
  destruct (isReservedTableName _ _) as [r|]; cycle 1.
  { destruct Hcases as (Hres & Hst & Hlog). rewrite Hres.
    split; [split; [done|by intros (_ & _ & ? & ? & _)]|].
    split; [|done]. intros e. split; [by intros [= <-]|by intros (-> & _)]. }
  destruct (r || _) eqn:Hlen.
  - rewrite Hcases. split; [split; [by eauto|done]|]. split; [|done].
    intros e. split; [done|]. by intros (_ & _ & _ & ?).
  - destruct Hcases as (msg & Hres & Hst & Hlog). rewrite Hres.
    split; [split; [done|]|].
    { intros (_ & _ & r' & [= <-] & Hyes). congruence. }
    split; [|done]. intros e. split; [done|]. by intros (_ & _ & _ & ?).
Qed.

(** A name [_validateTableName] accepts that is not a reserved word leaves
    the context as it was; there is one warning when the database is Oracle,
    the name has more than 14 characters and the length is checked, and none
    otherwise. *)
Theorem table_name_length_warning (context : Context) (t : string) :
  let o := _validateTableName (str t) context in
  let oracle := isStr (cfg context !! "prodDatabaseType") "oracle" in
  let unchecked := truthy (cfg context !! "skipCheckLengthOfIdentifier") in
  res o = inr Valid →
  isReservedTableName (str t) (cfg context !! "prodDatabaseType") = Some false →
  st o = context
  ∧ length (log o)
    = (if oracle && (14 <? String.length t)%nat && negb unchecked then 1 else 0)%nat
  ∧ (oracle && negb unchecked = true → (String.length t <= 26)%nat).
Proof.
  cbn zeta. unfold _validateTableName. rewrite (bind_run get).
  cbn [get res st log app tpl str]. intros Hvalid Hfree. revert Hvalid.
  destruct (onlyWordChars t); cbn [negb]; [|by evaluate].
  fold (str t). destruct (isStr (str t) ""); [by evaluate|].
  unfold reservedTableName. rewrite Hfree.
  destruct (isStr (cfg context !! "prodDatabaseType") "oracle"); cbn [andb];
    [|by evaluate].
  evaluate. destruct (26 <? String.length t)%nat eqn:Hlong; cbn [andb negb].
  - destruct (truthy (cfg context !! "skipCheckLengthOfIdentifier")); cbn [negb];
      [|done].
    by destruct (14 <? String.length t)%nat.
  - apply Nat.ltb_ge in Hlong.
    destruct (14 <? String.length t)%nat;
      by destruct (truthy (cfg context !! "skipCheckLengthOfIdentifier")).
Qed.

(** The method of the [initializing] phase turns a rejection into an error:
    it returns when the table name of the context is one that
    [_validateTableName] accepts, throws a [SchemaError] when it is one that
    [_validateTableName] rejects, and throws a [TypeError] where the
    reserved-keyword test does; a throw leaves the context as it was, without
    a warning. *)
Theorem validateTableName_outcome (context : Context) (t : string) :
  cfg context !! "entityTableName" = str t →
  let o := validateTableName context in
  let oracle := isStr (cfg context !! "prodDatabaseType") "oracle" in
  let unchecked := truthy (cfg context !! "skipCheckLengthOfIdentifier") in
  let rejected := (∃ msg, res o = inl (SchemaError msg)) ∧ st o = context ∧ log o = [] in
  if onlyWordChars t && negb (String.eqb t "")
  then
    match isReservedTableName (str t) (cfg context !! "prodDatabaseType") with
    | None => res o = inl TypeError ∧ st o = context ∧ log o = []
    | Some reserved =>
      if reserved || negb (oracle && (26 <? String.length t)%nat && negb unchecked)
      then res o = inr ()
      else rejected
    end
  else rejected.
Proof.
  intros Htable. cbn zeta. unfold validateTableName. rewrite (bind_run get).
  cbn [get res st log app]. rewrite Htable, bind_run.
  pose proof (_validateTableName_cases context t) as Hcases. cbn zeta in Hcases.
  destruct (onlyWordChars t && _).
  - destruct (isReservedTableName _ _) as [r|].
    + destruct (r || _).
      * by rewrite Hcases.
      * destruct Hcases as (msg & -> & -> & ->). cbn. eauto.
    + by destruct Hcases as (-> & -> & ->).
  - destruct Hcases as (msg & -> & -> & ->). cbn. eauto.
Qed.

End TableNameVerdict.

(** A name of fifteen letters on Oracle. *)
Lemma table_name_length_witness :
  let L := Sample.lib ∅ in
  let context :=
    Sample.context "Bill" {[ "prodDatabaseType" := VStr "oracle" ]} [] [] in
  let t := "customer_orders" in
  let o := _validateTableName (H:=L) (str t) context in
  let oracle := isStr (cfg context !! "prodDatabaseType") "oracle" in
  let unchecked := truthy (cfg context !! "skipCheckLengthOfIdentifier") in
  (res o = inr Valid
   ∧ isReservedTableName (Lib:=L) (str t) (cfg context !! "prodDatabaseType")
     = Some false)
  ∧ (st o = context
     ∧ length (log o)
       = (if oracle && (14 <? String.length t)%nat && negb unchecked then 1 else 0)%nat
     ∧ (oracle && negb unchecked = true → (String.length t <= 26)%nat)).
Proof.
  cbn zeta. apply use_hypotheses.
  - split; vm_compute; reflexivity.
  - intros [H1 H2]. exact (table_name_length_warning (H:=Sample.lib ∅) _ _ H1 H2).
Defined.

(** A table name with a blank. *)
Lemma validateTableName_witness :
  let L := Sample.lib ∅ in
  let t := "customer orders" in
  let context := Sample.context "Bill" {[ "entityTableName" := VStr t ]} [] [] in
  let o := validateTableName (H:=L) context in
  let oracle := isStr (cfg context !! "prodDatabaseType") "oracle" in
  let unchecked := truthy (cfg context !! "skipCheckLengthOfIdentifier") in
  let rejected := (∃ msg, res o = inl (SchemaError msg)) ∧ st o = context ∧ log o = [] in
  cfg context !! "entityTableName" = str t
  ∧ if onlyWordChars t && negb (String.eqb t "")
    then
      match isReservedTableName (Lib:=L) (str t) (cfg context !! "prodDatabaseType") with
      | None => res o = inl TypeError ∧ st o = context ∧ log o = []
      | Some reserved =>
        if reserved || negb (oracle && (26 <? String.length t)%nat && negb unchecked)
        then res o = inr ()
        else rejected
      end
    else rejected.
Proof.
  cbn zeta. apply use_hypotheses.
  - vm_compute. reflexivity.
  - intros H1. exact (validateTableName_outcome (H:=Sample.lib ∅) _ _ H1).
Defined.

(** Without a production database type the reserved-keyword test throws:
    the name [customer] passes the tests before it, and the check ends in a
    [TypeError]. *)
Lemma table_name_without_database :
  let L := Sample.lib ∅ in
  let context := Sample.context "Customer" ∅ [] [] in
  let o := _validateTableName (H:=L) (str "customer") context in
  cfg context !! "prodDatabaseType" = None
  ∧ res o = inl TypeError
  ∧ st o = context
  ∧ log o = [].
Proof. cbn zeta. repeat split; vm_compute; reflexivity. Qed.
(** ** More on validation *)

(** A guard of [validateFile] throws or passes. *)
Ltac guarded :=
  let Hany := fresh in
  edestruct checks_guard as (_ & _ & Hany); [|exact Hany]; naming_tac.

Section Validation.
Context `{Lib}.

Lemma rejects_fails {A} entityName (m : M obj A) field :
  rejects entityName m field → ¬ succeeded (m field).
Proof.
  intros (msg & Hres & _) Hok. unfold succeeded in Hok. by rewrite Hres in Hok.
Qed.

Lemma unsupported_rule_rejects entityName (rules : list val) rule field :
  rule ∈ rules →
  oneOf SUPPORTED_VALIDATION_RULES (Some rule) = false →
  rejects entityName
    (forM_ rules (λ fieldValidateRule,
      when (negb (oneOf SUPPORTED_VALIDATION_RULES (Some fieldValidateRule)))
        (throw (λ field,
           "fieldValidateRules contains unknown validation rule "
           +:+ tpl (Some fieldValidateRule) +:+ inJson entityName "field" field
           +:+ " [supported validation rules "
           +:+ String.concat "," SUPPORTED_VALIDATION_RULES +:+ "]")))) field.
Proof.
  intros Hin Hno. induction rules as [|r rules IH]; [by apply elem_of_nil in Hin|].
  cbn [forM_]. apply elem_of_cons in Hin as [<-|Hin].
  - apply rejects_bind_l. rewrite Hno. cbn [negb when].
    apply rejects_throw. naming_tac.
  - apply rejects_bind_r; [|intros _; by apply IH].
    destruct (oneOf SUPPORTED_VALIDATION_RULES (Some r)); cbn [negb when].
    + right. apply passes_ret.
    + left. apply rejects_throw. naming_tac.
Qed.

Lemma unsupported_field_rejects entityName field rules rule :
  field !! "fieldValidateRules" = Some (VArr rules) →
  rule ∈ rules →
  oneOf SUPPORTED_VALIDATION_RULES (Some rule) = false →
  rejects entityName (validateField entityName) field.
Proof.
  intros Hrules Hin Hno. unfold validateField.
  apply rejects_bind_r; [guarded|intros _].
  apply rejects_bind_r; [guarded|intros _].
  apply rejects_get. rewrite Hrules.
  apply rejects_bind_l. by apply (unsupported_rule_rejects _ _ rule).
Qed.

Lemma unnamed_field_rejects entityName field :
  field !! "fieldName" = None ∨ field !! "fieldType" = None →
  rejects entityName (validateField entityName) field.
Proof.
  intros Hnone. unfold validateField.
  destruct (field !! "fieldName") eqn:Hname.
  - destruct Hnone as [|Htype]; [done|].
    apply rejects_bind_r; [guarded|intros _].
    apply rejects_bind_l.
    edestruct (checks_guard entityName) as (Hyes & _); [|apply Hyes; by rewrite Htype].
    naming_tac.
  - apply rejects_bind_l.
    edestruct (checks_guard entityName) as (Hyes & _); [|apply Hyes; by rewrite Hname].
    naming_tac.
Qed.

Lemma rules_not_array_rejects entityName field v :
  field !! "fieldValidateRules" = Some v →
  (∀ rules, v ≠ VArr rules) →
  rejects entityName (validateField entityName) field.
Proof.
  intros Hrules Hno. unfold validateField.
  apply rejects_bind_r; [guarded|intros _].
  apply rejects_bind_r; [guarded|intros _].
  apply rejects_get. rewrite Hrules.
  destruct v; try (apply rejects_throw; naming_tac). by destruct (Hno l).
Qed.

Lemma wellFormedField_succeeds entityName field :
  wellFormedField field → succeeded (validateField entityName field).
Proof.
  intros (Hname & Htype & Hrules).
  destruct (field !! "fieldValidateRules") as [[| | | |rules|]|] eqn:Hr; try done.
  - destruct Hrules as [Hsupported Hcompanions].
    destruct (validateField_accepted entityName field rules Htype Hr) as (Hres & _);
      [done|].
    unfold succeeded. rewrite Hres.
    apply (returns_succeeded _ (λ _ _, True)). run. by destruct (isStr _ _); run.
  - apply (returns_succeeded _ (λ _ _, True)). unfold validateField.
    run_step. run_step. destruct (field !! "fieldName"); [|done]. cbn [isUndefined].
    run_step. run_step. destruct (field !! "fieldType"); [|done]. cbn [isUndefined].
    run_step. run_step. rewrite Hr. by run.
Qed.

Lemma validateField_succeeds_iff entityName field :
  succeeded (validateField entityName field) ↔ wellFormedField field.
Proof.
  split; [|apply wellFormedField_succeeds]. intros Hok.
  assert (∀ P, (P → rejects entityName (validateField entityName) field) → ¬ P)
    as Hnot by (intros P HP p; by apply (rejects_fails _ _ _ (HP p))).
  split; [|split].
  - intros Hnone. apply (Hnot _ (unnamed_field_rejects entityName field)). auto.
  - intros Hnone. apply (Hnot _ (unnamed_field_rejects entityName field)). auto.
  - destruct (field !! "fieldValidateRules") as [v|] eqn:Hrules; [|done].
    destruct v as [| | | |rules|];
      try (apply (Hnot _ (rules_not_array_rejects entityName field _ Hrules));
           by intros).
    split.
    + apply list.Forall_forall. intros rule Hin.
      destruct (oneOf SUPPORTED_VALIDATION_RULES (Some rule)) eqn:Hrule; [done|].
      destruct (rejects_fails _ _ _
                  (unsupported_field_rejects entityName field rules rule
                     Hrules Hin Hrule) Hok).
    + intros rule companion Hpair Hin Hnone.
      apply (rejects_fails _ _ _
               (companion_missing_rejects entityName field rules rule companion
                  Hrules Hpair Hin Hnone) Hok).
Qed.

(** The checks of a field. [validateFile] lets a field through exactly when
    it has a name and a type and its rules, if it has any, are an array of
    supported rules each of which comes with the parameter it needs. Every
    other field is refused with a [SchemaError] that names the entity and
    the field, before anything was written to it. *)
Theorem validateField_accepts_iff entityName field :
  (succeeded (validateField entityName field) ↔ wellFormedField field)
  ∧ (rejects entityName (validateField entityName) field
     ∨ wellFormedField field).
Proof.
  split; [apply validateField_succeeds_iff|].
  destruct (validateField_outcome entityName field) as [Hrejects|Hok]; [by left|].
  right. by apply (proj1 (validateField_succeeds_iff entityName field)).
Qed.

End Validation.
Section RelationshipChecks.
Context `{Lib}.

Lemma validateRelationship_wp entityName (r : obj) :
  wp (validateRelationship entityName)
     (λ _ r', wellFormedRelationship r ∧ withFallbacks entityName r r') r.
Proof.
  unfold validateRelationship.
  run; repeat (match goal with |- context [if ?b then _ else _] => destruct b eqn:? end; run);
  rewrite ?lookup_assign_eq, ?lookup_assign_ne in * by done;
  (split;
    [ (split; [|split]);
      [ by destruct (_ !! "otherEntityName")
      | by destruct (_ !! "relationshipType")
      | intros Hnone;
        match goal with
        | Hc : isUndefined (_ !! "ownerSide") && _ = false |- _ =>
          by rewrite Hnone in Hc
        end ]
    | unfold withFallbacks;
      repeat match goal with Hc : ?c = _ |- context [?c] => rewrite Hc end;
      (split; [|split; [|split]]);
      repeat first [rewrite lookup_assign_eq | rewrite lookup_assign_ne by done];
      try done;
      intros k Hk; unfold relationshipFallbacks in Hk;
      repeat (apply not_elem_of_cons in Hk as [? Hk]);
      by rewrite ?lookup_assign_ne by done ]).
Qed.

Lemma wellFormedRelationship_succeeds entityName (r : obj) :
  wellFormedRelationship r → succeeded (validateRelationship entityName r).
Proof.
  intros (Hother & Htype & Howner).
  apply (returns_succeeded _ (λ _ _, True)). unfold validateRelationship.
  run; repeat (match goal with |- context [if ?b then _ else _] => destruct b eqn:? end; run);
  rewrite ?lookup_assign_eq, ?lookup_assign_ne in * by done; try done; exfalso;
  first
    [ by destruct (r !! "otherEntityName")
    | by destruct (r !! "relationshipType")
    | match goal with
      | Hc : isUndefined (r !! "ownerSide") && _ = true |- _ =>
        apply andb_true_iff in Hc as [Hnone Hc];
        rewrite Howner in Hc; [done|by destruct (r !! "ownerSide")]
      end ].
Qed.



(** The fallbacks of a relationship. When [validateFile] lets a
    relationship through it has written to it nothing but a missing
    [relationshipName] (the name of the other entity), a missing
    [otherEntityRelationshipName] if the type is not empty (the name of the
    entity, first letter in lower case) and a missing [otherEntityField] on
    the side that holds the reference ([id]): no property the relationship
    came with is overwritten. *)
Theorem validateRelationship_fallbacks entityName (r : obj) :
  succeeded (validateRelationship entityName r) →
  let r' := st (validateRelationship entityName r) in
  withFallbacks entityName r r'
  ∧ r' !! "relationshipName" ≠ None
  ∧ ∀ k, r !! k ≠ None → r' !! k = r !! k.
Proof.
  intros Hok. cbn zeta.
  destruct (wp_succeeded _ _ _ (validateRelationship_wp entityName r) Hok)
    as (_ & _ & (Hother & _) & Hfall).
  split; [done|]. destruct Hfall as (Hname & Hside & Hfield & Hframe). split.
  - rewrite Hname. by destruct (r !! "relationshipName").
  - intros k Hk.
    destruct (decide (k ∈ relationshipFallbacks)) as [Hin|Hout]; [|by apply Hframe].
    unfold relationshipFallbacks in Hin.
    repeat (apply elem_of_cons in Hin as [->|Hin]); [..|by apply elem_of_nil in Hin].
    + rewrite Hname. by destruct (r !! "relationshipName").
    + rewrite Hside. by destruct (r !! "otherEntityRelationshipName").
    + rewrite Hfield. by destruct (r !! "otherEntityField").
Qed.

End RelationshipChecks.

(** The owner of a pet, by the name of the other entity alone. *)
Lemma validateRelationship_fallbacks_witness :
  let L := Sample.lib ∅ in
  let r : obj :=
    {[ "otherEntityName" := VStr "owner"; "relationshipType" := VStr "many-to-one" ]} in
  let r' := st (validateRelationship (H:=L) "Pet" r) in
  succeeded (validateRelationship (H:=L) "Pet" r)
  ∧ (withFallbacks (H:=L) "Pet" r r'
     ∧ r' !! "relationshipName" ≠ None
     ∧ ∀ k, r !! k ≠ None → r' !! k = r !! k).
Proof.
  cbn zeta. apply use_hypotheses.
  - vm_compute. exact I.
  - intros H1. exact (validateRelationship_fallbacks (H:=Sample.lib ∅) _ _ H1).
Defined.

Section DocumentChecks.
Context `{Lib}.




Lemma succeeded_bind {S A B} (m : M S A) (k : A → M S B) s :
  succeeded ((m ≫= k) s)
  ↔ succeeded (m s) ∧ ∀ a, res (m s) = inr a → succeeded (k a (st (m s))).
Proof.
  unfold succeeded. rewrite bind_run.
  destruct (res (m s)) as [e|a]; cbn [res].
  - split; [done|by intros []].
  - split; [by intros ? ; split; [|intros ? [= <-]]|intros [_ Hk]; by apply Hk].
Qed.




End DocumentChecks.
Section RootChecks.
Context `{Lib}.

Lemma rootFallback_wp key shown fallback (context : Context) :
  wp (rootFallback key shown fallback)
     (λ _ c', cfg c' !! key
              = if isUndefined (cfg context !! key) then fallback
                else cfg context !! key) context.
Proof.
  unfold rootFallback. run.
  destruct (isUndefined (cfg context !! key)); run; [|done].
  cbn. by rewrite lookup_assign_eq.
Qed.

Lemma rootFallback_then {B} key shown fallback (k : unit → M Context B)
    (context : Context) :
  (∀ a, stable (λ c : Context, cfg c !! key) (k a)) →
  wp (rootFallback key shown fallback ≫= k)
     (λ _ c', cfg c' !! key
              = if isUndefined (cfg context !! key) then fallback
                else cfg context !! key) context.
Proof.
  intros Hk.
  exact (wp_then_stable (λ c : Context, cfg c !! key)
           (λ v, v = if isUndefined (cfg context !! key) then fallback
                     else cfg context !! key)
           _ k context (rootFallback_wp key shown fallback context) Hk).
Qed.

Lemma validateRoot_fallback (context : Context) k fallback :
  (k, fallback) ∈ rootDefaults →
  wp validateRoot
     (λ _ c', cfg c' !! k
              = if isUndefined (cfg context !! k) then fallback
                else cfg context !! k) context.
Proof.
  unfold rootDefaults. intros Hk.
  repeat (apply elem_of_cons in Hk as [[= -> ->]|Hk]); [..|by apply elem_of_nil in Hk];
    unfold validateRoot.
  - apply (wp_stable_bind (λ c : Context, cfg c !! "dto")); [stable_tac|].
    intros _ c1 <-. apply rootFallback_then. intros _. stable_tac.
  - do 2 (apply (wp_stable_bind (λ c : Context, cfg c !! "service"));
          [stable_tac|intros _ ? <-]).
    apply rootFallback_then. intros _. stable_tac.
  - do 3 (apply (wp_stable_bind (λ c : Context, cfg c !! "jpaMetamodelFiltering"));
          [stable_tac|intros _ ? <-]).
    apply rootFallback_then. intros _. stable_tac.
  - do 4 (apply (wp_stable_bind (λ c : Context, cfg c !! "pagination"));
          [stable_tac|intros _ ? <-]).
    apply rootFallback_then. intros _. stable_tac.
Qed.

Lemma validateRoot_changelogDate (context : Context) :
  cfg context !! "changelogDate" ≠ None →
  wp validateRoot
     (λ _ c', cfg c' !! "changelogDate" = cfg context !! "changelogDate") context.
Proof.
  intros Hdate. unfold validateRoot.
  refine (wp_then_stable (λ c : Context, cfg c !! "changelogDate")
            (λ v, v = cfg context !! "changelogDate") _ _ _ _ _).
  - run. by destruct (cfg context !! "changelogDate").
  - intros _. stable_tac.
Qed.

Lemma validateRoot_frame k :
  k ∉ "changelogDate" :: "clientRootFolder" :: rootDefaults.*1 →
  stable (λ c : Context, cfg c !! k) validateRoot.
Proof.
  cbn. intros Hk. repeat (apply not_elem_of_cons in Hk as [? Hk]). stable_tac.
Qed.

(** The root properties. The last step of [validateFile] never throws. It
    gives [dto], [service] and [pagination] the value [no] and
    [jpaMetamodelFiltering] the value [false] when they are missing and
    keeps them when they are there; besides these it writes to
    [changelogDate], when it is missing, and to [clientRootFolder] only,
    and not to the fields or the relationships. *)
Theorem validateRoot_defaults (context : Context) :
  let o := validateRoot context in
  res o = inr ()
  ∧ (∀ k fallback, (k, fallback) ∈ rootDefaults →
       cfg (st o) !! k
       = if isUndefined (cfg context !! k) then fallback else cfg context !! k)
  ∧ (∀ k, k ≠ "clientRootFolder" → cfg context !! k ≠ None →
          cfg (st o) !! k = cfg context !! k)
  ∧ (∀ k, k ∉ "changelogDate" :: "clientRootFolder" :: rootDefaults.*1 →
          cfg (st o) !! k = cfg context !! k)
  ∧ name (st o) = name context
  ∧ fields (st o) = fields context
  ∧ relationships (st o) = relationships context.
Proof.
  cbn zeta. destruct (validateRoot_returns context) as ([] & Hres & _).
  assert (succeeded (validateRoot context)) as Hok
    by (unfold succeeded; by rewrite Hres).
  assert (∀ k fallback, (k, fallback) ∈ rootDefaults →
            cfg (st (validateRoot context)) !! k
            = if isUndefined (cfg context !! k) then fallback else cfg context !! k)
    as Hdefaults.
  { intros k fallback Hk.
    by destruct (wp_succeeded _ _ _ (validateRoot_fallback context k fallback Hk) Hok)
      as (_ & _ & ?). }
  split; [done|]. split; [done|]. split; [|split].
  - intros k Hk Hdefined.
    destruct (decide (k ∈ "changelogDate" :: "clientRootFolder" :: rootDefaults.*1))
      as [Hin|Hout]; [|by apply validateRoot_frame].
    cbn in Hin. apply elem_of_cons in Hin as [->|Hin].
    { by destruct (wp_succeeded _ _ _ (validateRoot_changelogDate context Hdefined) Hok)
        as (_ & _ & ?). }
    apply elem_of_cons in Hin as [->|Hin]; [done|].
    repeat (apply elem_of_cons in Hin as [->|Hin]); [..|by apply elem_of_nil in Hin];
      (erewrite Hdefaults;
       [|unfold rootDefaults; repeat first [by left|right]]);
      by destruct (cfg context !! _).
  - intros k Hk. by apply validateRoot_frame.
  - pose proof (ltac:(stable_tac) :
                  stable (λ c : Context, (name c, fields c, relationships c))
                    validateRoot) as Hrest.
    specialize (Hrest context). cbn beta in Hrest. by injection Hrest as -> -> ->.
Qed.

End RootChecks.
(** ** More on the fields *)

Section FieldAggregates.
Context `{Lib}.

Lemma someOfType_snoc types done (field : obj) :
  someOfType types (done ++ [field])
  = someOfType types done || oneOf types (field !! "fieldType").
Proof. unfold someOfType. rewrite existsb_app. cbn. by rewrite orb_false_r. Qed.

Lemma binaryFields_snoc done (field : obj) :
  binaryFields (done ++ [field])
  = binaryFields done
    ++ (if oneOf ["byte[]"; "ByteBuffer"] (field !! "fieldType") then [field] else []).
Proof.
  unfold binaryFields. rewrite filter_app, filter_cons, filter_nil.
  destruct (decide _) as [->|Hno]; [done|]. by apply not_true_is_false in Hno as ->.
Qed.

(** Lines 688-714 on a field of type [fieldType]. *)
Lemma fieldTypeFlags_wp fieldType (s : FieldState) flag types :
  (flag, types) ∈ typeFlags →
  wp (fieldTypeFlags fieldType)
     (λ _ s', snd s' = snd s
              ∧ cfg (fst s') !! flag
                = (if oneOf types fieldType then boolean true
                   else cfg (fst s) !! flag)
              ∧ blobFields (fst s')
                = blobFields (fst s)
                  ++ (if oneOf ["byte[]"; "ByteBuffer"] fieldType then [snd s] else []))
     s.
Proof.
  unfold typeFlags. intros Hflag.
  repeat (apply elem_of_cons in Hflag as [[= -> ->]|Hflag]);
    [..|by apply elem_of_nil in Hflag];
    unfold fieldTypeFlags, oneOf, existsb;
    repeat (match goal with
            | |- context [if isStr fieldType ?t then _ else _] =>
              destruct (isStr fieldType t) eqn:?
            | |- context [if isStr fieldType ?t || _ then _ else _] =>
              destruct (isStr fieldType t) eqn:?
            end; cbn [orb]);
    repeat match goal with
           | Hyes : isStr fieldType _ = true |- _ =>
             apply isStr_true in Hyes; subst fieldType
           end;
    try discriminate;
    run;
    repeat (match goal with |- context [if ?b then _ else _] => destruct b end; run);
    simpl;
    repeat first [rewrite lookup_assign_eq | rewrite lookup_assign_ne by done];
    by rewrite ?app_nil_r.
Qed.

Lemma classified_ext (c c' : Context) done :
  blobFields c' = blobFields c →
  (λ flag : string * list string, cfg c' !! flag.1) <$> typeFlags
  = (λ flag : string * list string, cfg c !! flag.1) <$> typeFlags →
  classified c done → classified c' done.
Proof.
  intros Hblobs Hflags [Hb Hf]. split; [congruence|].
  intros flag types Hin. rewrite <- (Hf flag types Hin).
  cbn in Hflags. injection Hflags as ? ? ? ? ? ? ? ?.
  unfold typeFlags in Hin.
  repeat (apply elem_of_cons in Hin as [[= -> ->]|Hin]); [..|by apply elem_of_nil in Hin];
    done.
Qed.

Lemma fieldTypeFlags_classifies fieldType done (s : FieldState) :
  classified (fst s) done →
  snd s !! "fieldType" = fieldType →
  wp (fieldTypeFlags fieldType)
     (λ _ s', snd s' = snd s ∧ classified (fst s') (done ++ [snd s])) s.
Proof.
  intros [Hb Hf] Htype. unfold wp.
  destruct (res (fieldTypeFlags fieldType s)) as [e|[]] eqn:Hres; [done|].
  assert (∀ flag types, (flag, types) ∈ typeFlags →
            snd (st (fieldTypeFlags fieldType s)) = snd s
            ∧ cfg (fst (st (fieldTypeFlags fieldType s))) !! flag
              = (if oneOf types fieldType then boolean true else cfg (fst s) !! flag)
            ∧ blobFields (fst (st (fieldTypeFlags fieldType s)))
              = blobFields (fst s)
                ++ (if oneOf ["byte[]"; "ByteBuffer"] fieldType then [snd s] else []))
    as Hall.
  { intros flag types Hin.
    pose proof (fieldTypeFlags_wp fieldType s flag types Hin) as Hwp.
    unfold wp in Hwp. by rewrite Hres in Hwp. }
  destruct (Hall "fieldsContainBlob" ["byte[]"; "ByteBuffer"]) as (Hsame & _ & Hblobs);
    [unfold typeFlags; repeat first [by left|right]|].
  split; [done|]. split.
  - by rewrite Hblobs, Hb, binaryFields_snoc, Htype.
  - intros flag types Hin. destruct (Hall flag types Hin) as (_ & -> & _).
    rewrite someOfType_snoc, Htype, (Hf flag types Hin).
    destruct (oneOf types fieldType); [by rewrite orb_true_r|by rewrite orb_false_r].
Qed.

Lemma classified_same (c c' : Context) done :
  (blobFields c',
   (λ flag : string * list string, cfg c' !! flag.1) <$> typeFlags)
  = (blobFields c,
     (λ flag : string * list string, cfg c !! flag.1) <$> typeFlags) →
  classified c done → classified c' done.
Proof.
  intros Hsame. apply classified_ext;
    [exact (f_equal fst Hsame)|exact (f_equal snd Hsame)].
Qed.

(** The field callback files the field it was given. *)
Lemma loadField_classifies done (s : FieldState) :
  classified (fst s) done →
  wp loadField (λ _ s', classified (fst s') (done ++ [snd s'])) s.
Proof.
  intros Hdone. unfold loadField. run_step. run_step. cbv zeta.
  set (obs := λ s : FieldState,
         (blobFields (fst s),
          (λ flag : string * list string, cfg (fst s) !! flag.1) <$> typeFlags)).
  apply wp_bind.
  eapply wp_mono;
    [|apply wp_and;
       [apply returns_wp, classifyField_returns
       |apply (wp_stable obs); [subst obs; stable_tac|intros ? s1 Hs1; exact Hs1]]].
  cbn beta. intros fieldType s1 [(_ & Htype & _) Hs1].
  apply (classified_same _ (fst s1)) in Hdone; [|exact Hs1]. clear Hs1.
  apply (wp_stable_bind (λ s : FieldState, (obs s, snd s !! "fieldType")));
    [subst obs; stable_tac|].
  intros _ s2 Hs2.
  apply (classified_same _ (fst s2)) in Hdone; [|exact (f_equal fst Hs2)].
  apply (f_equal snd) in Hs2. cbn [snd] in Hs2. rewrite Htype in Hs2. clear s1 Htype.
  apply (wp_stable_bind (λ s : FieldState, (obs s, snd s !! "fieldType")));
    [subst obs; stable_tac|].
  intros _ s3 Hs3.
  apply (classified_same _ (fst s3)) in Hdone; [|exact (f_equal fst Hs3)].
  apply (f_equal snd) in Hs3. cbn [snd] in Hs3. rewrite Hs2 in Hs3. clear s2 Hs2.
  apply wp_bind.
  eapply wp_mono; [|by apply (fieldTypeFlags_classifies fieldType done s3)].
  cbn beta. intros _ s4 [Hsame Hs4].
  apply (wp_stable (λ s : FieldState, (obs s, snd s))); [subst obs; stable_tac|].
  intros _ s5 Hs5.
  pose proof (f_equal snd Hs5) as Hsnd. cbn [snd] in Hsnd. rewrite Hsnd, Hsame.
  by apply (classified_same (fst s4)); [exact (f_equal fst Hs5)|].
Qed.

Lemma forM_cset_false (flags : list string) (c : Context) flag :
  flag ∈ flags →
  wp (forM_ flags (λ flag, cset flag (λ _, boolean false)))
     (λ _ c', cfg c' !! flag = boolean false) c.
Proof.
  revert c. induction flags as [|x flags IH]; intros c Hin;
    [by apply elem_of_nil in Hin|].
  cbn [forM_]. destruct (decide (flag ∈ flags)) as [Hlater|Hnot].
  - apply wp_bind_any. intros _ c1. by apply IH.
  - apply elem_of_cons in Hin as [->|Hin]; [|done].
    refine (wp_then_stable (λ c : Context, cfg c !! x) (λ v, v = boolean false)
              _ _ _ _ _).
    + run. cbn. by rewrite lookup_assign_eq.
    + intros _. clear IH. induction flags as [|y flags IH]; cbn [forM_]; [stable_tac|].
      apply not_elem_of_cons in Hnot as [Hxy Hnot].
      apply stable_bind; [stable_tac|intros _; by apply IH].
Qed.

(** Lines 561-580 start from no field. *)
Lemma loadEntityNames_flag fileData (c : Context) flag types :
  (flag, types) ∈ typeFlags →
  wp (loadEntityNames fileData) (λ _ c', cfg c' !! flag = boolean false) c.
Proof.
  unfold typeFlags. intros Hflag.
  repeat (apply elem_of_cons in Hflag as [[= -> ->]|Hflag]);
    [..|by apply elem_of_nil in Hflag];
    unfold loadEntityNames;
    repeat lazymatch goal with
           | |- wp (forM_ _ _ ≫= _) _ _ => fail
           | |- wp (_ ≫= _) _ _ => apply wp_bind_any; intros ? ?; cbv zeta
           end;
    match goal with
    | |- wp _ (λ _ c', cfg c' !! ?flag = _) _ =>
      refine (wp_then_stable (λ c : Context, cfg c !! flag) (λ v, v = boolean false)
                _ _ _ _ _);
      [apply forM_cset_false; repeat first [by left|right]|intros _; stable_tac]
    end.
Qed.

Lemma loadEntityNames_blobFields fileData (c : Context) :
  wp (loadEntityNames fileData) (λ _ c', blobFields c' = []) c.
Proof.
  unfold loadEntityNames.
  repeat lazymatch goal with
         | |- wp (modify (set_blobFields _) ≫= _) _ _ => fail
         | |- wp (_ ≫= _) _ _ => apply wp_bind_any; intros ? ?; cbv zeta
         end.
  refine (wp_then_stable blobFields (λ l, l = []) _ _ _ _ _).
  - by run.
  - intros _. stable_tac.
Qed.

Lemma loadEntityNames_classified fileData (c : Context) :
  wp (loadEntityNames fileData) (λ _ c', classified c' []) c.
Proof.
  unfold wp.
  destruct (res (loadEntityNames fileData c)) as [e|[]] eqn:Hres; [done|]. split.
  - pose proof (loadEntityNames_blobFields fileData c) as Hwp.
    unfold wp in Hwp. by rewrite Hres in Hwp.
  - intros flag types Hin.
    pose proof (loadEntityNames_flag fileData c flag types Hin) as Hwp.
    unfold wp in Hwp. by rewrite Hres in Hwp.
Qed.

Lemma loadRelationship_keeps_fields :
  stable (λ s : RelState,
            (blobFields (rctx s),
             (λ flag : string * list string, cfg (rctx s) !! flag.1) <$> typeFlags))
    loadRelationship.
Proof. stable_tac. Qed.

Lemma loadInMemoryData_classifies fileData (c : Context) :
  wp (loadInMemoryData fileData) (λ _ c', classified c' (fields c')) c.
Proof.
  unfold loadInMemoryData. apply wp_bind.
  eapply wp_mono; [|apply loadEntityNames_classified].
  cbn beta. intros _ c1 Hc1. apply wp_bind.
  assert (wp (forEachOf fields set_fields loadField)
            (λ _ c', classified c' (fields c')) c1) as Hloop.
  { unfold wp, forEachOf. cbn [res st].
    pose proof (forEach_wp loadField classified
                  (λ c x done, loadField_classifies done (c, x))
                  (fields c1) c1 [] Hc1) as Hwp.
    unfold succeeded in Hwp.
    destruct (res (forEach loadField (fields c1) c1)); [done|].
    by apply Hwp. }
  eapply wp_mono; [|exact Hloop]. cbn beta. intros _ c2 Hc2.
  set (obs := λ c : Context,
         (blobFields c,
          (λ flag : string * list string, cfg c !! flag.1) <$> typeFlags)).
  apply wp_bind.
  assert (wp loadRelationships
            (λ _ c', obs c' = obs c2 ∧ fields c' = fields c2) c2) as Hrels.
  { unfold wp, loadRelationships. cbn [res st].
    pose proof (forEach_stable
                  (λ c : Context * bool, (obs (fst c), fields (fst c)))
                  loadRelationship ltac:(subst obs; stable_tac)
                  (relationships c2) (c2, false)) as Hstable.
    destruct (res (forEach loadRelationship (relationships c2) (c2, false))); [done|].
    cbn [fst] in Hstable. split; [exact (f_equal fst Hstable)|].
    exact (f_equal snd Hstable). }
  eapply wp_mono; [|exact Hrels]. cbn beta. intros hasUserField c3 [Hobs3 Hfields3].
  apply (wp_stable (λ c : Context, (obs c, fields c))); [subst obs; stable_tac|].
  intros _ c4 Hc4. pose proof (f_equal snd Hc4) as Hfields4. cbn [snd] in Hfields4.
  rewrite Hfields4, Hfields3.
  apply (classified_same c2); [|done].
  pose proof (f_equal fst Hc4) as Hobs4. cbn [fst] in Hobs4. unfold obs in *.
  congruence.
Qed.

(** The flags of the field types. When [loadInMemoryData] returns, each of
    the flags [fieldsContainZonedDateTime], [fieldsContainInstant],
    [fieldsContainDuration], [fieldsContainLocalDate],
    [fieldsContainBigDecimal], [fieldsContainUUID], [fieldsContainBlob] and
    [fieldsContainDate] is true exactly when some field has, as the phase
    leaves it, one of the types the flag stands for, and false otherwise: a
    flag the context came with is not kept. *)
Theorem type_flags_tell_field_types fileData (context : Context) :
  succeeded (loadInMemoryData fileData context) →
  let context' := st (loadInMemoryData fileData context) in
  ∀ flag types, (flag, types) ∈ typeFlags →
    cfg context' !! flag = boolean (someOfType types (fields context')).
Proof.
  intros Hok. cbn zeta.
  by destruct (wp_succeeded _ _ _ (loadInMemoryData_classifies fileData context) Hok)
    as (_ & _ & _ & ?).
Qed.

(** The binary fields. When [loadInMemoryData] returns, [blobFields] holds
    the fields of type [byte[]] or [ByteBuffer], as the phase leaves them,
    in the order of [context.fields], and no other. *)
Theorem blobFields_are_the_binary_fields fileData (context : Context) :
  succeeded (loadInMemoryData fileData context) →
  let context' := st (loadInMemoryData fileData context) in
  blobFields context' = binaryFields (fields context').
Proof.
  intros Hok. cbn zeta.
  by destruct (wp_succeeded _ _ _ (loadInMemoryData_classifies fileData context) Hok)
    as (_ & _ & ? & _).
Qed.

End FieldAggregates.

(** A person with a date of birth in the legacy type and a photo. *)
Lemma type_flags_witness :
  let L := Sample.lib ∅ in
  let born : obj := {[ "fieldName" := VStr "born"; "fieldType" := VStr "Date" ]} in
  let photo : obj :=
    {[ "fieldName" := VStr "photo"; "fieldType" := VStr "byte[]";
       "fieldTypeBlobContent" := VStr "image" ]} in
  let context :=
    Sample.context "Person"
      {[ "fieldsContainUUID" := VBool true; "prodDatabaseType" := VStr "mysql" ]}
      [born; photo] [] in
  let context' := st (loadInMemoryData (H:=L) ∅ context) in
  succeeded (loadInMemoryData (H:=L) ∅ context)
  ∧ ∀ flag types, (flag, types) ∈ typeFlags →
      cfg context' !! flag = boolean (someOfType types (fields context')).
Proof.
  cbn zeta. apply use_hypotheses.
  - vm_compute. exact I.
  - intros H1. exact (type_flags_tell_field_types (H:=Sample.lib ∅) _ _ H1).
Defined.

Lemma blobFields_witness :
  let L := Sample.lib ∅ in
  let born : obj := {[ "fieldName" := VStr "born"; "fieldType" := VStr "Date" ]} in
  let photo : obj :=
    {[ "fieldName" := VStr "photo"; "fieldType" := VStr "byte[]";
       "fieldTypeBlobContent" := VStr "image" ]} in
  let context := Sample.context "Person" {[ "prodDatabaseType" := VStr "mysql" ]} [born; photo] [] in
  let context' := st (loadInMemoryData (H:=L) ∅ context) in
  succeeded (loadInMemoryData (H:=L) ∅ context)
  ∧ blobFields context' = binaryFields (fields context').
Proof.
  cbn zeta. apply use_hypotheses.
  - vm_compute. exact I.
  - intros H1. exact (blobFields_are_the_binary_fields (H:=Sample.lib ∅) _ _ H1).
Defined.

(** Without a production database type the callback of the fields throws at
    the reserved-keyword test of line 634, before line 686: the field has
    its capitalized and underscored names, and no [fieldValidate] yet. *)
Lemma loadField_without_database :
  let L := Sample.lib ∅ in
  let field : obj := {[ "fieldName" := VStr "age"; "fieldType" := VStr "Integer" ]} in
  let context := Sample.context "Person" ∅ [field] [] in
  let o := loadField (H:=L) (context, field) in
  cfg context !! "prodDatabaseType" = None
  ∧ res o = inl TypeError
  ∧ snd (st o) !! "fieldNameCapitalized" = str "Age"
  ∧ snd (st o) !! "fieldNameUnderscored" = str "age"
  ∧ snd (st o) !! "fieldNameAsDatabaseColumn" = None
  ∧ snd (st o) !! "fieldValidate" = None.
Proof. cbn zeta. repeat split; vm_compute; reflexivity. Qed.
(** ** More on the relationships *)

Lemma kept_when {C} k b (m : M (C * obj) unit) : kept k m → kept k (when b m).
Proof. intros Hm. by destruct b. Qed.

Lemma kept_ifElseS {C} k c (m1 m2 : M (C * obj) unit) :
  kept k m1 → kept k m2 → kept k (ifElseS c m1 m2).
Proof.
  intros H1 H2 s Hs. unfold ifElseS. rewrite bind_run. cbn [get res st].
  destruct (c s); [by apply H1|by apply H2].
Qed.

Lemma fmap_eq_pointwise {A B} (f g : A → B) (l : list A) x :
  f <$> l = g <$> l → x ∈ l → f x = g x.
Proof.
  induction l as [|y l IH]; intros Heq Hin; [by apply elem_of_nil in Hin|].
  cbn in Heq. injection Heq as Hy Hl.
  apply elem_of_cons in Hin as [->|Hin]; [done|by apply IH].
Qed.

Lemma kept_of_listed {C A} (keys : list string) (m : M (C * obj) A) k :
  stable (λ s : C * obj, (λ k, snd s !! k) <$> keys) m → k ∈ keys → kept k m.
Proof.
  intros Hm Hk. apply kept_of_stable. intros s.
  exact (fmap_eq_pointwise (λ k, snd (st (m s)) !! k) (λ k, snd s !! k) keys k
           (Hm s) Hk).
Qed.

(** One step of a proof that a block keeps a property that is there. *)
Ltac kept_step :=
  lazymatch goal with
  | |- kept ?k (unlessDefined ?k _) => apply kept_unlessDefined
  | |- kept _ (_ ≫= _) => apply kept_bind; [|intros ?]
  | |- kept _ (unlessDefined _ _) => apply kept_ifS
  | |- kept _ (ifS _ _) => apply kept_ifS
  | |- kept _ (ifElseS _ _ _) => apply kept_ifElseS
  | |- kept _ (when _ _) => apply kept_when
  | |- kept _ (match ?x with _ => _ end) => destruct x
  | |- kept _ (let _ := _ in _) => cbv zeta
  | |- kept _ _ => apply kept_of_stable; stable_tac
  end.

Section RelationshipAggregates.
Context `{Lib}.

Ltac listed := unfold relationshipDerivedOnce; stable_tac.

Lemma reciprocalNames_listed entityName otherEntityName otherEntityData :
  stable (λ s : RelState, (λ k, snd s !! k) <$> relationshipDerivedOnce)
    (reciprocalNames entityName otherEntityName otherEntityData).
Proof. listed. Qed.

Lemma otherEntityRelationshipNames_listed :
  stable (λ s : RelState, (λ k, snd s !! k) <$> relationshipDerivedOnce)
    otherEntityRelationshipNames.
Proof. listed. Qed.

Lemma dtoCheck_listed otherEntityName otherEntityData :
  stable (λ s : RelState, (λ k, snd s !! k) <$> relationshipDerivedOnce)
    (dtoCheck otherEntityName otherEntityData).
Proof. listed. Qed.

Lemma otherEntityTableName_listed jhiTablePrefix otherEntityName otherEntityData :
  stable (λ s : RelState, (λ k, snd s !! k) <$> relationshipDerivedOnce)
    (otherEntityTableName jhiTablePrefix otherEntityName otherEntityData).
Proof. listed. Qed.

Lemma after_otherEntityModule_listed otherEntityData entityName :
  stable (λ s : RelState, (λ k, snd s !! k) <$> relationshipDerivedOnce)
    (copyFilteringFlag otherEntityData;;
     relationshipFlags;;
     requiredRelationship entityName;;
     registerType).
Proof. listed. Qed.

Lemma relationshipNames_kept relationshipOptions k :
  k ∈ relationshipDerivedOnce → kept k (relationshipNames relationshipOptions).
Proof.
  unfold relationshipDerivedOnce. intros Hk.
  repeat (apply elem_of_cons in Hk as [->|Hk]); [..|by apply elem_of_nil in Hk];
    unfold relationshipNames; repeat kept_step.
Qed.

Lemma otherEntityNames_kept otherEntityData k :
  k ∈ relationshipDerivedOnce → kept k (otherEntityNames otherEntityData).
Proof.
  unfold relationshipDerivedOnce. intros Hk.
  repeat (apply elem_of_cons in Hk as [->|Hk]); [..|by apply elem_of_nil in Hk];
    unfold otherEntityNames; repeat kept_step.
Qed.

Lemma otherEntityModule_kept otherEntityData k :
  k ∈ relationshipDerivedOnce → kept k (otherEntityModule otherEntityData).
Proof.
  unfold relationshipDerivedOnce. intros Hk.
  repeat (apply elem_of_cons in Hk as [->|Hk]); [..|by apply elem_of_nil in Hk];
    unfold otherEntityModule; repeat kept_step.
Qed.

Lemma loadRelationship_kept k :
  k ∈ relationshipDerivedOnce → kept k loadRelationship.
Proof.
  intros Hk. unfold loadRelationship.
  apply kept_bind; [apply kept_of_stable; stable_tac|intros s0]. cbv zeta.
  apply kept_bind;
    [apply (kept_of_listed relationshipDerivedOnce); [listed|done]|intros _].
  apply kept_bind;
    [apply (kept_of_listed relationshipDerivedOnce); [listed|done]|intros _].
  apply kept_bind;
    [apply (kept_of_listed relationshipDerivedOnce); [apply reciprocalNames_listed|done]|intros _].
  apply kept_bind;
    [apply (kept_of_listed relationshipDerivedOnce); [apply otherEntityRelationshipNames_listed|done]|intros _].
  apply kept_bind; [by apply relationshipNames_kept|intros _].
  apply kept_bind;
    [apply (kept_of_listed relationshipDerivedOnce); [apply dtoCheck_listed|done]|intros _].
  apply kept_bind;
    [apply (kept_of_listed relationshipDerivedOnce); [apply otherEntityTableName_listed|done]|intros _].
  apply kept_bind; [by apply otherEntityNames_kept|intros _].
  apply kept_bind; [by apply otherEntityModule_kept|intros _].
  apply (kept_of_listed relationshipDerivedOnce);
    [apply after_otherEntityModule_listed|done].
Qed.

End RelationshipAggregates.
(** ** What the phase keeps of the document *)

(** A property of the state that a computation keeps, on every path. *)
Lemma preserved_bind {S A B} (P : S → Prop) (m : M S A) (k : A → M S B) :
  (∀ s, P s → P (st (m s))) → (∀ a s, P s → P (st (k a s))) →
  ∀ s, P s → P (st ((m ≫= k) s)).
Proof.
  intros Hm Hk s Hs. rewrite bind_run.
  destruct (res (m s)); cbn [st]; [by apply Hm|]. by apply Hk, Hm.
Qed.

Lemma preserved_of_stable {S A X} (obs : S → X) (P : X → Prop) (m : M S A) :
  stable obs m → ∀ s, P (obs s) → P (obs (st (m s))).
Proof. intros Hm s Hs. by rewrite Hm. Qed.

Lemma forEach_kept {C} k (body : M (C * obj) unit) :
  kept k body →
  ∀ xs c i (x : obj),
    xs !! i = Some x → x !! k ≠ None →
    ∃ x', snd (st (forEach body xs c)) !! i = Some x' ∧ x' !! k = x !! k.
Proof.
  intros Hbody. induction xs as [|y xs IH]; intros c i x Hi Hx; [done|].
  cbn [forEach]. destruct i as [|i]; cbn in Hi.
  - injection Hi as ->. exists (snd (st (body (c, x)))).
    split; [by destruct (res (body (c, x)))|]. by apply (Hbody (c, x)).
  - destruct (res (body (c, y))); cbn [st snd]; [by exists x|].
    by apply IH.
Qed.

Lemma forEach_obs {C X Y} (obs : X → Y) (body : M (C * X) unit) :
  stable (λ s : C * X, obs (snd s)) body →
  ∀ xs c, obs <$> snd (st (forEach body xs c)) = obs <$> xs.
Proof.
  intros Hbody. induction xs as [|x xs IH]; intros c; [done|].
  cbn [forEach]. pose proof (Hbody (c, x)) as Hx. cbn beta in Hx. cbn [snd] in Hx.
  destruct (res (body (c, x))); cbn [st snd]; rewrite !fmap_cons, Hx; [done|].
  by rewrite IH.
Qed.

Section Kept.
Context `{Lib}.

Lemma loadRelationships_st (c : Context) :
  st (loadRelationships c)
  = set_relationships
      (snd (st (forEach loadRelationship (relationships c) (c, false))))
      (fst (fst (st (forEach loadRelationship (relationships c) (c, false))))).
Proof. reflexivity. Qed.

(** The document stays what it is. Whether [loadInMemoryData] returns or
    throws, it leaves the fields and the relationships of the context in
    their number and order, every field with the name it had and every
    relationship with the name, the other entity and the type it had. *)
Theorem loadInMemoryData_keeps_the_document fileData (context : Context) :
  let context' := st (loadInMemoryData fileData context) in
  fieldNames (fields context') = fieldNames (fields context)
  ∧ relationshipEnds (relationships context') = relationshipEnds (relationships context)
  ∧ length (fields context') = length (fields context)
  ∧ length (relationships context') = length (relationships context).
Proof.
  cbn zeta.
  assert (stable (λ c : Context,
                    (fieldNames (fields c), relationshipEnds (relationships c)))
            (loadInMemoryData fileData)) as Hstable.
  { unfold loadInMemoryData.
    apply stable_bind; [unfold loadEntityNames; cbn [forM_]; stable_tac|intros _].
    apply stable_bind.
    { intros c. unfold forEachOf. cbn [st fields relationships set_fields].
      unfold fieldNames at 1.
      rewrite (forEach_obs (λ field : obj, field !! "fieldName") loadField
                 ltac:(stable_tac)).
      f_equal.
      exact (forEach_stable (λ c : Context, relationshipEnds (relationships c))
               loadField ltac:(stable_tac) (fields c) c). }
    intros _. apply stable_bind; [|intros ?; stable_tac].
    intros c. rewrite loadRelationships_st. cbn [fields relationships set_relationships].
    unfold relationshipEnds at 1.
    rewrite (forEach_obs
               (λ r : obj, (r !! "relationshipName", r !! "otherEntityName",
                            r !! "relationshipType"))
               loadRelationship ltac:(stable_tac)).
    f_equal.
    exact (forEach_stable (λ c : Context * bool, fieldNames (fields (fst c)))
             loadRelationship ltac:(stable_tac) (relationships c) (c, false)). }
  specialize (Hstable context). cbn beta in Hstable. injection Hstable as Hf Hr.
  split; [done|]. split; [done|].
  split; [by rewrite <- (length_fmap (λ field : obj, field !! "fieldName")),
            <- (length_fmap (λ field : obj, field !! "fieldName") (fields context));
          unfold fieldNames in Hf; rewrite Hf|].
  unfold relationshipEnds in Hr.
  by rewrite <- (length_fmap (λ r : obj, (r !! "relationshipName", r !! "otherEntityName",
                            r !! "relationshipType"))), Hr, length_fmap.
Qed.

(** Derived once. An attribute of the names of a relationship that the
    document already gives (a capitalized, plural or humanized name, the
    names of the other entity, its module and its folder) is not derived
    again: whether [loadInMemoryData] returns or throws, the relationship
    has the value it came with. *)
Theorem relationship_names_derived_once fileData (context : Context) i (r : obj) k :
  relationships context !! i = Some r →
  k ∈ relationshipDerivedOnce →
  r !! k ≠ None →
  ∃ r', relationships (st (loadInMemoryData fileData context)) !! i = Some r'
        ∧ r' !! k = r !! k.
Proof.
  intros Hi Hk Hdefined.
  set (P := λ c : Context, ∃ r', relationships c !! i = Some r' ∧ r' !! k = r !! k).
  assert (∀ {A} (m : M Context A), stable relationships m →
            ∀ c, P c → P (st (m c))) as Hframe.
  { intros A m Hm c Hc. unfold P. by rewrite Hm. }
  assert (P context) as Hstart by (by exists r).
  assert (∀ c, P c → P (st (loadInMemoryData fileData c))) as Hall; [|by apply Hall].
  clear Hstart. unfold loadInMemoryData.
  apply (preserved_bind P);
    [apply Hframe; unfold loadEntityNames; cbn [forM_]; stable_tac|intros _].
  apply (preserved_bind P).
  { apply Hframe. apply forEachOf_stable; [stable_tac|done]. }
  intros _. apply (preserved_bind P); [|intros ?; apply Hframe; stable_tac].
  intros c (r1 & Hr1 & Hk1). unfold P. rewrite loadRelationships_st.
  destruct (forEach_kept k loadRelationship (loadRelationship_kept k Hk)
              (relationships c) (c, false) i r1 Hr1) as (r2 & Hr2 & Hk2);
    [congruence|].
  exists r2. split; [done|congruence].
Qed.

End Kept.

(** A relationship that comes with a plural of its own. *)
Lemma relationship_names_derived_once_witness :
  let L := Sample.lib ∅ in
  let r : obj :=
    {[ "relationshipName" := VStr "child"; "otherEntityName" := VStr "person";
       "relationshipType" := VStr "one-to-many";
       "relationshipNamePlural" := VStr "children" ]} in
  let context := Sample.context "Person" {[ "prodDatabaseType" := VStr "mysql" ]} [] [r] in
  (relationships context !! 0%nat = Some r
   ∧ "relationshipNamePlural" ∈ relationshipDerivedOnce
   ∧ r !! "relationshipNamePlural" ≠ None)
  ∧ ∃ r', relationships (st (loadInMemoryData (H:=L) ∅ context)) !! 0%nat = Some r'
          ∧ r' !! "relationshipNamePlural" = r !! "relationshipNamePlural".
Proof.
  cbn zeta. apply use_hypotheses.
  - split; [reflexivity|]. split; [|vm_compute; discriminate].
    unfold relationshipDerivedOnce. repeat first [by left|right].
  - intros (H1 & H2 & H3).
    exact (relationship_names_derived_once (H:=Sample.lib ∅) _ _ _ _ _ H1 H2 H3).
Defined.

(** ** The aggregates and the document *)

Lemma forEach_Forall2 {C X} (R : X → X → Prop) (body : M (C * X) unit) :
  (∀ c x, wp body (λ _ s', R x (snd s')) (c, x)) →
  ∀ xs c, succeeded (forEach body xs c) →
    Forall2 R xs (snd (st (forEach body xs c))).
Proof.
  intros Hbody. induction xs as [|x xs IH]; intros c Hok; [constructor|].
  cbn [forEach] in *. specialize (Hbody c x). unfold wp in Hbody.
  unfold succeeded in Hok.
  destruct (res (body (c, x))); cbn [res st fst snd] in *; [done|].
  constructor; [done|]. by apply IH.
Qed.

Section Document.
Context `{Lib}.

(** What is known of a relationship while the callback runs on it. *)
Lemma typed_then {A B} (v : jsval * jsval) (m : M RelState A) (k : A → M RelState B) Q s :
  (rel s !! "otherEntityNameCapitalized", rel s !! "otherEntityName") = v →
  stable (λ s : RelState,
            (rel s !! "otherEntityNameCapitalized", rel s !! "otherEntityName")) m →
  (∀ a s',
     (rel s' !! "otherEntityNameCapitalized", rel s' !! "otherEntityName") = v →
     wp (k a) Q s') →
  wp (m ≫= k) Q s.
Proof.
  intros Hv Hm Hk. eapply wp_stable_bind; [exact Hm|].
  intros a s' Hs. apply Hk. cbn beta in Hs. by rewrite Hs.
Qed.

(** Lines 852-880 give the relationship its type. *)
Lemma otherEntityNames_typed otherEntityData (r : obj) (s : RelState) :
  (rel s !! "otherEntityNameCapitalized", rel s !! "otherEntityName")
  = (r !! "otherEntityNameCapitalized", r !! "otherEntityName") →
  wp (otherEntityNames otherEntityData)
     (λ _ s', rel s' !! "otherEntityNameCapitalized" = typeOf r) s.
Proof.
  intros Hs. unfold otherEntityNames.
  apply (typed_then _ _ _ _ _ Hs); [stable_tac|]. clear s Hs. intros _ s [= Hc Hn].
  apply (wp_then_stable (λ s : RelState, rel s !! "otherEntityNameCapitalized")
           (λ v, v = typeOf r)).
  - unfold typeOf. rewrite <- Hc, <- Hn. run. change (s.2) with (rel s).
    destruct (isUndefined (rel s !! "otherEntityNameCapitalized")); run; [|done].
    by rewrite lookup_assign_eq.
  - intros _. stable_tac.
Qed.

Lemma loadRelationship_typed_as (r : obj) (s : RelState) :
  (rel s !! "otherEntityNameCapitalized", rel s !! "otherEntityName")
  = (r !! "otherEntityNameCapitalized", r !! "otherEntityName") →
  wp loadRelationship (λ _ s', rel s' !! "otherEntityNameCapitalized" = typeOf r) s.
Proof.
  intros Hs. unfold loadRelationship. run_step. run_step. cbv zeta.
  lazymatch goal with
  | |- wp ?m ?Q s =>
    assert (∀ s',
              (rel s' !! "otherEntityNameCapitalized", rel s' !! "otherEntityName")
              = (r !! "otherEntityNameCapitalized", r !! "otherEntityName") →
              wp m Q s') as Hall; [|by apply Hall]
  end.
  clear Hs. intros s' Hs.
  repeat lazymatch goal with
         | |- wp (otherEntityNames _ ≫= _) _ _ => fail
         | |- wp (_ ≫= _) _ _ =>
           apply (typed_then _ _ _ _ _ Hs); [solve [stable_tac]|];
           clear s' Hs; intros ? s' Hs
         end.
  apply (wp_then_stable (λ s : RelState, rel s !! "otherEntityNameCapitalized")
           (λ v, v = typeOf r)).
  - by apply otherEntityNames_typed.
  - intros _. stable_tac.
Qed.

Lemma loadRelationship_typed (s : RelState) :
  wp loadRelationship
     (λ _ s', rel s' !! "otherEntityNameCapitalized" = typeOf (rel s)) s.
Proof. by apply loadRelationship_typed_as. Qed.

Lemma loadRelationship_loadedFrom (s : RelState) :
  wp loadRelationship (λ _ s', loadedFrom (rel s) (rel s')) s.
Proof.
  eapply wp_mono;
    [|apply wp_and;
       [apply loadRelationship_typed
       |apply (wp_stable
                 (λ s : RelState,
                    (rel s !! "relationshipName", rel s !! "otherEntityName",
                     rel s !! "relationshipType")) loadRelationship
                 (λ _ s', (rel s' !! "relationshipName", rel s' !! "otherEntityName",
                           rel s' !! "relationshipType")
                          = (rel s !! "relationshipName", rel s !! "otherEntityName",
                             rel s !! "relationshipType")));
          [stable_tac|by intros _ s' Hs]]].
  cbn beta. intros _ s' [Htype [= Hname Hother Hkind]]. by repeat split.
Qed.

(** The relationships [loadInMemoryData] leaves are those of the document. *)
Lemma loadInMemoryData_loadedFrom fileData (c : Context) :
  wp (loadInMemoryData fileData)
     (λ _ c', Forall2 loadedFrom (relationships c) (relationships c')) c.
Proof.
  unfold loadInMemoryData.
  apply (wp_stable_bind relationships);
    [unfold loadEntityNames; cbn [forM_]; stable_tac|].
  intros _ c1 Hc1.
  apply (wp_stable_bind relationships);
    [apply forEachOf_stable; [stable_tac|done]|].
  intros _ c2 Hc2.
  apply (wp_then_stable relationships (λ l, Forall2 loadedFrom (relationships c) l));
    [|intros ?; stable_tac].
  unfold wp. rewrite loadRelationships_st. cbn [loadRelationships res].
  pose proof (forEach_Forall2 loadedFrom loadRelationship
                (λ c x, loadRelationship_loadedFrom (c, x))
                (relationships c2) (c2, false)) as Hloop.
  unfold succeeded in Hloop.
  destruct (res (forEach loadRelationship (relationships c2) (c2, false))); [done|].
  cbn [relationships set_relationships]. rewrite <- Hc1, <- Hc2. by apply Hloop.
Qed.

Lemma loadedFrom_encountered (l l' : list obj) :
  Forall2 loadedFrom l l' → encountered l' = typeOf <$> l.
Proof.
  induction 1 as [|r r' l l' (_ & _ & _ & Htype) _ IH]; [done|].
  unfold encountered in *. cbn [fmap list_fmap]. by rewrite Htype, IH.
Qed.

Lemma loadedFrom_ofType key (l l' : list obj) :
  Forall2 loadedFrom l l' → Forall2 loadedFrom (ofType key l) (targeting key l').
Proof.
  induction 1 as [|r r' l l' Hr _ IH]; [constructor|].
  unfold ofType, targeting in *. rewrite !filter_cons.
  destruct Hr as (Hname & Hother & Hkind & Htype). rewrite Htype.
  destruct (decide _); [|done]. by constructor.
Qed.

(** C10. When [loadInMemoryData] returns, the relationships of the context
    are those of the document, one for one and in their order, each with its
    name, its other entity, its kind and its type: the capitalized name of
    the other entity.  [differentTypes] is the class of the entity followed
    by the types of the document's relationships, each one once, at the place
    of its first occurrence: the class is the first element, also when the
    document has no relationship, and no element is [===] to an earlier one.
    [differentRelationships] holds under each type the relationships of that
    type, all of them, in the order of the document, and nothing under any
    other key. *)
Theorem aggregates_follow_encounter_order fileData (context : Context) :
  succeeded (loadInMemoryData fileData context) →
  let context' := st (loadInMemoryData fileData context) in
  let entityClass := cfg context' !! "entityClass" in
  entityClass = cfg context !! "entityNameCapitalized"
  ∧ Forall2 loadedFrom (relationships context) (relationships context')
  ∧ differentTypes context'
    = firstOccurrences (entityClass :: (typeOf <$> relationships context))
  ∧ differentTypes context'
    = firstOccurrences (entityClass :: encountered (relationships context'))
  ∧ head (differentTypes context') = Some entityClass
  ∧ distinct (differentTypes context')
  ∧ (relationships context = [] →
     differentTypes context' = [entityClass] ∧ differentRelationships context' = ∅)
  ∧ ∀ key,
      differentRelationships context' !! key
      = filed (targeting key (relationships context'))
      ∧ Forall2 loadedFrom (ofType key (relationships context))
          (targeting key (relationships context')).
Proof.
  intros Hok. cbv zeta.
  destruct (wp_succeeded _ _ _ (loadInMemoryData_registers fileData context) Hok)
    as (_ & _ & Hclass & Htypes & Hrels).
  destruct (wp_succeeded _ _ _ (loadInMemoryData_loadedFrom fileData context) Hok)
    as (_ & _ & Hloaded).
  split; [done|]. split; [done|].
  split; [by rewrite Htypes, (loadedFrom_encountered _ _ Hloaded)|].
  split; [done|]. rewrite Htypes.
  split; [done|]. split; [apply firstOccurrences_distinct|].
  split.
  - intros Hnone. rewrite Hnone in Hloaded. apply Forall2_nil_inv_l in Hloaded.
    rewrite Hloaded. split; [done|].
    apply map_eq. intros key. by rewrite Hrels, Hloaded, lookup_empty.
  - intros key. split; [done|]. by apply loadedFrom_ofType.
Qed.

End Document.

(** A pet with two owners, a vet and no relationship back. *)
Lemma aggregates_witness :
  let L := Sample.lib ∅ in
  let rel (name other : string) : obj :=
    {[ "relationshipName" := VStr name; "otherEntityName" := VStr other;
       "relationshipType" := VStr "many-to-one"; "otherEntityField" := VStr "id" ]} in
  let context :=
    Sample.context "Pet" {[ "prodDatabaseType" := VStr "mysql" ]} []
      [rel "owner" "person"; rel "vet" "vet"; rel "breeder" "person"] in
  succeeded (loadInMemoryData (H:=L) ∅ context)
  ∧ (let context' := st (loadInMemoryData (H:=L) ∅ context) in
     let entityClass := cfg context' !! "entityClass" in
     entityClass = cfg context !! "entityNameCapitalized"
     ∧ Forall2 (loadedFrom (H:=L)) (relationships context) (relationships context')
     ∧ differentTypes context'
       = firstOccurrences (entityClass :: (typeOf (H:=L) <$> relationships context))
     ∧ differentTypes context'
       = firstOccurrences (entityClass :: encountered (relationships context'))
     ∧ head (differentTypes context') = Some entityClass
     ∧ distinct (differentTypes context')
     ∧ (relationships context = [] →
        differentTypes context' = [entityClass] ∧ differentRelationships context' = ∅)
     ∧ ∀ key,
         differentRelationships context' !! key
         = filed (targeting (H:=L) key (relationships context'))
         ∧ Forall2 (loadedFrom (H:=L)) (ofType (H:=L) key (relationships context))
             (targeting (H:=L) key (relationships context'))).
Proof.
  cbn zeta. apply use_hypotheses.
  - vm_compute. exact I.
  - intros H1. exact (aggregates_follow_encounter_order (H:=Sample.lib ∅) _ _ H1).
Defined.

(** The same pet: the types are [Pet], [Person] and [Vet], the two
    relationships to a person are filed under [Person], the owner first. *)
Lemma aggregates_example :
  let L := Sample.lib ∅ in
  let rel (name other : string) : obj :=
    {[ "relationshipName" := VStr name; "otherEntityName" := VStr other;
       "relationshipType" := VStr "many-to-one"; "otherEntityField" := VStr "id" ]} in
  let context :=
    Sample.context "Pet" {[ "prodDatabaseType" := VStr "mysql" ]} []
      [rel "owner" "person"; rel "vet" "vet"; rel "breeder" "person"] in
  let context' := st (loadInMemoryData (H:=L) ∅ context) in
  let names key :=
    (λ r : obj, r !! "relationshipName")
      <$> default [] (differentRelationships context' !! key) in
  res (loadInMemoryData (H:=L) ∅ context) = inr ()
  ∧ differentTypes context' = [str "Pet"; str "Person"; str "Vet"]
  ∧ names "Person" = [str "owner"; str "breeder"]
  ∧ names "Vet" = [str "vet"]
  ∧ names "Pet" = [].
Proof. cbn zeta. repeat split; vm_compute; reflexivity. Qed.
(** ** The user of the application *)

Section UserField.
Context `{Lib}.

Lemma someToUser_snoc done (r : obj) :
  someToUser (done ++ [r]) = someToUser done || isStr (r !! "otherEntityName") "user".
Proof. unfold someToUser. rewrite existsb_app. cbn. by rewrite orb_false_r. Qed.

(** Lines 838-850 raise the flag for a relationship to the user. *)
Lemma otherEntityTableName_wp jhiTablePrefix otherEntityName otherEntityData
    (s : RelState) :
  wp (otherEntityTableName jhiTablePrefix otherEntityName otherEntityData)
     (λ _ s', snd (fst s') = snd (fst s) || isStr otherEntityName "user"
              ∧ rel s' !! "otherEntityName" = rel s !! "otherEntityName") s.
Proof.
  unfold otherEntityTableName. destruct (isStr otherEntityName "user").
  - run. rewrite orb_true_r. by rewrite lookup_assign_ne.
  - rewrite orb_false_r.
    apply (wp_stable (λ s : RelState, (snd (fst s), rel s !! "otherEntityName")));
      [stable_tac|].
    by intros _ s' [= -> ->].
Qed.

Lemma loadRelationship_user done (s : RelState) :
  snd (fst s) = someToUser done →
  wp loadRelationship (λ _ s', snd (fst s') = someToUser (done ++ [rel s'])) s.
Proof.
  intros Hdone. unfold loadRelationship. run_step. run_step. cbv zeta.
  set (obs := λ s : RelState, (snd (fst s), rel s !! "otherEntityName")).
  assert (∀ {A B} (m : M RelState A) (k : A → M RelState B) Q s1,
            stable obs m → obs s1 = obs s →
            (∀ a s2, obs s2 = obs s → wp (k a) Q s2) → wp (m ≫= k) Q s1) as Hskip.
  { intros A B m k Q s1 Hm Hs1 Hk. apply (wp_stable_bind obs); [done|].
    intros a s2 Hs2. apply Hk. congruence. }
  do 6 (apply Hskip; [subst obs; stable_tac|try done|intros _ ? ?]).
  apply wp_bind. eapply wp_mono; [|apply otherEntityTableName_wp].
  cbn beta. intros _ sT [Hflag Hother].
  apply (wp_stable obs); [subst obs; stable_tac|].
  intros _ sE HsE. rewrite someToUser_snoc, <- Hdone.
  match goal with
  | Hs : obs _ = obs s |- _ => unfold obs in Hs, HsE; injection Hs as Hb Ho
  end.
  injection HsE as -> ->. rewrite Hflag, Hother, Hb, Ho. done.
Qed.

Lemma loadRelationships_user (c : Context) :
  wp loadRelationships
     (λ hasUserField c',
        hasUserField = someToUser (relationships c')
        ∧ (cfg c' !! "applicationType", cfg c' !! "authenticationType", cfg c' !! "dto")
          = (cfg c !! "applicationType", cfg c !! "authenticationType", cfg c !! "dto"))
     c.
Proof.
  unfold wp, loadRelationships. cbn [res st].
  pose proof (forEach_wp loadRelationship (λ cb done, snd cb = someToUser done)
                (λ cb x done, loadRelationship_user done (cb, x))
                (relationships c) (c, false) [] eq_refl) as Hloop.
  pose proof (forEach_stable
                (λ cb : Context * bool,
                   (cfg (fst cb) !! "applicationType",
                    cfg (fst cb) !! "authenticationType", cfg (fst cb) !! "dto"))
                loadRelationship ltac:(stable_tac) (relationships c) (c, false))
    as Hcfg.
  unfold succeeded in Hloop.
  destruct (res (forEach loadRelationship (relationships c) (c, false))); [done|].
  split; [by apply Hloop|exact Hcfg].
Qed.

(** The user of the application. When [loadInMemoryData] returns,
    [hasUserField] tells whether some relationship has [user] as its other
    entity, and [saveUserSnapshot] is true exactly for a microservice with
    OAuth 2 that has such a relationship and no DTO. *)
Theorem hasUserField_iff_relationship_to_user fileData (context : Context) :
  succeeded (loadInMemoryData fileData context) →
  let context' := st (loadInMemoryData fileData context) in
  let toUser := someToUser (relationships context') in
  cfg context' !! "hasUserField" = boolean toUser
  ∧ cfg context' !! "saveUserSnapshot"
    = boolean (isStr (cfg context' !! "applicationType") "microservice"
               && isStr (cfg context' !! "authenticationType") "oauth2"
               && toUser
               && isStr (cfg context' !! "dto") "no").
Proof.
  intros Hok. cbn zeta.
  assert (wp (loadInMemoryData fileData)
            (λ _ c',
               cfg c' !! "hasUserField" = boolean (someToUser (relationships c'))
               ∧ cfg c' !! "saveUserSnapshot"
                 = boolean (isStr (cfg c' !! "applicationType") "microservice"
                            && isStr (cfg c' !! "authenticationType") "oauth2"
                            && someToUser (relationships c')
                            && isStr (cfg c' !! "dto") "no")) context) as Hwp.
  { unfold loadInMemoryData. do 2 (apply wp_bind_any; intros _ ?).
    apply wp_bind. eapply wp_mono; [|apply loadRelationships_user].
    cbn beta. intros hasUserField c3 [-> _]. run. cbn.
    repeat first [rewrite lookup_assign_eq | rewrite lookup_assign_ne by done].
    done. }
  by destruct (wp_succeeded _ _ _ Hwp Hok) as (_ & _ & ?).
Qed.

End UserField.

(** An order placed by a user, in a microservice. *)
Lemma hasUserField_witness :
  let L := Sample.lib ∅ in
  let buyer : obj :=
    {[ "relationshipName" := VStr "buyer"; "otherEntityName" := VStr "user";
       "relationshipType" := VStr "many-to-one"; "otherEntityField" := VStr "login" ]} in
  let context :=
    Sample.context "Purchase"
      {[ "applicationType" := VStr "microservice";
         "authenticationType" := VStr "oauth2"; "dto" := VStr "no";
         "prodDatabaseType" := VStr "mysql" ]} [] [buyer] in
  let context' := st (loadInMemoryData (H:=L) ∅ context) in
  let toUser := someToUser (relationships context') in
  succeeded (loadInMemoryData (H:=L) ∅ context)
  ∧ (cfg context' !! "hasUserField" = boolean toUser
     ∧ cfg context' !! "saveUserSnapshot"
       = boolean (isStr (cfg context' !! "applicationType") "microservice"
                  && isStr (cfg context' !! "authenticationType") "oauth2"
                  && toUser
                  && isStr (cfg context' !! "dto") "no")).
Proof.
  cbn zeta. apply use_hypotheses.
  - vm_compute. exact I.
  - intros H1. exact (hasUserField_iff_relationship_to_user (H:=Sample.lib ∅) _ _ H1).
Defined.


(** ** Flags that are raised *)

(** A flag that every callback raises for the elements that [hit], and
    leaves alone for the others, tells in the end whether one did; the
    callback may need something of the context, which it keeps. *)
Lemma forEach_raises_with {C} (P : C → Prop) (flagOf : C → jsval) (hit : obj → bool)
    (body : M (C * obj) unit) :
  (∀ s, P (fst s) →
        wp body
          (λ _ s', P (fst s')
                   ∧ flagOf (fst s')
                     = if hit (snd s') then boolean true else flagOf (fst s)) s) →
  ∀ xs c b, P c → flagOf c = boolean b →
    succeeded (forEach body xs c) →
    flagOf (fst (st (forEach body xs c)))
    = boolean (b || existsb hit (snd (st (forEach body xs c)))).
Proof.
  intros Hbody xs c b HP Hc Hok.
  apply (forEach_wp body
           (λ c done, P c ∧ flagOf c = boolean (b || existsb hit done)))
    with (done := []); [|by rewrite orb_false_r|done].
  clear c HP Hc Hok. intros c x done [HP Hdone]. eapply wp_mono; [|by apply Hbody].
  cbn beta. intros _ s' [HP' ->]. split; [done|]. cbn [fst].
  rewrite Hdone, existsb_app. cbn [existsb].
  destruct (hit (snd s')); by rewrite ?orb_true_r, ?orb_false_r.
Qed.

Lemma forEach_raises {C} (flagOf : C → jsval) (hit : obj → bool)
    (body : M (C * obj) unit) :
  (∀ s, wp body
          (λ _ s', flagOf (fst s')
                   = if hit (snd s') then boolean true else flagOf (fst s)) s) →
  ∀ xs c b, flagOf c = boolean b →
    succeeded (forEach body xs c) →
    flagOf (fst (st (forEach body xs c)))
    = boolean (b || existsb hit (snd (st (forEach body xs c)))).
Proof.
  intros Hbody xs c b. apply (forEach_raises_with (λ _, True)); [|done].
  intros s _. eapply wp_mono; [|apply Hbody]. by intros _ s' ->.
Qed.

Section Raised.
Context `{Lib}.

(** Lines 561-579: every flag starts [false]. *)
Lemma loadEntityNames_resets fileData (c : Context) flag :
  flag ∈ ["fieldsContainDate"; "fieldsContainInstant"; "fieldsContainUUID";
          "fieldsContainZonedDateTime"; "fieldsContainDuration";
          "fieldsContainLocalDate"; "fieldsContainBigDecimal"; "fieldsContainBlob";
          "fieldsContainImageBlob"; "fieldsContainTextBlob";
          "fieldsContainBlobOrImage"; "validation"; "fieldsContainOwnerManyToMany";
          "fieldsContainNoOwnerOneToOne"; "fieldsContainOwnerOneToOne";
          "fieldsContainOneToMany"; "fieldsContainManyToOne";
          "fieldsContainEmbedded"; "fieldsIsReactAvField"] →
  wp (loadEntityNames fileData) (λ _ c', cfg c' !! flag = boolean false) c.
Proof.
  intros Hflag. unfold loadEntityNames.
  repeat lazymatch goal with
         | |- wp (forM_ _ _ ≫= _) _ _ => fail
         | |- wp (_ ≫= _) _ _ => apply wp_bind_any; intros ? ?; cbv zeta
         end.
  repeat (apply elem_of_cons in Hflag as [->|Hflag]); [..|by apply elem_of_nil in Hflag];
    match goal with
    | |- wp _ (λ _ c', cfg c' !! ?flag = _) _ =>
      refine (wp_then_stable (λ c : Context, cfg c !! flag) (λ v, v = boolean false)
                _ _ _ _ _);
      [apply forM_cset_false; repeat first [by left|right]|intros _; stable_tac]
    end.
Qed.

Lemma loadRelationships_stable {Y} (obs : Context → Y) :
  stable (λ s : RelState, obs (rctx s)) loadRelationship →
  (∀ l c, obs (set_relationships l c) = obs c) →
  stable obs loadRelationships.
Proof.
  intros Hbody Hset c. rewrite loadRelationships_st, Hset.
  exact (forEach_stable (λ cb : Context * bool, obs (fst cb)) loadRelationship Hbody
           (relationships c) (c, false)).
Qed.

End Raised.

(** ** The kinds of relationships *)

Section RelationshipKinds.
Context `{Lib}.

Lemma sorted_same (c c' : Context) done :
  kindFlags c' = kindFlags c → sorted c done → sorted c' done.
Proof.
  unfold kindFlags. cbn. intros Hflags Hsorted flag kind Hin.
  rewrite <- (Hsorted flag kind Hin).
  injection Hflags as ? ? ? ? ? ?. unfold relationshipKinds in Hin.
  repeat (apply elem_of_cons in Hin as [[= -> ->]|Hin]); [..|by apply elem_of_nil in Hin];
    done.
Qed.

Lemma kind_same (r r' : obj) flag (kind : obj → bool) :
  (flag, kind) ∈ relationshipKinds → kindOf r' = kindOf r → kind r' = kind r.
Proof.
  unfold kindOf, relationshipKinds. intros Hin [= Htype Hside Hemb].
  repeat (apply elem_of_cons in Hin as [[= -> ->]|Hin]); [..|by apply elem_of_nil in Hin];
    by rewrite ?Htype, ?Hside, ?Hemb.
Qed.

Lemma isStr_str a b : isStr (str a) b = String.eqb a b.
Proof. done. Qed.

(** Lines 926-939 on one relationship. *)
Lemma relationshipFlags_wp (s : RelState) flag (kind : obj → bool) :
  (flag, kind) ∈ relationshipKinds →
  wp relationshipFlags
     (λ _ s', rel s' = rel s
              ∧ cfg (rctx s') !! flag
                = (if kind (rel s) then boolean true else cfg (rctx s) !! flag))
     s.
Proof.
  unfold relationshipKinds. intros Hin. destruct s as [[c u] r].
  unfold relationshipFlags. do 2 run_step. cbv zeta.
  assert (r !! "relationshipType" = str "many-to-many"
          ∨ r !! "relationshipType" = str "one-to-one"
          ∨ r !! "relationshipType" = str "one-to-many"
          ∨ r !! "relationshipType" = str "many-to-one"
          ∨ oneOf ["many-to-many"; "one-to-one"; "one-to-many"; "many-to-one"]
                  (r !! "relationshipType") = false) as Htype.
  { unfold oneOf, existsb.
    destruct (isStr _ "many-to-many") eqn:E1; [left; by apply isStr_true|].
    destruct (isStr _ "one-to-one") eqn:E2; [right; left; by apply isStr_true|].
    destruct (isStr _ "one-to-many") eqn:E3; [do 2 right; left; by apply isStr_true|].
    destruct (isStr _ "many-to-one") eqn:E4; [do 3 right; left; by apply isStr_true|].
    by do 4 right. }
  repeat (apply elem_of_cons in Hin as [[= -> ->]|Hin]); [..|by apply elem_of_nil in Hin];
    cbn beta;
    destruct Htype as [Ht|[Ht|[Ht|[Ht|Ht]]]];
    try (rewrite !Ht, !isStr_str; cbn [String.eqb Ascii.eqb Bool.eqb andb]);
    try (unfold oneOf, existsb in Ht;
         apply orb_false_elim in Ht as [-> Ht];
         apply orb_false_elim in Ht as [-> Ht];
         apply orb_false_elim in Ht as [-> Ht];
         apply orb_false_elim in Ht as [-> _]; cbn [andb]);
    destruct (truthy (r !! "ownerSide")); cbn [andb negb];
    run;
    repeat (match goal with
            | |- context [if truthy ?v then _ else _] => destruct (truthy v) eqn:?
            end; run);
    cbn;
    repeat first [rewrite lookup_assign_eq | rewrite lookup_assign_ne by done];
    done.
Qed.

Lemma sorted_snoc (c : Context) done (r r' : obj) :
  kindOf r' = kindOf r → sorted c (done ++ [r]) → sorted c (done ++ [r']).
Proof.
  intros Hkind Hsorted flag kind Hin. rewrite (Hsorted flag kind Hin).
  rewrite !existsb_app. cbn [existsb]. by rewrite (kind_same r r' flag kind Hin Hkind).
Qed.

Lemma relationshipFlags_sorts done (s : RelState) :
  sorted (rctx s) done →
  wp relationshipFlags
     (λ _ s', rel s' = rel s ∧ sorted (rctx s') (done ++ [rel s])) s.
Proof.
  intros Hdone. unfold wp.
  destruct (res (relationshipFlags s)) as [e|[]] eqn:Hres; [done|].
  assert (∀ flag (kind : obj → bool), (flag, kind) ∈ relationshipKinds →
            rel (st (relationshipFlags s)) = rel s
            ∧ cfg (rctx (st (relationshipFlags s))) !! flag
              = (if kind (rel s) then boolean true else cfg (rctx s) !! flag))
    as Hall.
  { intros flag kind Hin.
    pose proof (relationshipFlags_wp s flag kind Hin) as Hwp.
    unfold wp in Hwp. by rewrite Hres in Hwp. }
  split.
  - apply (Hall "fieldsContainEmbedded" (λ r, truthy (r !! "otherEntityIsEmbedded"))).
    unfold relationshipKinds. repeat first [by left|right].
  - intros flag kind Hin. destruct (Hall flag kind Hin) as [_ ->].
    rewrite existsb_app, (Hdone flag kind Hin). cbn [existsb].
    destruct (kind (rel s)); [by rewrite orb_true_r|by rewrite !orb_false_r].
Qed.

(** The relationship callback sorts the relationship it was given. *)
Lemma loadRelationship_sorts done (s : RelState) :
  sorted (rctx s) done →
  wp loadRelationship (λ _ s', sorted (rctx s') (done ++ [rel s'])) s.
Proof.
  intros Hdone. unfold loadRelationship. run_step. run_step. cbv zeta.
  do 10 (apply (wp_stable_bind (λ s : RelState, kindFlags (rctx s)));
         [unfold kindFlags; stable_tac|];
         let s' := fresh "s" in
         let Hs := fresh "Hs" in
         intros _ s' Hs;
         apply (sorted_same _ (rctx s')) in Hdone; [|exact Hs]; clear Hs).
  apply wp_bind. eapply wp_mono; [|by apply relationshipFlags_sorts].
  cbn beta. intros _ sF [Hrel Hsorted]. rewrite <- Hrel in Hsorted.
  apply (wp_stable (λ s : RelState, (kindFlags (rctx s), kindOf (rel s))));
    [unfold kindFlags, kindOf; stable_tac|].
  intros _ sE HsE.
  apply (sorted_snoc _ _ (rel sF)); [exact (f_equal snd HsE)|].
  by apply (sorted_same (rctx sF)); [exact (f_equal fst HsE)|].
Qed.

Lemma loadInMemoryData_sorts fileData (c : Context) :
  wp (loadInMemoryData fileData) (λ _ c', sorted c' (relationships c')) c.
Proof.
  unfold loadInMemoryData. apply wp_bind.
  assert (wp (loadEntityNames fileData) (λ _ c', sorted c' []) c) as Hstart.
  { unfold wp. destruct (res (loadEntityNames fileData c)) as [e|[]] eqn:Hres; [done|].
    intros flag kind Hin.
    assert (wp (loadEntityNames fileData) (λ _ c', cfg c' !! flag = boolean false) c)
      as Hwp.
    { apply loadEntityNames_resets. unfold relationshipKinds in Hin.
      repeat (apply elem_of_cons in Hin as [[= -> ->]|Hin]);
        [..|by apply elem_of_nil in Hin]; repeat first [by left|right]. }
    unfold wp in Hwp. by rewrite Hres in Hwp. }
  eapply wp_mono; [|exact Hstart]. cbn beta. intros _ c1 Hc1.
  apply (wp_stable_bind kindFlags);
    [apply forEachOf_stable; [unfold kindFlags; stable_tac|done]|].
  intros _ c2 Hc2. apply (sorted_same _ c2) in Hc1; [|exact Hc2]. clear Hc2.
  apply wp_bind.
  assert (wp loadRelationships (λ _ c', sorted c' (relationships c')) c2) as Hloop.
  { unfold wp, loadRelationships. cbn [res st].
    pose proof (forEach_wp loadRelationship (λ cb done, sorted (fst cb) done)
                  (λ cb x done, loadRelationship_sorts done (cb, x))
                  (relationships c2) (c2, false) [] Hc1) as Hwp.
    unfold succeeded in Hwp.
    destruct (res (forEach loadRelationship (relationships c2) (c2, false))); [done|].
    by apply Hwp. }
  eapply wp_mono; [|exact Hloop]. cbn beta. intros hasUserField c3 Hc3.
  apply (wp_stable (λ c : Context, (kindFlags c, relationships c)));
    [unfold kindFlags; stable_tac|].
  intros _ c4 Hc4. rewrite (f_equal snd Hc4 : relationships c4 = relationships c3).
  by apply (sorted_same c3); [exact (f_equal fst Hc4)|].
Qed.

(** The flags of the relationships. When [loadInMemoryData] returns, each
    of the flags [fieldsContainOwnerManyToMany],
    [fieldsContainNoOwnerOneToOne], [fieldsContainOwnerOneToOne],
    [fieldsContainOneToMany], [fieldsContainManyToOne] and
    [fieldsContainEmbedded] is true exactly when some relationship, as the
    phase leaves it, is of the kind the flag stands for, and false
    otherwise. *)
Theorem relationship_flags_tell_kinds fileData (context : Context) :
  succeeded (loadInMemoryData fileData context) →
  let context' := st (loadInMemoryData fileData context) in
  ∀ flag (kind : obj → bool), (flag, kind) ∈ relationshipKinds →
    cfg context' !! flag = boolean (existsb kind (relationships context')).
Proof.
  intros Hok. cbn zeta.
  by destruct (wp_succeeded _ _ _ (loadInMemoryData_sorts fileData context) Hok)
    as (_ & _ & ?).
Qed.

End RelationshipKinds.

(** A blog with its entries, written by one author. *)
Lemma relationship_flags_witness :
  let L := Sample.lib ∅ in
  let entries : obj :=
    {[ "relationshipName" := VStr "entry"; "otherEntityName" := VStr "entry";
       "relationshipType" := VStr "one-to-many";
       "otherEntityRelationshipName" := VStr "blog" ]} in
  let author : obj :=
    {[ "relationshipName" := VStr "author"; "otherEntityName" := VStr "author";
       "relationshipType" := VStr "one-to-one"; "ownerSide" := VBool true;
       "otherEntityField" := VStr "id" ]} in
  let context :=
    Sample.context "Blog"
      {[ "fieldsContainManyToOne" := VBool true; "prodDatabaseType" := VStr "mysql" ]} []
      [entries; author] in
  let context' := st (loadInMemoryData (H:=L) ∅ context) in
  succeeded (loadInMemoryData (H:=L) ∅ context)
  ∧ ∀ flag (kind : obj → bool), (flag, kind) ∈ relationshipKinds →
      cfg context' !! flag = boolean (existsb kind (relationships context')).
Proof.
  cbn zeta. apply use_hypotheses.
  - vm_compute. exact I.
  - intros H1. exact (relationship_flags_tell_kinds (H:=Sample.lib ∅) _ _ H1).
Defined.

(** ** The content of the fields *)

Section FieldContent.
Context `{Lib}.

Lemma classifyField_react (s : FieldState) :
  wp classifyField
     (λ fieldType s',
        snd s' !! "fieldType" = fieldType
        ∧ cfg (fst s') !! "fieldsIsReactAvField"
          = (if negb (oneOf ["Instant"; "ZonedDateTime"; "Boolean"] fieldType)
             then boolean true else cfg (fst s) !! "fieldsIsReactAvField"))
     s.
Proof.
  destruct s as [c field]. unfold classifyField. run.
  destruct (isStr (field !! "fieldType") "DateTime" || isStr (field !! "fieldType") "Date");
    run; rewrite ?lookup_assign_eq;
    match goal with
    | |- context [negb (oneOf ?l ?v)] => destruct (negb (oneOf l v)) eqn:Hreact
    end; run;
    (destruct (strictEq _ _); run; rewrite Hreact; cbn;
     by repeat first [rewrite lookup_assign_eq | rewrite lookup_assign_ne by done]).
Qed.

Lemma fieldTypeFlags_content fieldType (s : FieldState) flag (hit : obj → bool) :
  (flag, hit) ∈ contentFlags →
  snd s !! "fieldType" = fieldType →
  wp (fieldTypeFlags fieldType)
     (λ _ s', snd s' = snd s
              ∧ cfg (fst s') !! flag
                = (if (if String.eqb flag "fieldsIsReactAvField" then false
                       else hit (snd s))
                   then boolean true else cfg (fst s) !! flag))
     s.
Proof.
  unfold contentFlags. intros Hin Htype. destruct s as [c field]. cbn [snd] in Htype.
  repeat (apply elem_of_cons in Hin as [[= -> ->]|Hin]); [..|by apply elem_of_nil in Hin];
    cbn [String.eqb Ascii.eqb Bool.eqb]; cbn beta; cbn [fst snd];
    rewrite ?Htype; clear Htype;
    unfold fieldTypeFlags, oneOf, existsb;
    repeat (match goal with
            | |- context [if isStr fieldType ?t then _ else _] =>
              destruct (isStr fieldType t) eqn:?
            | |- context [if isStr fieldType ?t || _ then _ else _] =>
              destruct (isStr fieldType t) eqn:?
            end; cbn [orb andb]);
    repeat match goal with
           | Hyes : isStr fieldType _ = true |- _ =>
             apply isStr_true in Hyes; subst fieldType
           end;
    try discriminate;
    run;
    repeat (match goal with
            | |- context [isStr (field !! "fieldTypeBlobContent") ?t] =>
              destruct (isStr (field !! "fieldTypeBlobContent") t) eqn:?
            end; cbn [negb]; run);
    cbn;
    repeat first [rewrite lookup_assign_eq | rewrite lookup_assign_ne by done];
    try done.
Qed.

(** The field callback raises the flags the field it leaves stands for. *)
Lemma loadField_content (s : FieldState) flag (hit : obj → bool) :
  (flag, hit) ∈ contentFlags →
  wp loadField
     (λ _ s', cfg (fst s') !! flag
              = if hit (snd s') then boolean true else cfg (fst s) !! flag)
     s.
Proof.
  intros Hin. pose proof Hin as Hflag. unfold contentFlags in Hin.
  apply elem_of_cons in Hin as [[= -> ->]|Hin].
  { clear Hflag. unfold loadField. run_step. run_step. cbv zeta. apply wp_bind.
    eapply wp_mono; [|apply classifyField_react].
    cbn beta. intros fieldType s1 [Htype Hs1].
    apply (wp_stable (λ s : FieldState,
                        (cfg (fst s) !! "fieldsIsReactAvField", snd s !! "fieldType")));
      [stable_tac|].
    intros _ s2 Hs2. cbn beta.
    pose proof (f_equal fst Hs2) as Hflag2. pose proof (f_equal snd Hs2) as Htype2.
    cbn [fst snd] in Hflag2, Htype2. unfold oneOf, existsb in *.
    by rewrite Hflag2, Htype2, Htype, Hs1. }
  assert (String.eqb flag "fieldsIsReactAvField" = false) as Hother.
  { repeat (apply elem_of_cons in Hin as [[= -> ->]|Hin]);
      [..|by apply elem_of_nil in Hin]; done. }
  assert (wp loadField
            (λ _ s', ∃ s3 : FieldState, cfg (fst s') !! flag
                           = (if hit (snd s3) then boolean true
                              else cfg (fst s) !! flag)
                           ∧ snd s' = snd s3) s) as Hwp.
  { unfold loadField. run_step. run_step. cbv zeta. apply wp_bind.
    eapply wp_mono;
      [|apply wp_and;
         [apply returns_wp, classifyField_returns
         |apply (wp_stable (λ s : FieldState, cfg (fst s) !! flag));
            [repeat (apply elem_of_cons in Hin as [[= -> ->]|Hin]);
               [..|by apply elem_of_nil in Hin]; stable_tac
            |intros ? s1 Hs1; exact Hs1]]].
    cbn beta. intros fieldType s1 [(_ & Htype & _) Hs1].
    apply (wp_stable_bind (λ s : FieldState, (cfg (fst s) !! flag, snd s !! "fieldType")));
      [repeat (apply elem_of_cons in Hin as [[= -> ->]|Hin]);
         [..|by apply elem_of_nil in Hin]; stable_tac|].
    intros _ s2 Hs2.
    apply (wp_stable_bind (λ s : FieldState, (cfg (fst s) !! flag, snd s !! "fieldType")));
      [repeat (apply elem_of_cons in Hin as [[= -> ->]|Hin]);
         [..|by apply elem_of_nil in Hin]; stable_tac|].
    intros _ s3 Hs3. rewrite Hs2 in Hs3. clear Hs2 s2.
    pose proof (f_equal snd Hs3) as Htype3. cbn [snd] in Htype3. rewrite Htype in Htype3.
    apply (f_equal fst) in Hs3. cbn [fst] in Hs3. rewrite Hs1 in Hs3. clear Hs1 Htype s1.
    apply wp_bind.
    eapply wp_mono; [|by apply (fieldTypeFlags_content fieldType s3 flag hit)].
    cbn beta. rewrite Hother. intros _ s4 [Hsame Hs4].
    apply (wp_stable (λ s : FieldState, (cfg (fst s) !! flag, snd s)));
      [repeat (apply elem_of_cons in Hin as [[= -> ->]|Hin]);
         [..|by apply elem_of_nil in Hin]; stable_tac|].
    intros _ s5 Hs5. cbn beta. exists s3.
    pose proof (f_equal fst Hs5) as Hflag5. pose proof (f_equal snd Hs5) as Hfield5.
    cbn [fst snd] in Hflag5, Hfield5.
    by rewrite Hflag5, Hfield5, Hs4, Hs3, Hsame. }
  eapply wp_mono; [|exact Hwp]. cbn beta. intros _ s' (s3 & -> & ->). done.
Qed.

Lemma loadInMemoryData_content fileData (c : Context) flag (hit : obj → bool) :
  (flag, hit) ∈ contentFlags →
  wp (loadInMemoryData fileData)
     (λ _ c', cfg c' !! flag = boolean (existsb hit (fields c'))) c.
Proof.
  intros Hin. unfold loadInMemoryData. apply wp_bind.
  assert (wp (loadEntityNames fileData) (λ _ c', cfg c' !! flag = boolean false) c)
    as Hstart.
  { apply loadEntityNames_resets. unfold contentFlags in Hin.
    repeat (apply elem_of_cons in Hin as [[= -> ->]|Hin]);
      [..|by apply elem_of_nil in Hin]; repeat first [by left|right]. }
  eapply wp_mono; [|exact Hstart]. cbn beta. intros _ c1 Hc1. apply wp_bind.
  assert (wp (forEachOf fields set_fields loadField)
            (λ _ c', cfg c' !! flag = boolean (existsb hit (fields c'))) c1) as Hloop.
  { unfold wp, forEachOf. cbn [res st].
    pose proof (forEach_raises (λ c : Context, cfg c !! flag) hit loadField
                  (λ s, loadField_content s flag hit Hin)
                  (fields c1) c1 false Hc1) as Hwp.
    unfold succeeded in Hwp.
    destruct (res (forEach loadField (fields c1) c1)); [done|].
    by apply Hwp. }
  eapply wp_mono; [|exact Hloop]. cbn beta. intros _ c2 Hc2.
  apply (wp_stable (λ c : Context, (cfg c !! flag, fields c))).
  - apply stable_bind.
    + apply loadRelationships_stable; [|done]. unfold contentFlags in Hin.
      repeat (apply elem_of_cons in Hin as [[= -> ->]|Hin]);
        [..|by apply elem_of_nil in Hin]; stable_tac.
    + intros hasUserField. unfold contentFlags in Hin.
      repeat (apply elem_of_cons in Hin as [[= -> ->]|Hin]);
        [..|by apply elem_of_nil in Hin]; stable_tac.
  - intros _ c4 Hc4. cbn beta.
    pose proof (f_equal fst Hc4) as Hflag4. pose proof (f_equal snd Hc4) as Hfields4.
    cbn [fst snd] in Hflag4, Hfields4. by rewrite Hflag4, Hfields4.
Qed.

(** The flags of the content. When [loadInMemoryData] returns,
    [fieldsIsReactAvField] is true exactly when some field is not of type
    [Instant], [ZonedDateTime] or [Boolean], and of the binary fields
    [fieldsContainImageBlob] tells whether one holds an image,
    [fieldsContainTextBlob] whether one holds a text and
    [fieldsContainBlobOrImage] whether one holds anything but a text. *)
Theorem content_flags_tell_field_content fileData (context : Context) :
  succeeded (loadInMemoryData fileData context) →
  let context' := st (loadInMemoryData fileData context) in
  ∀ flag (hit : obj → bool), (flag, hit) ∈ contentFlags →
    cfg context' !! flag = boolean (existsb hit (fields context')).
Proof.
  intros Hok. cbn zeta. intros flag hit Hin.
  by destruct (wp_succeeded _ _ _ (loadInMemoryData_content fileData context flag hit Hin)
                 Hok) as (_ & _ & ?).
Qed.

End FieldContent.

(** A contract with its scan and its terms. *)
Lemma content_flags_witness :
  let L := Sample.lib ∅ in
  let scan : obj :=
    {[ "fieldName" := VStr "scan"; "fieldType" := VStr "byte[]";
       "fieldTypeBlobContent" := VStr "any" ]} in
  let terms : obj :=
    {[ "fieldName" := VStr "terms"; "fieldType" := VStr "byte[]";
       "fieldTypeBlobContent" := VStr "text" ]} in
  let context :=
    Sample.context "Contract"
      {[ "fieldsContainImageBlob" := VBool true; "prodDatabaseType" := VStr "mysql" ]}
      [scan; terms] [] in
  let context' := st (loadInMemoryData (H:=L) ∅ context) in
  succeeded (loadInMemoryData (H:=L) ∅ context)
  ∧ ∀ flag (hit : obj → bool), (flag, hit) ∈ contentFlags →
      cfg context' !! flag = boolean (existsb hit (fields context')).
Proof.
  cbn zeta. apply use_hypotheses.
  - vm_compute. exact I.
  - intros H1. exact (content_flags_tell_field_content (H:=Sample.lib ∅) _ _ H1).
Defined.

(** ** What makes an entity validated *)

Section Validated.
Context `{Lib}.

Lemma loadField_validation (s : FieldState) :
  wp loadField
     (λ _ s', cfg (fst s') !! "validation"
              = if checked (snd s') then boolean true else cfg (fst s) !! "validation")
     s.
Proof.
  unfold loadField, checked. run_step. run_step. cbv zeta.
  set (obs := λ s : FieldState,
         (cfg (fst s) !! "validation", snd s !! "fieldValidateRules")).
  apply (wp_stable_bind obs); [subst obs; stable_tac|]. intros fieldType s1 Hs1.
  apply (wp_stable_bind obs); [subst obs; stable_tac|]. intros _ s2 Hs2.
  rewrite Hs1 in Hs2. clear s1 Hs1. run_step. run_step.
  apply (wp_stable_bind (λ s : FieldState, (obs s, snd s !! "fieldValidate")));
    [subst obs; stable_tac|].
  intros _ s3 Hs3. cbn [fst snd] in Hs3. rewrite lookup_assign_eq in Hs3.
  pose proof (f_equal fst Hs3) as Hobs3. pose proof (f_equal snd Hs3) as Hvalidate.
  subst obs. cbn [fst snd] in Hobs3, Hvalidate, Hs2.
  rewrite lookup_assign_ne in Hobs3 by done. rewrite Hs2 in Hobs3.
  pose proof (f_equal snd Hs2) as Hrules2. cbn [snd] in Hrules2. clear Hs3 Hs2.
  pose proof (f_equal fst Hobs3) as Hflag. pose proof (f_equal snd Hobs3) as Hrules.
  cbn [fst snd] in Hflag, Hrules. run_step. rewrite Hvalidate, Hrules2.
  destruct (hasRules (s.2 !! "fieldValidateRules")) eqn:Hyes; cbn [truthy boolean];
    run; cbn; by rewrite ?lookup_assign_eq, ?Hrules, ?Hyes.
Qed.

(** Lines 941-947 on one relationship. *)
Lemma requiredRelationship_wp entityName (s : RelState) :
  wp (requiredRelationship entityName)
     (λ _ s',
        cfg (rctx s') !! "validation"
        = (if requiredOfOther entityName (rel s) then boolean true
           else cfg (rctx s) !! "validation")
        ∧ name (rctx s') = name (rctx s)
        ∧ rel s' !! "relationshipValidateRules" = rel s !! "relationshipValidateRules"
        ∧ rel s' !! "otherEntityName" = rel s !! "otherEntityName")
     s.
Proof.
  destruct s as [[c u] r].
  unfold requiredRelationship, rulesIncludeRequired, requiredOfOther.
  do 2 run_step. cbv zeta.
  destruct (truthy (r !! "relationshipValidateRules")); cbn [andb]; [|by run].
  destruct (r !! "relationshipValidateRules") as [[]|] eqn:Hrules; run;
    match goal with
    | |- context [occursIn ?a ?b] => destruct (occursIn a b); cbn [andb]; run
    | |- context [includes ?a ?b] => destruct (includes a b); cbn [andb]; run
    | _ => idtac
    end;
    try done;
    (destruct (r !! "otherEntityName") as [[]|] eqn:Hother; run; try done;
     repeat match goal with
            | |- context [if String.eqb ?a ?b then _ else _] => destruct (String.eqb a b)
            end;
     run; cbn;
     repeat first [rewrite lookup_assign_eq | rewrite lookup_assign_ne by done];
     by rewrite ?Hrules, ?Hother).
Qed.

Lemma requiredOfOther_same entityName (r r' : obj) :
  r' !! "relationshipValidateRules" = r !! "relationshipValidateRules" →
  r' !! "otherEntityName" = r !! "otherEntityName" →
  requiredOfOther entityName r' = requiredOfOther entityName r.
Proof. unfold requiredOfOther. by intros -> ->. Qed.

Lemma loadRelationship_validation (s : RelState) :
  wp loadRelationship
     (λ _ s',
        name (rctx s') = name (rctx s)
        ∧ cfg (rctx s') !! "validation"
          = if requiredOfOther (name (rctx s)) (rel s') then boolean true
            else cfg (rctx s) !! "validation")
     s.
Proof.
  unfold loadRelationship. run_step. run_step. cbv zeta.
  set (obs := λ s : RelState,
         (cfg (rctx s) !! "validation", name (rctx s),
          rel s !! "relationshipValidateRules", rel s !! "otherEntityName")).
  apply (wp_stable_bind obs); [subst obs; stable_tac|]. intros _ s1 Hs.
  do 10 (apply (wp_stable_bind obs); [subst obs; stable_tac|];
         let s' := fresh "s" in
         let Hs' := fresh "Hs" in
         intros _ s' Hs'; rewrite Hs in Hs'; clear Hs s1; rename Hs' into Hs;
         rename s' into s1).
  apply wp_bind. eapply wp_mono; [|apply requiredRelationship_wp].
  cbn beta. intros _ s2 (Hflag & Hname & Hrules & Hother).
  apply (wp_stable obs); [subst obs; stable_tac|].
  intros _ s3 Hs3. subst obs. cbn beta in Hs, Hs3.
  injection Hs as Hs_flag Hs_name Hs_rules Hs_other.
  injection Hs3 as Hs3_flag Hs3_name Hs3_rules Hs3_other.
  split; [congruence|].
  rewrite Hs3_flag, Hflag, Hs_flag.
  by rewrite (requiredOfOther_same _ (rel s1) (rel s3)) by congruence.
Qed.

Lemma loadRelationship_validation_of entityName (s : RelState) :
  name (rctx s) = entityName →
  wp loadRelationship
     (λ _ s',
        name (rctx s') = entityName
        ∧ cfg (rctx s') !! "validation"
          = if requiredOfOther entityName (rel s') then boolean true
            else cfg (rctx s) !! "validation")
     s.
Proof. intros <-. apply loadRelationship_validation. Qed.

Lemma loadInMemoryData_validation fileData (c : Context) :
  wp (loadInMemoryData fileData)
     (λ _ c', cfg c' !! "validation"
              = boolean (existsb checked (fields c')
                         || existsb (requiredOfOther (name c)) (relationships c')))
     c.
Proof.
  unfold loadInMemoryData. apply wp_bind.
  eapply wp_mono;
    [|apply wp_and;
       [apply (loadEntityNames_resets fileData c "validation");
          repeat first [by left|right]
       |apply (wp_stable name); [stable_tac|intros ? c1 Hc1; exact Hc1]]].
  cbn beta. intros _ c1 [Hflag1 Hname1]. apply wp_bind.
  assert (wp (forEachOf fields set_fields loadField)
            (λ _ c', cfg c' !! "validation" = boolean (existsb checked (fields c'))
                     ∧ name c' = name c) c1) as Hfields.
  { apply wp_and.
    - unfold wp, forEachOf. cbn [res st].
      pose proof (forEach_raises (λ c : Context, cfg c !! "validation") checked
                    loadField loadField_validation (fields c1) c1 false Hflag1) as Hwp.
      unfold succeeded in Hwp.
      destruct (res (forEach loadField (fields c1) c1)); [done|].
      by apply Hwp.
    - apply (wp_stable name); [apply forEachOf_stable; [stable_tac|done]|].
      intros _ c2 Hc2. by rewrite Hc2. }
  eapply wp_mono; [|exact Hfields]. cbn beta. intros _ c2 [Hflag2 Hname2].
  apply wp_bind.
  assert (wp loadRelationships
            (λ _ c', cfg c' !! "validation"
                     = boolean (existsb checked (fields c')
                                || existsb (requiredOfOther (name c)) (relationships c')))
            c2) as Hrels.
  { apply (wp_mono _ (λ _ c', cfg c' !! "validation"
                              = boolean (existsb checked (fields c2)
                                         || existsb (requiredOfOther (name c))
                                              (relationships c'))
                              ∧ fields c' = fields c2)).
    { by intros _ c3 [-> ->]. }
    apply wp_and.
    - unfold wp, loadRelationships. cbn [res st].
      pose proof (forEach_raises_with
                    (λ cb : Context * bool, name (fst cb) = name c)
                    (λ cb : Context * bool, cfg (fst cb) !! "validation")
                    (requiredOfOther (name c)) loadRelationship) as Hwp.
      specialize (Hwp (loadRelationship_validation_of (name c))
                      (relationships c2) (c2, false) _ Hname2 Hflag2).
      unfold succeeded in Hwp.
      destruct (res (forEach loadRelationship (relationships c2) (c2, false))); [done|].
      by apply Hwp.
    - apply (wp_stable fields);
        [apply loadRelationships_stable; [stable_tac|done]|].
      intros _ c3 Hc3. exact Hc3. }
  eapply wp_mono; [|exact Hrels]. cbn beta. intros hasUserField c3 Hc3.
  apply (wp_stable (λ c : Context, (cfg c !! "validation", fields c, relationships c)));
    [stable_tac|].
  intros _ c4 Hc4. injection Hc4 as -> -> ->. exact Hc3.
Qed.

(** Validation. When [loadInMemoryData] returns, [validation] is true
    exactly when some field has a non-empty array of rules or some
    relationship to another entity is required; a required relationship of
    the entity to itself does not count. *)
Theorem validation_iff_rules fileData (context : Context) :
  succeeded (loadInMemoryData fileData context) →
  let context' := st (loadInMemoryData fileData context) in
  cfg context' !! "validation"
  = boolean (existsb checked (fields context')
             || existsb (requiredOfOther (name context)) (relationships context')).
Proof.
  intros Hok. cbn zeta.
  by destruct (wp_succeeded _ _ _ (loadInMemoryData_validation fileData context) Hok)
    as (_ & _ & ?).
Qed.

End Validated.

(** An employee who must have a department and may have a manager. *)
Lemma validation_witness :
  let L := Sample.lib ∅ in
  let department : obj :=
    {[ "relationshipName" := VStr "department"; "otherEntityName" := VStr "department";
       "relationshipType" := VStr "many-to-one"; "otherEntityField" := VStr "id";
       "relationshipValidateRules" := VStr "required" ]} in
  let manager : obj :=
    {[ "relationshipName" := VStr "manager"; "otherEntityName" := VStr "employee";
       "relationshipType" := VStr "many-to-one"; "otherEntityField" := VStr "id" ]} in
  let context := Sample.context "Employee" {[ "prodDatabaseType" := VStr "mysql" ]}
      [] [department; manager] in
  let context' := st (loadInMemoryData (H:=L) ∅ context) in
  succeeded (loadInMemoryData (H:=L) ∅ context)
  ∧ cfg context' !! "validation"
    = boolean (existsb checked (fields context')
               || existsb (requiredOfOther (H:=L) (name context))
                    (relationships context')).
Proof.
  cbn zeta. apply use_hypotheses.
  - vm_compute. exact I.
  - intros H1. exact (validation_iff_rules (H:=Sample.lib ∅) _ _ H1).
Defined.

(** ** The name of the entity *)

Lemma index_shorter needle s :
  (String.length s < String.length needle)%nat → String.index 0 needle s = None.
Proof.
  revert needle. induction s as [|c s IH]; intros needle Hlen.
  - destruct needle; [cbn in Hlen; lia|done].
  - cbn [String.index].
    destruct needle as [|d needle]; [cbn in Hlen; lia|].
    cbn [String.prefix].
    assert (String.prefix needle s = false) as Hprefix.
    { clear IH. revert s Hlen. induction needle as [|e needle IHn]; intros s Hlen.
      - cbn in Hlen. lia.
      - destruct s as [|f s]; [done|]. cbn [String.prefix].
        destruct (Ascii.ascii_dec e f); [|done]. apply IHn. cbn in *. lia. }
    rewrite Hprefix. destruct (Ascii.ascii_dec d c); rewrite IH; try done;
      cbn in *; lia.
Qed.

Lemma prefix_same_length needle s :
  String.length s = String.length needle →
  String.prefix needle s = true ↔ s = needle.
Proof.
  revert s. induction needle as [|d needle IH]; intros [|c s] Hlen; try done.
  cbn [String.prefix]. cbn in Hlen. injection Hlen as Hlen.
  destruct (Ascii.ascii_dec d c) as [->|Hdc].
  - rewrite (IH s Hlen). split; [by intros ->|by intros [= ->]].
  - split; [done|]. by intros [= ? ?].
Qed.

Lemma index_same_length needle s :
  needle ≠ "" → String.length s = String.length needle →
  String.index 0 needle s ≠ None ↔ s = needle.
Proof.
  intros Hne Hlen. destruct s as [|c s].
  - destruct needle; [done|discriminate].
  - cbn [String.index]. destruct (String.prefix needle (String c s)) eqn:Hprefix.
    + apply prefix_same_length in Hprefix; done.
    + rewrite index_shorter; [|cbn in Hlen; lia]. split; [done|].
      intros Heq. apply (prefix_same_length needle) in Heq; [congruence|done].
Qed.

Lemma index_from prefix_ needle s :
  String.index (String.length prefix_) needle (prefix_ +:+ s)
  = (λ i, String.length prefix_ + i)%nat <$> String.index 0 needle s.
Proof.
  induction prefix_ as [|c p IH].
  - change ("" +:+ s) with s. change (String.length "") with 0%nat.
    by destruct (String.index 0 needle s).
  - change (String c p +:+ s) with (String c (p +:+ s)).
    change (String.length (String c p)) with (S (String.length p)).
    cbn [String.index]. rewrite IH. by destruct (String.index 0 needle s).
Qed.

Lemma split_at n s :
  (n <= String.length s)%nat →
  ∃ p rest, s = p +:+ rest ∧ String.length p = n.
Proof.
  revert s. induction n as [|n IH]; intros s Hn.
  - by exists "", s.
  - destruct s as [|c s]; [cbn in Hn; lia|].
    destruct (IH s) as (p & rest & -> & Hp); [cbn in Hn; lia|].
    exists (String c p), rest. split; [done|]. cbn. by rewrite Hp.
Qed.

Lemma length_append (a b : string) :
  String.length (a +:+ b) = (String.length a + String.length b)%nat.
Proof.
  induction a as [|c a IH]; [done|].
  change (String c a +:+ b) with (String c (a +:+ b)).
  change (S (String.length (a +:+ b)) = S (String.length a + String.length b))%nat.
  by rewrite IH.
Qed.

Lemma append_inj_same_length (a b c d : string) :
  a +:+ b = c +:+ d → String.length b = String.length d → a = c ∧ b = d.
Proof.
  revert c. induction a as [|x a IH]; intros [|y c] Heq Hlen.
  - done.
  - apply (f_equal String.length) in Heq. rewrite !length_append in Heq.
    cbn [String.length] in Heq. lia.
  - apply (f_equal String.length) in Heq. rewrite !length_append in Heq.
    cbn [String.length] in Heq. lia.
  - change (String x (a +:+ b) = String y (c +:+ d)) in Heq.
    injection Heq as -> Heq. by destruct (IH c Heq Hlen) as [-> ->].
Qed.

(** The test of line 1113 finds the needle exactly when the string ends
    with it. *)
Lemma foundAtEnd_iff needle s :
  needle ≠ "" →
  foundAtEnd needle s = true ↔ ∃ p, s = p +:+ needle.
Proof.
  intros Hne. unfold foundAtEnd.
  destruct (decide (String.length needle <= String.length s)%nat) as [Hle|Hgt].
  - destruct (split_at (String.length s - String.length needle) s) as (p & rest & -> & Hp);
      [lia|].
    rewrite <- Hp, index_from.
    assert (String.length rest = String.length needle) as Hrest.
    { rewrite length_append in Hp. rewrite length_append in Hle. lia. }
    pose proof (index_same_length needle rest Hne Hrest) as Hiff.
    destruct (String.index 0 needle rest) as [i|]; cbn.
    + split; [|done]. intros _. exists p. f_equal. by apply Hiff.
    + split; [done|]. intros [q Hq].
      apply append_inj_same_length in Hq as [_ Hq]; [|done].
      by apply Hiff in Hq.
  - replace (String.length s - String.length needle)%nat with 0%nat by lia.
    rewrite index_shorter by lia. split; [done|]. intros [p ->].
    rewrite length_append in Hgt. lia.
Qed.

Section EntityNameChecks.
Context `{Lib}.
Variable isReservedClassName : string → bool.

Lemma alphanumeric_dot c : alphanumeric c = true → dot c = true.
Proof.
  unfold alphanumeric, dot. cbv zeta. intros Hc.
  destruct (Nat.eqb_spec (Ascii.nat_of_ascii c) 10) as [E|_];
    [rewrite E in Hc; done|].
  destruct (Nat.eqb_spec (Ascii.nat_of_ascii c) 13) as [E|_];
    [rewrite E in Hc; done|done].
Qed.

(** After the first test the second only looks at the first character. *)
Lemma digitFirst_alphanumeric s :
  onlyAlphanumeric s = true →
  digitFirst s = match s with String c _ => digit c | EmptyString => false end.
Proof.
  destruct s as [|c s]; [done|]. unfold onlyAlphanumeric, digitFirst.
  cbn [String.list_ascii_of_string forallb]. intros [_ Hrest]%andb_prop.
  rewrite (proj2 (forallb_forall dot _)); [by rewrite andb_true_r|].
  intros x Hx. apply alphanumeric_dot.
  by apply (proj1 (forallb_forall alphanumeric _) Hrest).
Qed.

(** The name of the entity. [validateEntityName] returns exactly when the
    name is not empty, has letters and digits only, does not start with a
    digit, does not end with [Detail] and, unless the server is skipped, is
    no reserved class name; otherwise it throws a [SchemaError]. Either way
    the context is left as it was and there is no warning. *)
Theorem validateEntityName_accepts_iff (context : Context) :
  let o := validateEntityName isReservedClassName context in
  let entityName := name context in
  (succeeded o
   ↔ entityName ≠ ""
     ∧ onlyAlphanumeric entityName = true
     ∧ (∀ c rest, entityName = String c rest → digit c = false)
     ∧ (¬ ∃ p, entityName = p +:+ "Detail")
     ∧ (truthy (cfg context !! "skipServer") = true
        ∨ isReservedClassName entityName = false))
  ∧ match res o with
    | inl e => isSchemaError e
    | inr _ => True
    end
  ∧ st o = context
  ∧ log o = [].
Proof.
  cbv zeta. unfold validateEntityName, _validateEntityName.
  rewrite bind_run. cbn [get res st log].
  destruct (onlyAlphanumeric (name context)) eqn:Halnum; cbn [negb].
  2: { cbn. split; [|by split; [eexists|]]. split; [done|]. by intros (_ & ? & _). }
  rewrite (digitFirst_alphanumeric _ Halnum).
  destruct (name context) as [|c rest] eqn:Hname.
  { cbn. split; [|by split; [eexists|]]. split; [done|]. by intros (? & _). }
  destruct (digit c) eqn:Hdigit.
  { cbn. split; [|by split; [eexists|]]. split; [done|]. intros (_ & _ & Hfirst & _).
    specialize (Hfirst c rest eq_refl). congruence. }
  cbn [String.eqb]. rewrite <- Hname.
  destruct (foundAtEnd "Detail" (name context)) eqn:Hend.
  { cbn. split; [|by split; [eexists|]]. split; [done|]. intros (_ & _ & _ & Hno & _).
    destruct Hno. by apply (foundAtEnd_iff "Detail"). }
  destruct (truthy (cfg context !! "skipServer")) eqn:Hskip; cbn [negb andb].
  - cbn. split; [|done]. split; [|done]. intros _.
    split; [by rewrite Hname|]. split; [done|].
    split; [intros c0 rest0 Heq; rewrite Hname in Heq; by injection Heq as <- _|].
    split; [|by left]. intros Hends.
    apply (foundAtEnd_iff "Detail") in Hends; [congruence|done].
  - destruct (isReservedClassName (name context)) eqn:Hreserved.
    + cbn. split; [|by split; [eexists|]]. split; [done|]. by intros (_ & _ & _ & _ & [?|?]).
    + cbn. split; [|done]. split; [|done]. intros _.
      split; [by rewrite Hname|]. split; [done|].
      split; [intros c0 rest0 Heq; rewrite Hname in Heq; by injection Heq as <- _|].
      split; [|by right]. intros Hends.
      apply (foundAtEnd_iff "Detail") in Hends; [congruence|done].
Qed.

End EntityNameChecks.

(** ** Across the phases *)

Section Phases.
Context `{Lib}.

Lemma validateFile_changelogDate (context : Context) :
  wp validateFile
     (λ _ c',
        cfg c' !! "changelogDate"
        = (if isUndefined (cfg context !! "changelogDate")
              && oneOf ["sql"; "cassandra"] (cfg context !! "databaseType")
           then str dateFormatForLiquibase
           else cfg context !! "changelogDate")
        ∧ (cfg c' !! "databaseType", regenerated c')
          = (cfg context !! "databaseType", regenerated context))
     context.
Proof.
  unfold validateFile. run_step. run_step. cbv zeta.
  set (obs := λ c : Context,
         (cfg c !! "changelogDate", cfg c !! "databaseType", regenerated c)).
  apply (wp_stable_bind obs); [apply forEachOf_stable; [apply stable_onSnd|done]|].
  intros _ c1 Hc1.
  apply (wp_stable_bind obs); [apply forEachOf_stable; [apply stable_onSnd|done]|].
  intros _ c2 Hc2. rewrite Hc1 in Hc2. clear c1 Hc1. subst obs. cbn beta in Hc2.
  injection Hc2 as Hdate Hdb Hregen. rewrite <- Hdate, <- Hdb, <- Hregen.
  apply wp_and.
  - unfold validateRoot.
    refine (wp_then_stable (λ c : Context, cfg c !! "changelogDate")
              (λ v, v = (if isUndefined (cfg c2 !! "changelogDate")
                            && oneOf ["sql"; "cassandra"] (cfg c2 !! "databaseType")
                         then str dateFormatForLiquibase
                         else cfg c2 !! "changelogDate")) _ _ _ _ _).
    + run. destruct (isUndefined _ && _); run; cbn; by rewrite ?lookup_assign_eq.
    + intros _. stable_tac.
  - apply (wp_stable (λ c : Context, (cfg c !! "databaseType", regenerated c)));
      [unfold regenerated; stable_tac|].
    by intros _ c3 ->.
Qed.

Lemma writeEntityJson_changelogDate (context : Context) :
  wp writeEntityJson
     (λ _ c',
        cfg c' !! "changelogDate"
        = (if negb (regenerated context)
              && isUndefined (cfg context !! "changelogDate")
              && oneOf ["sql"; "cassandra"; "couchbase"] (cfg context !! "databaseType")
           then str dateFormatForLiquibase
           else cfg context !! "changelogDate"))
     context.
Proof.
  unfold writeEntityJson, regenerated. run.
  destruct (negb _); cbn [andb]; run; [|done].
  destruct (isUndefined _ && _); run; cbn; by rewrite ?lookup_assign_eq.
Qed.

Lemma isUndefined_str s : isUndefined (str s) = false.
Proof. done. Qed.

(** The date of the changelog. When the [configuring] phase returns, a
    [changelogDate] the context had is the one it has; a missing one has
    become the date of the day for the databases [sql] and [cassandra] and,
    unless the entity is regenerated, for [couchbase], and is missing still
    for every other database. *)
Theorem configuring_dates_the_changelog fileData (context : Context) :
  succeeded (configuring fileData context) →
  let context' := st (configuring fileData context) in
  cfg context' !! "changelogDate"
  = if isUndefined (cfg context !! "changelogDate") && dated context
    then str dateFormatForLiquibase
    else cfg context !! "changelogDate".
Proof.
  intros Hok. cbn zeta.
  assert (wp (configuring fileData)
            (λ _ c', cfg c' !! "changelogDate"
                     = if isUndefined (cfg context !! "changelogDate") && dated context
                       then str dateFormatForLiquibase
                       else cfg context !! "changelogDate") context) as Hwp.
  { unfold configuring. apply wp_bind.
    eapply wp_mono; [|apply validateFile_changelogDate].
    cbn beta. intros _ c1 [Hdate1 [= Hdb1 Hregen1]].
    refine (wp_then_stable (λ c : Context, cfg c !! "changelogDate")
              (λ v, v = _) _ _ _ _ _).
    - eapply wp_mono; [|apply writeEntityJson_changelogDate].
      cbn beta. intros _ c2 ->. rewrite Hdate1, Hdb1, Hregen1. unfold dated.
      unfold oneOf, existsb.
      destruct (isUndefined (cfg context !! "changelogDate")) eqn:Hmissing;
        cbn [andb]; [|by rewrite Hmissing, !andb_false_r].
      destruct (isStr (cfg context !! "databaseType") "sql"); cbn [orb];
        [by rewrite isUndefined_str, andb_false_r|].
      destruct (isStr (cfg context !! "databaseType") "cassandra"); cbn [orb];
        [by rewrite isUndefined_str, andb_false_r|].
      rewrite Hmissing, andb_true_r.
      destruct (regenerated context); cbn [negb andb]; [by rewrite andb_false_r|].
      by destruct (isStr (cfg context !! "databaseType") "couchbase").
    - intros _. unfold loadInMemoryData.
      apply stable_bind; [unfold loadEntityNames; cbn [forM_]; stable_tac|intros _].
      apply stable_bind; [apply forEachOf_stable; [stable_tac|done]|intros _].
      apply stable_bind; [apply loadRelationships_stable; [stable_tac|done]|intros ?].
      stable_tac. }
  by destruct (wp_succeeded _ _ _ Hwp Hok) as (_ & _ & ?).
Qed.

(** Reactive repositories. When [loadInMemoryData] returns,
    [reactiveRepositories] is what line 558 makes of the context the phase
    was given, and nothing later in the phase changes it: for a reactive
    application it tells whether the database type is one of [mongodb],
    [cassandra], [couchbase] and [neo4j], otherwise it is the value of
    [reactive] itself, one that counts as false. *)
Theorem reactive_repositories_follow_the_database fileData (context : Context) :
  succeeded (loadInMemoryData fileData context) →
  cfg (st (loadInMemoryData fileData context)) !! "reactiveRepositories"
  = if truthy (cfg context !! "reactive")
    then boolean (oneOf ["mongodb"; "cassandra"; "couchbase"; "neo4j"]
                        (cfg context !! "databaseType"))
    else cfg context !! "reactive".
Proof.
  intros Hok.
  assert (wp (loadInMemoryData fileData)
            (λ _ c', cfg c' !! "reactiveRepositories"
                     = if truthy (cfg context !! "reactive")
                       then boolean (oneOf ["mongodb"; "cassandra"; "couchbase"; "neo4j"]
                                           (cfg context !! "databaseType"))
                       else cfg context !! "reactive") context) as Hwp.
  { unfold loadInMemoryData.
    refine (wp_then_stable (λ c : Context, cfg c !! "reactiveRepositories")
              (λ v, v = _) _ _ _ _ _).
    - unfold loadEntityNames. run_step. run_step. cbv zeta.
      set (obs := λ c : Context, (cfg c !! "reactive", cfg c !! "databaseType")).
      apply (wp_stable_bind obs); [subst obs; stable_tac|]. intros _ c1 Hobs.
      repeat lazymatch goal with
             | |- wp (cset "reactiveRepositories" _ ≫= _) _ _ => fail
             | |- wp (_ ≫= _) _ _ =>
               apply (wp_stable_bind obs); [subst obs; stable_tac|];
               let c' := fresh "c" in
               let Hc' := fresh "Hc" in
               intros ? c' Hc'; rewrite Hobs in Hc'; clear Hobs c1;
               rename Hc' into Hobs; rename c' into c1
             end.
      refine (wp_then_stable (λ c : Context, cfg c !! "reactiveRepositories")
                (λ v, v = _) _ _ _ _ _).
      + run. cbn. rewrite lookup_assign_eq. subst obs. cbn beta in Hobs.
        injection Hobs as -> ->. done.
      + intros _. cbn [forM_]. stable_tac.
    - intros _.
      apply stable_bind; [apply forEachOf_stable; [stable_tac|done]|intros _].
      apply stable_bind; [apply loadRelationships_stable; [stable_tac|done]|intros ?].
      stable_tac. }
  by destruct (wp_succeeded _ _ _ Hwp Hok) as (_ & _ & ->).
Qed.

End Phases.

(** A customer in a relational database, generated for the first time. *)
Lemma configuring_dates_witness :
  let L := Sample.lib ∅ in
  let context :=
    Sample.context "Customer"
      {[ "databaseType" := VStr "sql"; "prodDatabaseType" := VStr "mysql" ]}
      [{[ "fieldName" := VStr "name"; "fieldType" := VStr "String" ]}] [] in
  let context' := st (configuring (H:=L) ∅ context) in
  succeeded (configuring (H:=L) ∅ context)
  ∧ cfg context' !! "changelogDate"
    = if isUndefined (cfg context !! "changelogDate") && dated context
      then str (dateFormatForLiquibase (Lib:=L))
      else cfg context !! "changelogDate".
Proof.
  cbn zeta. apply use_hypotheses.
  - vm_compute. exact I.
  - intros H1. exact (configuring_dates_the_changelog (H:=Sample.lib ∅) _ _ H1).
Defined.

(** A reactive application on MongoDB, with a relationship. *)
Lemma reactive_repositories_witness :
  let L := Sample.lib ∅ in
  let context :=
    Sample.context "Customer"
      {[ "reactive" := VBool true; "databaseType" := VStr "mongodb";
         "prodDatabaseType" := VStr "mongodb" ]}
      [{[ "fieldName" := VStr "nickname"; "fieldType" := VStr "String" ]}]
      [{[ "relationshipName" := VStr "address"; "otherEntityName" := VStr "address";
          "relationshipType" := VStr "one-to-many" ]}] in
  succeeded (loadInMemoryData (H:=L) ∅ context)
  ∧ cfg (st (loadInMemoryData (H:=L) ∅ context)) !! "reactiveRepositories"
    = if truthy (cfg context !! "reactive")
      then boolean (oneOf ["mongodb"; "cassandra"; "couchbase"; "neo4j"]
                          (cfg context !! "databaseType"))
      else cfg context !! "reactive".
Proof.
  cbn zeta. apply use_hypotheses.
  - vm_compute. exact I.
  - intros H1.
    exact (reactive_repositories_follow_the_database (H:=Sample.lib ∅) _ _ H1).
Defined.

(** ** The name of the accessors *)

Lemma substring_all s : String.substring 0 (String.length s) s = s.
Proof. induction s as [|c s IH]; [done|]. cbn. by rewrite IH. Qed.

Lemma first_and_rest s :
  (0 < String.length s)%nat →
  String.substring 0 1 s +:+ String.substring 1 (String.length s - 1) s = s.
Proof.
  destruct s as [|c s]; [cbn; lia|]. intros _.
  change (String.length (String c s) - 1)%nat with (String.length s - 0)%nat.
  rewrite Nat.sub_0_r.
  change (String.substring 1 (String.length s) (String c s))
    with (String.substring 0 (String.length s) s).
  rewrite substring_all. by destruct s.
Qed.

Section Accessors.
Context `{Lib}.

Lemma fieldInJavaBeanMethod_wp (s : FieldState) n :
  snd s !! "fieldName" = str n →
  wp fieldInJavaBeanMethod
     (λ _ s', snd s' !! "fieldInJavaBeanMethod"
              = str (if lowerThenUpper n then n else upperFirst (str n)))
     s.
Proof.
  intros Hname. unfold fieldInJavaBeanMethod, lowerThenUpper. run. rewrite Hname.
  unfold str. cbv iota beta.
  destruct (1 <? String.length n)%nat eqn:Hlen; cbn [andb];
    [|run; by rewrite lookup_assign_eq].
  destruct (String.eqb (String.substring 0 1 n) _) eqn:Hfirst; cbn [andb];
    [|run; by rewrite lookup_assign_eq].
  destruct (String.eqb (String.substring 1 1 n) _) eqn:Hsecond;
    run; rewrite lookup_assign_eq; [|done].
  apply String.eqb_eq in Hfirst. rewrite <- Hfirst. do 2 f_equal.
  apply first_and_rest. apply Nat.ltb_lt in Hlen. lia.
Qed.

(** The accessors of a field. When [loadField] returns on a field whose
    name is a string and that has no [fieldInJavaBeanMethod] yet, it has
    given it one: the name as it is when its first letter is in lower case
    and its second in upper case, and the name with an upper-case first
    letter otherwise. *)
Theorem javaBean_method_of_field (s : FieldState) n :
  snd s !! "fieldName" = str n →
  snd s !! "fieldInJavaBeanMethod" = None →
  succeeded (loadField s) →
  snd (st (loadField s)) !! "fieldInJavaBeanMethod"
  = str (if lowerThenUpper n then n else upperFirst (str n)).
Proof.
  intros Hname Hnone Hok.
  assert (wp loadField
            (λ _ s', snd s' !! "fieldInJavaBeanMethod"
                     = str (if lowerThenUpper n then n else upperFirst (str n))) s)
    as Hwp.
  { unfold loadField. run_step. run_step. cbv zeta.
    set (obs := λ s : FieldState,
           (snd s !! "fieldName", snd s !! "fieldInJavaBeanMethod")).
    apply (wp_stable_bind obs); [subst obs; stable_tac|]. intros fieldType s1 Hs1.
    refine (wp_then_stable (λ s : FieldState, snd s !! "fieldInJavaBeanMethod")
              (λ v, v = _) _ _ _ _ _); [|intros _; stable_tac].
    unfold deriveFieldNames.
    do 4 (apply (wp_stable_bind obs); [subst obs; stable_tac|];
          let s' := fresh "s" in
          let Hs' := fresh "Hs" in
          intros _ s' Hs'; rewrite Hs1 in Hs'; clear Hs1 s1; rename Hs' into Hs1;
          rename s' into s1).
    subst obs. cbn beta in Hs1. rewrite Hname, Hnone in Hs1.
    injection Hs1 as Hname1 Hnone1.
    refine (wp_then_stable (λ s : FieldState, snd s !! "fieldInJavaBeanMethod")
              (λ v, v = _) _ _ _ _ _); [|intros _; stable_tac].
    run_step. rewrite Hnone1. cbn [isUndefined].
    by apply fieldInJavaBeanMethod_wp. }
  by destruct (wp_succeeded _ _ _ Hwp Hok) as (_ & _ & ?).
Qed.

End Accessors.

(** The e-mail address of a customer. *)
Lemma javaBean_method_witness :
  let L := Sample.lib ∅ in
  let eMail : obj := {[ "fieldName" := VStr "eMail"; "fieldType" := VStr "String" ]} in
  let s : FieldState := (Sample.context "Customer" {[ "prodDatabaseType" := VStr "mysql" ]} [eMail] [], eMail) in
  (snd s !! "fieldName" = str "eMail"
   ∧ snd s !! "fieldInJavaBeanMethod" = None
   ∧ succeeded (loadField (H:=L) s))
  ∧ snd (st (loadField (H:=L) s)) !! "fieldInJavaBeanMethod"
    = str (if lowerThenUpper (H:=L) "eMail" then "eMail"
           else upperFirst (Lib:=L) (str "eMail")).
Proof.
  cbn zeta. apply use_hypotheses.
  - split; [done|]. split; [done|]. vm_compute. exact I.
  - intros (H1 & H2 & H3).
    exact (javaBean_method_of_field (H:=Sample.lib ∅) _ _ H1 H2 H3).
Defined.

(** ** The pattern of a field, escaped *)

Lemma replaceAll_app c by_ (a b : string) :
  replaceAll c by_ (a +:+ b) = replaceAll c by_ a +:+ replaceAll c by_ b.
Proof.
  induction a as [|x a IH]; [done|].
  change (String x a +:+ b) with (String x (a +:+ b)). cbn [replaceAll].
  rewrite IH. by rewrite append_assoc.
Qed.

(** The literal reads back as the pattern. *)
Lemma readJavaLiteral_javaPattern pattern :
  readJavaLiteral (javaPattern pattern) = Some pattern.
Proof.
  unfold javaPattern. induction pattern as [|c pattern IH]; [done|].
  cbn [replaceAll]. rewrite replaceAll_app.
  destruct (Ascii.eqb c backslash) eqn:Hback.
  - apply Ascii.eqb_eq in Hback as ->.
    change (replaceAll dquote (chr backslash +:+ chr dquote)
              (chr backslash +:+ chr backslash))
      with (chr backslash +:+ chr backslash).
    change (readJavaLiteral
              (String backslash (String backslash
                 (replaceAll dquote (chr backslash +:+ chr dquote)
                    (replaceAll backslash (chr backslash +:+ chr backslash) pattern))))
            = Some (String backslash pattern)).
    cbn [readJavaLiteral]. rewrite Ascii.eqb_refl. cbn [orb]. by rewrite IH.
  - destruct (Ascii.eqb c dquote) eqn:Hquote.
    + apply Ascii.eqb_eq in Hquote as ->.
      change (readJavaLiteral
                (String backslash (String dquote
                   (replaceAll dquote (chr backslash +:+ chr dquote)
                      (replaceAll backslash (chr backslash +:+ chr backslash) pattern))))
              = Some (String dquote pattern)).
      cbn [readJavaLiteral]. rewrite !Ascii.eqb_refl.
      change (Ascii.eqb dquote backslash) with false. cbn [orb]. by rewrite IH.
    + cbn [replaceAll String.append]. rewrite Hquote.
      change (readJavaLiteral
                (String c
                   (replaceAll dquote (chr backslash +:+ chr dquote)
                      (replaceAll backslash (chr backslash +:+ chr backslash) pattern)))
              = Some (String c pattern)).
      cbn [readJavaLiteral]. rewrite Hback, Hquote. by rewrite IH.
Qed.

(** No double quote is left in the pattern for Angular. *)
Lemma angularPattern_no_quote pattern :
  dquote ∉ String.list_ascii_of_string (angularPattern pattern).
Proof.
  unfold angularPattern. induction pattern as [|c pattern IH]; [by apply not_elem_of_nil|].
  cbn [replaceAll]. destruct (Ascii.eqb c dquote) eqn:Hquote.
  - cbn. intros Hin. repeat (apply elem_of_cons in Hin as [?|Hin]; [done|]). done.
  - cbn. apply not_elem_of_cons. split; [|done].
    intros <-. by rewrite Ascii.eqb_refl in Hquote.
Qed.

Section Patterns.
Context `{Lib}.

Lemma pattern_variant_wp variant (f : string → string) (s : FieldState) p :
  snd s !! "fieldValidateRulesPattern" = str p →
  snd s !! variant = None →
  wp (unlessDefined variant
        (s ← get;
         v ← escaped f (snd s !! "fieldValidateRulesPattern");
         fset variant (λ _, v)))
     (λ _ s', snd s' !! variant = str (if String.eqb p "" then p else f p)) s.
Proof.
  intros Hpattern Hnone. run_step. rewrite Hnone. cbn [isUndefined]. run.
  unfold escaped. rewrite Hpattern. unfold str. cbn [truthy].
  destruct (String.eqb p "") eqn:Hempty; cbn [negb]; run; by rewrite lookup_assign_eq.
Qed.

(** The pattern of a field, escaped. When [loadField] returns on a field
    with a pattern and without the variants of it, the variant for Java is
    one that a Java string literal reads back as the pattern, and the
    variant for Angular has no double quote. *)
Theorem pattern_variants_escape_the_pattern (s : FieldState) pattern :
  snd s !! "fieldValidateRulesPattern" = str pattern →
  snd s !! "fieldValidateRulesPatternJava" = None →
  snd s !! "fieldValidateRulesPatternAngular" = None →
  succeeded (loadField s) →
  let field := snd (st (loadField s)) in
  ∃ java angular,
    field !! "fieldValidateRulesPatternJava" = str java
    ∧ readJavaLiteral java = Some pattern
    ∧ field !! "fieldValidateRulesPatternAngular" = str angular
    ∧ dquote ∉ String.list_ascii_of_string angular.
Proof.
  intros Hpattern Hjava Hangular Hok. cbn zeta.
  assert (wp loadField
            (λ _ s',
               snd s' !! "fieldValidateRulesPatternJava"
               = str (if String.eqb pattern "" then pattern else javaPattern pattern)
               ∧ snd s' !! "fieldValidateRulesPatternAngular"
                 = str (if String.eqb pattern "" then pattern
                        else angularPattern pattern)) s)
    as Hwp.
  { unfold loadField. run_step. run_step. cbv zeta.
    set (obs := λ s : FieldState,
           (snd s !! "fieldValidateRulesPattern",
            snd s !! "fieldValidateRulesPatternJava",
            snd s !! "fieldValidateRulesPatternAngular")).
    apply (wp_stable_bind obs); [subst obs; stable_tac|]. intros fieldType s1 Hs1.
    refine (wp_then_stable
              (λ s : FieldState,
                 (snd s !! "fieldValidateRulesPatternJava",
                  snd s !! "fieldValidateRulesPatternAngular"))
              (λ v, v.1 = _ ∧ v.2 = _) _ _ _ _ _); [|intros _; stable_tac].
    unfold deriveFieldNames.
    do 5 (apply (wp_stable_bind obs); [subst obs; stable_tac|];
          let s' := fresh "s" in
          let Hs' := fresh "Hs" in
          intros _ s' Hs'; rewrite Hs1 in Hs'; clear Hs1 s1; rename Hs' into Hs1;
          rename s' into s1).
    subst obs. cbn beta in Hs1. rewrite Hpattern, Hjava, Hangular in Hs1.
    injection Hs1 as Hpattern1 Hjava1 Hangular1.
    apply wp_bind.
    eapply wp_mono;
      [|apply wp_and;
         [by apply (pattern_variant_wp "fieldValidateRulesPatternJava" _ s1 pattern)
         |apply (wp_stable (λ s : FieldState,
                              (snd s !! "fieldValidateRulesPattern",
                               snd s !! "fieldValidateRulesPatternAngular")));
            [stable_tac|intros ? s2 Hs2; exact Hs2]]].
    cbn beta. intros _ s2 [Hjava2 Hs2]. rewrite Hpattern1, Hangular1 in Hs2.
    injection Hs2 as Hpattern2 Hangular2.
    apply wp_bind.
    eapply wp_mono;
      [|apply wp_and;
         [by apply (pattern_variant_wp "fieldValidateRulesPatternAngular" _ s2 pattern)
         |apply (wp_stable (λ s : FieldState, snd s !! "fieldValidateRulesPatternJava"));
            [stable_tac|intros ? s3 Hs3; exact Hs3]]].
    cbn beta. intros _ s3 [Hangular3 Hjava3]. rewrite Hjava2 in Hjava3.
    apply (wp_stable (λ s : FieldState,
                        (snd s !! "fieldValidateRulesPatternJava",
                         snd s !! "fieldValidateRulesPatternAngular")));
      [stable_tac|].
    intros _ s4 Hs4. cbn [fst snd]. injection Hs4 as -> ->. done. }
  destruct (wp_succeeded _ _ _ Hwp Hok) as (_ & _ & Hj & Ha).
  eexists _, _. split; [exact Hj|]. split; [|split; [exact Ha|]].
  - destruct (String.eqb pattern "") eqn:Hempty;
      [by apply String.eqb_eq in Hempty as ->|apply readJavaLiteral_javaPattern].
  - destruct (String.eqb pattern "") eqn:Hempty;
      [apply String.eqb_eq in Hempty as ->; apply not_elem_of_nil
      |apply angularPattern_no_quote].
Qed.

End Patterns.

(** A name that may hold a quoted nickname. *)
Lemma pattern_variants_witness :
  let L := Sample.lib ∅ in
  let pattern := "^[a-z]+( " +:+ chr dquote +:+ chr backslash +:+ "w+" +:+ chr dquote +:+ ")?$" in
  let nickname : obj :=
    {[ "fieldName" := VStr "nickname"; "fieldType" := VStr "String";
       "fieldValidateRules" := VArr [VStr "pattern"];
       "fieldValidateRulesPattern" := VStr pattern ]} in
  let s : FieldState := (Sample.context "Customer" {[ "prodDatabaseType" := VStr "mysql" ]} [nickname] [],
     nickname) in
  let field := snd (st (loadField (H:=L) s)) in
  (snd s !! "fieldValidateRulesPattern" = str pattern
   ∧ snd s !! "fieldValidateRulesPatternJava" = None
   ∧ snd s !! "fieldValidateRulesPatternAngular" = None
   ∧ succeeded (loadField (H:=L) s))
  ∧ ∃ java angular,
      field !! "fieldValidateRulesPatternJava" = str java
      ∧ readJavaLiteral java = Some pattern
      ∧ field !! "fieldValidateRulesPatternAngular" = str angular
      ∧ dquote ∉ String.list_ascii_of_string angular.
Proof.
  cbn zeta. apply use_hypotheses.
  - split; [done|]. split; [done|]. split; [done|]. vm_compute. exact I.
  - intros (H1 & H2 & H3 & H4).
    exact (pattern_variants_escape_the_pattern (H:=Sample.lib ∅) _ _ H1 H2 H3 H4).
Defined.

(** ** Validating twice *)

(** A computation that leaves an input as it is does the same on a second
    run. *)
Lemma settled_at_once {S A} (m : M S A) (s : S) :
  succeeded (m s) → st (m s) = s →
  succeeded (m (st (m s))) ∧ st (m (st (m s))) = st (m s).
Proof. intros Hok Hst. by rewrite !Hst. Qed.

(** A loop over elements the callback leaves as they are leaves the
    context as it is. *)
Lemma forEachOf_onSnd_fixed {X} (getl : Context → list X) setl (m : M X unit)
    (c : Context) :
  setl (getl c) c = c →
  Forall (λ x, succeeded (m x) ∧ st (m x) = x) (getl c) →
  returns (forEachOf getl setl (onSnd m)) (λ _ c', c' = c) c.
Proof.
  intros Hset Hfixed. unfold returns, forEachOf. cbn [res st].
  destruct (forEach_onSnd_run m (getl c) c)
    as [(_ & Hres & ->)|(before & x & after & e & Hxs & _ & Hx & _ & _)].
  - exists (). split; [exact Hres|]. cbn [fst snd].
    transitivity (setl (getl c) c); [|done]. f_equal.
    clear Hres Hset. induction Hfixed as [|x l [_ Hx] _ IH]; [done|].
    rewrite fmap_cons. by rewrite Hx, IH.
  - rewrite Hxs in Hfixed. apply Forall_app in Hfixed as [_ Hfixed].
    apply Forall_cons in Hfixed as [[Hok _] _]. unfold succeeded in Hok.
    by rewrite Hx in Hok.
Qed.

Lemma forEachOf_onSnd_ok {X} (getl : Context → list X) setl (m : M X unit)
    (c : Context) :
  succeeded (forEachOf getl setl (onSnd m) c) →
  Forall (λ x, succeeded (m x)) (getl c)
  ∧ st (forEachOf getl setl (onSnd m) c) = setl ((λ x, st (m x)) <$> getl c) c.
Proof.
  unfold forEachOf, succeeded. cbn [res st].
  by destruct (forEach_onSnd_run m (getl c) c)
    as [(? & _ & ->)|(? & ? & ? & ? & _ & _ & _ & -> & _)].
Qed.

Ltac other_key := repeat (apply not_elem_of_cons; split; [done|]); apply not_elem_of_nil.

Section Settled.
Context `{Lib}.

(** What [validateFile] writes to a field it lets through. *)
Lemma validateField_writes entityName (field : obj) :
  wp (validateField entityName)
     (λ _ field',
        field' = field
        ∨ field !! "fieldName" ≠ None
          ∧ field !! "fieldType" = str "ByteBuffer"
          ∧ field' = assign "fieldValidateRules" (Some (VArr []))
                       (assign "validation" (boolean false) field))
     field.
Proof.
  unfold validateField.
  apply wp_bind, wp_ifS.
  destruct (field !! "fieldName") as [fieldName|] eqn:Hname; cbn [isUndefined]; [|by run].
  apply wp_bind, wp_ifS.
  destruct (isUndefined (field !! "fieldType")); [by run|].
  apply wp_bind, wp_get.
  destruct (field !! "fieldValidateRules") as [[| | | |rules|]|]; try by run.
  - do 8 (apply (wp_stable_bind (λ field : obj, field));
          [unfold requireCompanion; stable_tac|intros _ ? ->]).
    run_step. destruct (isStr (field !! "fieldType") "ByteBuffer") eqn:Htype; run.
    + right. by apply isStr_true in Htype.
    + by left.
  - run. by left.
Qed.

Lemma validateField_settles entityName (field : obj) :
  succeeded (validateField entityName field) →
  let field' := st (validateField entityName field) in
  succeeded (validateField entityName field')
  ∧ st (validateField entityName field') = field'.
Proof.
  intros Hok. cbn zeta.
  destruct (wp_succeeded _ _ _ (validateField_writes entityName field) Hok)
    as (_ & _ & [Hsame|(Hname & Htype & Hfield)]); [by apply settled_at_once|].
  rewrite Hfield.
  set (field' := assign "fieldValidateRules" _ _).
  assert (returns (validateField entityName) (λ _ field'', field'' = field') field')
    as ([] & Hres & Hst).
  { unfold validateField.
    assert (field' !! "fieldName" = field !! "fieldName") as Hname'
      by (subst field'; by rewrite !lookup_assign_ne by done).
    assert (field' !! "fieldType" = str "ByteBuffer") as Htype'
      by (subst field'; by rewrite !lookup_assign_ne by done).
    assert (field' !! "fieldValidateRules" = Some (VArr [])) as Hrules'
      by (subst field'; by rewrite lookup_assign_eq).
    run. rewrite Hname'. destruct (field !! "fieldName"); [|done]. cbn [isUndefined].
    run. rewrite Htype'. cbn [isUndefined str]. run. rewrite Hrules'.
    unfold requireCompanion. cbn [forM_ fmap list_fmap includes existsb andb]. run.
    rewrite Htype'. rewrite (proj2 (isStr_true _ _) eq_refl). run.
    subst field'. apply map_eq. intros k.
    destruct (decide (k = "fieldValidateRules")) as [->|?];
      [by rewrite !lookup_assign_eq|].
    rewrite (lookup_assign_ne k "fieldValidateRules") by done.
    destruct (decide (k = "validation")) as [->|?];
      [by rewrite lookup_assign_eq, lookup_assign_ne, lookup_assign_eq|].
    by rewrite !lookup_assign_ne by done. }
  unfold succeeded. by rewrite Hres.
Qed.

Lemma validateRelationship_settles entityName (r : obj) :
  succeeded (validateRelationship entityName r) →
  let r' := st (validateRelationship entityName r) in
  succeeded (validateRelationship entityName r')
  ∧ st (validateRelationship entityName r') = r'.
Proof.
  intros Hok. cbn zeta.
  destruct (wp_succeeded _ _ _ (validateRelationship_wp entityName r) Hok)
    as (_ & _ & (Hother & Htype & Howner) & (Hname1 & Hback1 & Hfield1 & Hrest1)).
  set (r1 := st (validateRelationship entityName r)) in *.
  assert (r1 !! "otherEntityName" = r !! "otherEntityName") as Hother1
    by (apply Hrest1; unfold relationshipFallbacks; other_key).
  assert (r1 !! "relationshipType" = r !! "relationshipType") as Htype1
    by (apply Hrest1; unfold relationshipFallbacks; other_key).
  assert (r1 !! "ownerSide" = r !! "ownerSide") as Howner1
    by (apply Hrest1; unfold relationshipFallbacks; other_key).
  assert (wellFormedRelationship r1) as Hwf1.
  { unfold wellFormedRelationship. by rewrite Hother1, Htype1, Howner1. }
  pose proof (wellFormedRelationship_succeeds entityName r1 Hwf1) as Hok1.
  split; [done|].
  destruct (wp_succeeded _ _ _ (validateRelationship_wp entityName r1) Hok1)
    as (_ & _ & _ & (Hname2 & Hback2 & Hfield2 & Hrest2)).
  apply map_eq. intros k.
  destruct (decide (k ∈ relationshipFallbacks)) as [Hin|Hout]; [|by apply Hrest2].
  unfold relationshipFallbacks in Hin.
  repeat (apply elem_of_cons in Hin as [->|Hin]); [..|by apply elem_of_nil in Hin].
  - rewrite Hname2, Hname1.
    destruct (r !! "relationshipName"); cbn [isUndefined]; [done|].
    by destruct (r !! "otherEntityName").
  - rewrite Hback2, Htype1, Hback1.
    destruct (isUndefined (r !! "otherEntityRelationshipName")
              && negb (isUndefined (r !! "relationshipType"))
              && negb (isStr (r !! "relationshipType") "")) eqn:Hcond; [done|].
    by rewrite Hcond.
  - rewrite Hfield2, Htype1, Howner1, Hfield1.
    match goal with
    | |- context [isUndefined (r !! "otherEntityField") && ?c] =>
      destruct (isUndefined (r !! "otherEntityField") && c) eqn:Hcond
    end.
    + apply andb_true_iff in Hcond as [_ ->]. done.
    + by rewrite Hcond.
Qed.

Lemma validateRoot_dates (context : Context) :
  wp validateRoot
     (λ _ c',
        cfg c' !! "changelogDate"
        = if isUndefined (cfg context !! "changelogDate")
             && oneOf ["sql"; "cassandra"] (cfg context !! "databaseType")
          then str dateFormatForLiquibase
          else cfg context !! "changelogDate")
     context.
Proof.
  unfold validateRoot.
  refine (wp_then_stable (λ c : Context, cfg c !! "changelogDate")
            (λ v, v = _) _ _ _ _ _).
  - run. destruct (isUndefined _ && _); run; cbn; by rewrite ?lookup_assign_eq.
  - intros _. stable_tac.
Qed.

Lemma validateRoot_clientRootFolder (context : Context) :
  wp validateRoot
     (λ _ c',
        cfg c' !! "clientRootFolder"
        = if negb (truthy (cfg context !! "clientRootFolder"))
             && negb (truthy (cfg context !! "skipUiGrouping"))
             && (truthy (cfg context !! "useMicroserviceJson")
                 || isStr (cfg context !! "applicationType") "microservice")
          then cfg context !! "microserviceName"
          else cfg context !! "clientRootFolder")
     context.
Proof.
  unfold validateRoot.
  set (obs := λ c : Context,
         (cfg c !! "clientRootFolder", cfg c !! "skipUiGrouping",
          cfg c !! "useMicroserviceJson", cfg c !! "applicationType",
          cfg c !! "microserviceName")).
  apply (wp_stable_bind obs); [subst obs; unfold rootFallback; stable_tac|].
  intros _ c1 Hc1.
  do 4 (apply (wp_stable_bind obs); [subst obs; unfold rootFallback; stable_tac|];
        let c' := fresh "c" in
        let Hc' := fresh "Hc" in
        intros _ c' Hc'; rewrite Hc1 in Hc'; clear Hc1 c1; rename Hc' into Hc1;
        rename c' into c1).
  subst obs. cbn beta in Hc1. injection Hc1 as Hroot Hskip Hjson Htype Hname.
  rewrite <- Hroot, <- Hskip, <- Hjson, <- Htype, <- Hname.
  run. destruct (negb (truthy (cfg c1 !! "clientRootFolder")) && _); cbn [andb]; run;
    [|done].
  destruct (truthy _ || _); run; [|done]. cbn. by rewrite lookup_assign_eq.
Qed.

Lemma context_eq (c c' : Context) :
  cfg c' = cfg c →
  (name c', fields c', relationships c', differentTypes c',
   differentRelationships c', blobFields c', i18nToLoad c')
  = (name c, fields c, relationships c, differentTypes c,
     differentRelationships c, blobFields c, i18nToLoad c) →
  c' = c.
Proof. destruct c, c'. cbn. by intros -> [= -> -> -> -> -> -> ->]. Qed.

Lemma validateRoot_settles (context : Context) :
  st (validateRoot (st (validateRoot context))) = st (validateRoot context).
Proof.
  set (c1 := st (validateRoot context)).
  assert (∀ c, succeeded (validateRoot c)) as Hok
    by (intros c; exact (returns_succeeded _ _ _ (validateRoot_returns c))).
  assert (∀ Q c, wp validateRoot Q c → Q () (st (validateRoot c))) as Hafter.
  { intros Q c Hwp.
    by destruct (wp_succeeded _ _ _ Hwp (Hok c)) as ([] & _ & ?). }
  pose proof (ltac:(stable_tac) :
                stable (λ c : Context,
                          (name c, fields c, relationships c, differentTypes c,
                           differentRelationships c, blobFields c, i18nToLoad c))
                  validateRoot) as Hrest.
  apply context_eq; [|exact (Hrest c1)]. clear Hrest.
  apply map_eq. intros k.
  destruct (decide (k ∈ "changelogDate" :: "clientRootFolder" :: rootDefaults.*1))
    as [Hin|Hout]; [|by apply validateRoot_frame].
  assert (∀ k', k' ∉ "changelogDate" :: "clientRootFolder" :: rootDefaults.*1 →
                cfg c1 !! k' = cfg context !! k') as Hframe
    by (intros k' Hk'; by apply validateRoot_frame).
  cbn in Hin. apply elem_of_cons in Hin as [->|Hin].
  { pose proof (Hafter _ _ (validateRoot_dates context)) as Hfirst.
    pose proof (Hafter _ _ (validateRoot_dates c1)) as Hsecond.
    cbn beta in Hfirst, Hsecond. fold c1 in Hfirst.
    rewrite (Hframe "databaseType") in Hsecond by (cbn; other_key).
    rewrite Hsecond, !Hfirst.
    destruct (isUndefined (cfg context !! "changelogDate")) eqn:Hmissing;
      destruct (oneOf ["sql"; "cassandra"] (cfg context !! "databaseType"));
      cbn [andb]; cbv iota; rewrite ?Hmissing; by cbn [andb isUndefined str]. }
  apply elem_of_cons in Hin as [->|Hin].
  { pose proof (Hafter _ _ (validateRoot_clientRootFolder context)) as Hfirst.
    pose proof (Hafter _ _ (validateRoot_clientRootFolder c1)) as Hsecond.
    cbn beta in Hfirst, Hsecond. fold c1 in Hfirst.
    rewrite !(Hframe "skipUiGrouping"), !(Hframe "useMicroserviceJson"),
      !(Hframe "applicationType"), !(Hframe "microserviceName") in Hsecond
      by (cbn; other_key).
    rewrite Hsecond, !Hfirst.
    destruct (negb (truthy (cfg context !! "clientRootFolder"))) eqn:Hroot;
      destruct (negb (truthy (cfg context !! "skipUiGrouping")));
      destruct (truthy (cfg context !! "useMicroserviceJson")
                || isStr (cfg context !! "applicationType") "microservice");
      cbn [andb]; cbv iota; rewrite ?Hroot; cbn [andb]; try done.
    by destruct (negb (truthy (cfg context !! "microserviceName"))). }
  assert (∃ fallback, (k, fallback) ∈ rootDefaults ∧ fallback ≠ None)
    as (fallback & Hk & Hfallback).
  { unfold rootDefaults in *. cbn in Hin.
    repeat (apply elem_of_cons in Hin as [->|Hin]); [..|by apply elem_of_nil in Hin];
      eexists; (split; [repeat first [by left|right]|done]). }
  pose proof (Hafter _ _ (validateRoot_fallback context k fallback Hk)) as Hfirst.
  pose proof (Hafter _ _ (validateRoot_fallback c1 k fallback Hk)) as Hsecond.
  cbn beta in Hfirst, Hsecond. fold c1 in Hfirst. rewrite Hsecond, !Hfirst.
  destruct (cfg context !! k); cbn [isUndefined]; [done|].
  by destruct fallback.
Qed.

Lemma set_fields_same (c : Context) : set_fields (fields c) c = c.
Proof. by destruct c. Qed.

Lemma set_relationships_same (c : Context) : set_relationships (relationships c) c = c.
Proof. by destruct c. Qed.

(** Validating twice. A document that [validateFile] lets through is one
    it lets through again, and the second pass leaves the context as the
    first one left it: the fallbacks are written once. *)
Theorem validateFile_settles (context : Context) :
  succeeded (validateFile context) →
  let context' := st (validateFile context) in
  succeeded (validateFile context') ∧ st (validateFile context') = context'.
Proof.
  intros Hok. cbn zeta.
  pose proof (validateFile_run context) as Hrun.
  set (F := forEachOf fields set_fields (onSnd (validateField (name context)))) in *.
  set (R := forEachOf relationships set_relationships
              (onSnd (validateRelationship (name context)))) in *.
  rewrite Hrun in Hok. apply succeeded_bind in Hok as [HF Hok].
  destruct (res (F context)) as [e|[]] eqn:HresF;
    [unfold succeeded in HF; by rewrite HresF in HF|].
  specialize (Hok () eq_refl). apply succeeded_bind in Hok as [HR _].
  assert (st (validateFile context) = st (validateRoot (st (R (st (F context))))))
    as Hst.
  { rewrite Hrun, bind_run, HresF. cbn [st]. rewrite bind_run.
    unfold succeeded in HR. by destruct (res (R (st (F context)))) as [|[]]. }
  destruct (forEachOf_onSnd_ok _ _ _ _ HF) as [HallF HstF].
  destruct (forEachOf_onSnd_ok _ _ _ _ HR) as [HallR HstR].
  subst R F. rewrite HstR in Hst. rewrite HstF in Hst, HallR.
  cbn [relationships set_fields] in Hst, HallR. rewrite Hst. clear Hst HstR HstF.
  match goal with
  | |- context [st (validateRoot ?c)] => set (cR := c); set (c1 := st (validateRoot cR))
  end.
  pose proof (ltac:(stable_tac) :
                stable (λ c : Context, (name c, fields c, relationships c))
                  validateRoot) as Hroot.
  specialize (Hroot cR). cbn beta in Hroot. fold c1 in Hroot. subst cR.
  cbn [name fields relationships set_fields set_relationships] in Hroot.
  injection Hroot as Hname Hfields Hrels.
  assert (returns validateFile (λ _ c', c' = c1) c1) as ([] & Hres & Hfix).
  { unfold validateFile. apply returns_bind, returns_get. cbv zeta. rewrite Hname.
    apply returns_bind.
    eapply returns_mono; [|apply forEachOf_onSnd_fixed; [apply set_fields_same|]].
    - cbn beta. intros _ c' ->. apply returns_bind.
      eapply returns_mono;
        [|apply forEachOf_onSnd_fixed; [apply set_relationships_same|]].
      + cbn beta. intros _ c' ->.
        destruct (validateRoot_returns c1) as ([] & Hres & _).
        exists (). split; [done|]. apply validateRoot_settles.
      + rewrite Hrels. apply Forall_fmap. eapply Forall_impl; [exact HallR|].
        intros r Hr. by apply validateRelationship_settles.
    - rewrite Hfields. apply Forall_fmap. eapply Forall_impl; [exact HallF|].
      intros field Hfield. by apply validateField_settles. }
  unfold succeeded. by rewrite Hres.
Qed.

End Settled.

(** A pet with an owner, both without the optional attributes. *)
Lemma validateFile_settles_witness :
  let L := Sample.lib ∅ in
  let tag : obj :=
    {[ "fieldName" := VStr "tag"; "fieldType" := VStr "ByteBuffer";
       "fieldValidateRules" := VArr [VStr "required"] ]} in
  let owner : obj :=
    {[ "otherEntityName" := VStr "person"; "relationshipType" := VStr "many-to-one" ]} in
  let context :=
    Sample.context "Pet" {[ "databaseType" := VStr "sql" ]} [tag] [owner] in
  let context' := st (validateFile (H:=L) context) in
  succeeded (validateFile (H:=L) context)
  ∧ (succeeded (validateFile (H:=L) context')
     ∧ st (validateFile (H:=L) context') = context').
Proof.
  cbn zeta. apply use_hypotheses.
  - vm_compute. exact I.
  - intros H1. exact (validateFile_settles (H:=Sample.lib ∅) _ H1).
Defined.

(** ** The translations to load *)

Section Translations.
Context `{Lib}.

Lemma enumInstances_snoc done (field : obj) :
  enumInstances (done ++ [field])
  = enumInstances done
    ++ (if strictEq (field !! "fieldIsEnum") (boolean true)
        then [field !! "enumInstance"] else []).
Proof.
  unfold enumInstances. rewrite filter_app, fmap_app, filter_cons, filter_nil.
  destruct (decide _) as [->|Hno]; [done|]. by apply not_true_is_false in Hno as ->.
Qed.

Lemma classifyField_translations (s : FieldState) :
  wp classifyField
     (λ _ s',
        i18nToLoad (fst s')
        = i18nToLoad (fst s)
          ++ (if strictEq (snd s' !! "fieldIsEnum") (boolean true)
              then [snd s' !! "enumInstance"] else []))
     s.
Proof.
  destruct s as [c field]. unfold classifyField. run.
  destruct (isStr (field !! "fieldType") "DateTime" || isStr (field !! "fieldType") "Date");
    run; rewrite ?lookup_assign_eq;
    match goal with
    | |- context [negb (oneOf ?l ?v)] => destruct (negb (oneOf l v))
    end; run; rewrite ?lookup_assign_eq;
    (destruct (strictEq _ _) eqn:Henum; run;
     cbn [fst snd i18nToLoad set_i18nToLoad set_cfg];
     repeat first [rewrite lookup_assign_eq | rewrite lookup_assign_ne by done];
     rewrite ?Henum; by rewrite ?app_nil_r).
Qed.

Lemma loadField_translations start done (s : FieldState) :
  i18nToLoad (fst s) = start ++ enumInstances done →
  wp loadField
     (λ _ s', i18nToLoad (fst s') = start ++ enumInstances (done ++ [snd s'])) s.
Proof.
  intros Hdone. unfold loadField. run_step. run_step. cbv zeta. apply wp_bind.
  eapply wp_mono; [|apply classifyField_translations].
  cbn beta. intros fieldType s1 Hs1.
  apply (wp_stable (λ s : FieldState,
                      (i18nToLoad (fst s), snd s !! "fieldIsEnum",
                       snd s !! "enumInstance")));
    [stable_tac|].
  intros _ s2 [= Hloaded Henum Hinstance].
  by rewrite enumInstances_snoc, Hloaded, Henum, Hinstance, Hs1, Hdone, app_assoc.
Qed.

Lemma loadInMemoryData_translations fileData (c : Context) :
  wp (loadInMemoryData fileData)
     (λ _ c', i18nToLoad c'
              = str (lowerFirst (str (name c))) :: enumInstances (fields c')) c.
Proof.
  unfold loadInMemoryData. apply wp_bind.
  assert (wp (loadEntityNames fileData)
            (λ _ c', i18nToLoad c' = [str (lowerFirst (str (name c)))]) c) as Hstart.
  { unfold loadEntityNames. run_step. run_step. cbv zeta.
    repeat lazymatch goal with
           | |- wp (cset "entityInstance" _ ≫= _) _ _ => fail
           | |- wp (_ ≫= _) _ _ =>
             apply (wp_stable_bind name); [stable_tac|]; intros ? ? _
           end.
    apply wp_bind. run_step. cbn [fst snd].
    match goal with
    | |- wp _ _ ?c1 =>
      apply (wp_mono _ (λ _ c', i18nToLoad c' = [cfg c1 !! "entityInstance"]));
      [intros _ c' ->; cbn; by rewrite lookup_assign_eq|]
    end.
    set (c1 := set_cfg _ _).
    apply (wp_mono _ (λ _ c', i18nToLoad c' = [cfg c' !! "entityInstance"]
                              ∧ cfg c' !! "entityInstance" = cfg c1 !! "entityInstance"));
      [by intros _ c' [-> ->]|].
    apply wp_and.
    - repeat lazymatch goal with
             | |- wp (modify (λ c, set_i18nToLoad _ c) ≫= _) _ _ => fail
             | |- wp (_ ≫= _) _ _ => apply wp_bind_any; intros ? ?
             end.
      refine (wp_then_stable (λ c : Context, (i18nToLoad c, cfg c !! "entityInstance"))
                (λ v, v.1 = [v.2]) _ _ _ _ _); [by run|intros _; stable_tac].
    - apply (wp_stable (λ c : Context, cfg c !! "entityInstance"));
        [cbn [forM_]; stable_tac|by intros _ c' ->]. }
  eapply wp_mono; [|exact Hstart]. cbn beta. intros _ c1 Hc1. apply wp_bind.
  assert (wp (forEachOf fields set_fields loadField)
            (λ _ c', i18nToLoad c'
                     = [str (lowerFirst (str (name c)))] ++ enumInstances (fields c')) c1)
    as Hloop.
  { unfold wp, forEachOf. cbn [res st].
    pose proof (forEach_wp loadField
                  (λ c' done, i18nToLoad c'
                              = [str (lowerFirst (str (name c)))] ++ enumInstances done)
                  (λ c' x done, loadField_translations _ done (c', x))
                  (fields c1) c1 [] Hc1) as Hwp.
    unfold succeeded in Hwp.
    destruct (res (forEach loadField (fields c1) c1)); [done|].
    by apply Hwp. }
  eapply wp_mono; [|exact Hloop]. cbn beta. intros _ c2 Hc2.
  apply (wp_stable (λ c : Context, (i18nToLoad c, fields c))).
  - apply stable_bind; [apply loadRelationships_stable; [stable_tac|done]|intros ?].
    stable_tac.
  - intros _ c3 [= -> ->]. exact Hc2.
Qed.

(** The translations to load. When [loadInMemoryData] returns,
    [i18nToLoad] holds the instance name of the entity and then, for every
    field that is an enumeration and in the order of the fields, what the
    field has as [enumInstance]. *)
Theorem i18nToLoad_lists_the_enumerations fileData (context : Context) :
  succeeded (loadInMemoryData fileData context) →
  let context' := st (loadInMemoryData fileData context) in
  i18nToLoad context'
  = str (lowerFirst (str (name context))) :: enumInstances (fields context').
Proof.
  intros Hok. cbn zeta.
  by destruct (wp_succeeded _ _ _ (loadInMemoryData_translations fileData context) Hok)
    as (_ & _ & ?).
Qed.

End Translations.

(** A task with a status of its own type. *)
Lemma i18nToLoad_witness :
  let L := Sample.lib ∅ in
  let title : obj := {[ "fieldName" := VStr "title"; "fieldType" := VStr "String" ]} in
  let status : obj :=
    {[ "fieldName" := VStr "status"; "fieldType" := VStr "Status";
       "enumInstance" := VStr "status" ]} in
  let context := Sample.context "Task" {[ "prodDatabaseType" := VStr "mysql" ]} [title; status] [] in
  let context' := st (loadInMemoryData (H:=L) ∅ context) in
  succeeded (loadInMemoryData (H:=L) ∅ context)
  ∧ i18nToLoad context'
    = str (lowerFirst (Lib:=L) (str (name context))) :: enumInstances (fields context').
Proof.
  cbn zeta. apply use_hypotheses.
  - vm_compute. exact I.
  - intros H1. exact (i18nToLoad_lists_the_enumerations (H:=Sample.lib ∅) _ _ H1).
Defined.
(** ** What the assembly keeps of the root *)

Section Root.
Context `{Lib}.

(** The root stays as validated. Whether [loadInMemoryData] returns or
    throws, the properties [validateFile] settles at the root of the
    document ([changelogDate], [clientRootFolder], [dto], [service],
    [jpaMetamodelFiltering], [pagination]) are what they were. *)
Theorem loadInMemoryData_keeps_the_root fileData (context : Context) k :
  k ∈ "changelogDate" :: "clientRootFolder" :: rootDefaults.*1 →
  cfg (st (loadInMemoryData fileData context)) !! k = cfg context !! k.
Proof.
  intros Hk.
  set (obs := λ c : Context,
         (λ k, cfg c !! k) <$> "changelogDate" :: "clientRootFolder" :: rootDefaults.*1).
  assert (stable obs (loadInMemoryData fileData)) as Hstable.
  { unfold loadInMemoryData, obs. cbn [fmap list_fmap rootDefaults fst].
    apply stable_bind; [unfold loadEntityNames; cbn [forM_]; stable_tac|intros _].
    apply stable_bind; [apply forEachOf_stable; [stable_tac|done]|intros _].
    apply stable_bind; [apply loadRelationships_stable; [stable_tac|done]|intros ?].
    stable_tac. }
  specialize (Hstable context). unfold obs in Hstable.
  cbn [fmap list_fmap rootDefaults fst] in Hstable.
  injection Hstable as ? ? ? ? ? ?.
  cbn in Hk.
  repeat (apply elem_of_cons in Hk as [->|Hk]); [..|by apply elem_of_nil in Hk]; done.
Qed.

End Root.

(** The date of the changelog of a customer. *)
Lemma loadInMemoryData_keeps_the_root_witness :
  let L := Sample.lib ∅ in
  let context :=
    Sample.context "Customer"
      {[ "changelogDate" := VStr "20190101120000"; "prodDatabaseType" := VStr "mysql" ]}
      [] [] in
  "changelogDate" ∈ "changelogDate" :: "clientRootFolder" :: rootDefaults.*1
  ∧ cfg (st (loadInMemoryData (H:=L) ∅ context)) !! "changelogDate"
    = cfg context !! "changelogDate".
Proof.
  cbn zeta. apply use_hypotheses.
  - by left.
  - intros H1. exact (loadInMemoryData_keeps_the_root (H:=Sample.lib ∅) _ _ _ H1).
Defined.

(** ** The options of the entity *)

Section Options.
Context `{Lib}.

Lemma _setupEntityOptions_suffix options (s : obj * Context) :
  wp (_setupEntityOptions options)
     (λ _ s',
        (∃ asked,
           suffixAsked options (fst s) = str asked
           ∧ fst s' !! "angularJSSuffix"
             = str (if String.eqb asked "" || String.prefix "-" asked then asked
                    else "-" +:+ asked))
        ∨ (truthy (suffixAsked options (fst s)) = false
           ∧ fst s' !! "angularJSSuffix" = suffixAsked options (fst s)))
     s.
Proof.
  destruct s as [config dest]. unfold _setupEntityOptions, suffixAsked, fromOption.
  cbn [fst].
  apply (wp_stable_bind (λ s : obj * Context, fst s !! "angularJSSuffix"));
    [unfold dset, configure; stable_tac|]. intros _ s1 Hs1. cbn [fst] in Hs1.
  do 2 (apply (wp_stable_bind (λ s : obj * Context, fst s !! "angularJSSuffix"));
        [unfold dset, configure; stable_tac|];
        let s' := fresh "s" in
        let Hs' := fresh "Hs" in
        intros _ s' Hs'; rewrite Hs1 in Hs'; clear Hs1 s1; rename Hs' into Hs1;
        rename s' into s1).
  apply wp_bind.
  apply (wp_mono _ (λ _ s', fst s' !! "angularJSSuffix"
                            = if isUndefined (options !! "angularSuffix")
                              then config !! "angularJSSuffix"
                              else options !! "angularSuffix")).
  2: { unfold configure.
       destruct (isUndefined (options !! "angularSuffix")); cbn [negb]; run;
         [done|by rewrite lookup_assign_eq]. }
  clear Hs1 s1. cbn beta. intros _ s1 Hs1.
  generalize dependent (if isUndefined (options !! "angularSuffix")
                        then config !! "angularJSSuffix"
                        else options !! "angularSuffix").
  intros asked Hs1.
  do 6 (apply (wp_stable_bind (λ s : obj * Context, fst s !! "angularJSSuffix"));
        [unfold dset, configure; stable_tac|];
        let s' := fresh "s" in
        let Hs' := fresh "Hs" in
        intros _ s' Hs'; rewrite Hs1 in Hs'; clear Hs1 s1; rename Hs' into Hs1;
        rename s' into s1).
  run_step. run_step. rewrite Hs1.
  destruct (truthy asked) eqn:Htruthy; [|run; by right].
  unfold startsWithDash. destruct asked as [[| | |text| |]|]; try by run.
  cbn [truthy] in Htruthy. apply negb_true_iff in Htruthy. unfold configure. run.
  destruct (String.prefix "-" text) eqn:Hdash; cbn [negb]; run;
    left; exists text; (split; [done|]); rewrite Htruthy, Hdash; cbn [orb]; [done|].
  by rewrite lookup_assign_eq, Hs1.
Qed.

(** The suffix of the entity. When [_setupEntityOptions] returns, the
    configuration holds the suffix the entity was to get, with a dash before
    it unless it has one or is empty; a suffix that is not a string is one
    that counts as false, kept as it is. *)
Theorem angular_suffix_is_dashed options (s : obj * Context) :
  succeeded (_setupEntityOptions options s) →
  let asked := suffixAsked options (fst s) in
  let stored := fst (st (_setupEntityOptions options s)) !! "angularJSSuffix" in
  (∃ text, asked = str text
           ∧ stored = str (if String.eqb text "" || String.prefix "-" text then text
                           else "-" +:+ text))
  ∨ (truthy asked = false ∧ stored = asked).
Proof.
  intros Hok. cbn zeta.
  by destruct (wp_succeeded _ _ _ (_setupEntityOptions_suffix options s) Hok)
    as (_ & _ & ?).
Qed.

End Options.

(** An entity asked for with [--angular-suffix mySuffix]. *)
Lemma angular_suffix_witness :
  let L := Sample.lib ∅ in
  let options : obj := {[ "angularSuffix" := VStr "mySuffix" ]} in
  let s : obj * Context := (∅, Sample.context "Customer" ∅ [] []) in
  let asked := suffixAsked options (fst s) in
  let stored := fst (st (_setupEntityOptions (H:=L) options s)) !! "angularJSSuffix" in
  succeeded (_setupEntityOptions (H:=L) options s)
  ∧ ((∃ text, asked = str text
              ∧ stored = str (if String.eqb text "" || String.prefix "-" text then text
                              else "-" +:+ text))
     ∨ (truthy asked = false ∧ stored = asked)).
Proof.
  cbn zeta. apply use_hypotheses.
  - vm_compute. exact I.
  - intros H1. exact (angular_suffix_is_dashed (H:=Sample.lib ∅) _ _ H1).
Defined.
